(** * netsuite.client: a shallow embedding of [src/netsuite/client.py]

    The module is a thin layer over a SOAP engine (zeep): it derives the WSDL
    URL, memoises the transport, the cache and the client, binds XML
    namespaces to type factories, and signs every request.  The embedding
    keeps the Python control flow: methods that touch the instance or the
    outside world are computations in a state-and-exception monad, the
    instance attributes filled by [cached_property] are explicit memo slots,
    and every call into an external collaborator (zeep, requests, the
    passport module, the remote server) is recorded on a trace.

    A [str] is represented by its UTF-8 encoding, one [ascii] for each
    byte.  Every character the module searches for, splits on or replaces
    is an ASCII character, so these operations are the same on the encoding
    as on the code points; the one class of characters the module uses,
    [\d] of Python's [re], is on a [str] pattern the decimal digits of
    Unicode and is modelled as such.  Assertions are taken as enabled (no
    [python -O]). *)

From Stdlib Require Import ZArith Ascii.
From stdpp Require Import gmap strings list.

Local Open Scope Z_scope.

(** ** Exceptions and results *)

Inductive exn :=
| AssertionError
| TypeError
| AttributeError
| KeyError
| ValueError
| ExternalError (msg : string).

Inductive res (A : Type) :=
| Ok (a : A)
| Err (e : exn).
Arguments Ok {A} a.
Arguments Err {A} e.

Definition res_bind {A B} (r : res A) (k : A -> res B) : res B :=
  match r with
  | Ok a => k a
  | Err e => Err e
  end.

(** ** Python strings *)

(** [s.replace(old, new)] for a one-character [old], as the class applies
    it to its version. *)
Fixpoint str_replace (old : ascii) (new : string) (s : string) : string :=
  match s with
  | EmptyString => EmptyString
  | String c s' =>
      if Ascii.eqb c old then new +:+ str_replace old new s'
      else String c (str_replace old new s')
  end.

(** Position of the last [sep]: the text before it and the text after it. *)
Fixpoint rsplit1 (sep : ascii) (s : string) : option (string * string) :=
  match s with
  | EmptyString => None
  | String c s' =>
      match rsplit1 sep s' with
      | Some (h, t) => Some (String c h, t)
      | None => if Ascii.eqb c sep then Some (EmptyString, s') else None
      end
  end.

(** [s.rpartition(sep)]: [(head, sep, tail)] around the last [sep], and
    [('', '', s)] when [sep] does not occur. *)
Definition rpartition (sep : ascii) (s : string) : string * string * string :=
  match rsplit1 sep s with
  | Some (h, t) => (h, String sep EmptyString, t)
  | None => (EmptyString, EmptyString, s)
  end.

(** [s.split(sep)] with an explicit one-character separator: never empty,
    [''.split('.')] is [['']]. *)
Fixpoint split (sep : ascii) (s : string) : list string :=
  match s with
  | EmptyString => [EmptyString]
  | String c s' =>
      if Ascii.eqb c sep then EmptyString :: split sep s'
      else match split sep s' with
           | w :: ws => String c w :: ws
           | [] => [String c EmptyString]
           end
  end.

(** Position of the first [sep]: the text before it and the text after it. *)
Fixpoint split1 (sep : ascii) (s : string) : option (string * string) :=
  match s with
  | EmptyString => None
  | String c s' =>
      if Ascii.eqb c sep then Some (EmptyString, s')
      else match split1 sep s' with
           | Some (h, t) => Some (String c h, t)
           | None => None
           end
  end.

(** [s.partition(sep)]: [(head, sep, tail)] around the first [sep], and
    [(s, '', '')] when [sep] does not occur. *)
Definition partition (sep : ascii) (s : string) : string * string * string :=
  match split1 sep s with
  | Some (h, t) => (h, String sep EmptyString, t)
  | None => (s, EmptyString, EmptyString)
  end.

(** [s.startswith(p)] *)
Fixpoint startswith (p s : string) : bool :=
  match p with
  | EmptyString => true
  | String a p' =>
      match s with
      | EmptyString => false
      | String c s' => Ascii.eqb a c && startswith p' s'
      end
  end.

(** The scan of [s.replace(old, new)] for a non-empty [old]: occurrences are
    taken from the left and do not overlap; [skip] is the number of
    characters of the occurrence just replaced that are still to be passed
    over. *)
Fixpoint replace_go (old new : string) (skip : nat) (s : string) : string :=
  match s with
  | EmptyString => EmptyString
  | String c s' =>
      match skip with
      | S k => replace_go old new k s'
      | O =>
          if startswith old s
          then new +:+ replace_go old new (pred (String.length old)) s'
          else String c (replace_go old new O s')
      end
  end.

(** [new] after every character of [s]. *)
Fixpoint follow_each (new s : string) : string :=
  match s with
  | EmptyString => EmptyString
  | String c s' => String c (new +:+ follow_each new s')
  end.

(** [s.replace(old, new)]; an empty [old] matches before every character
    and at the end. *)
Definition replace (old new s : string) : string :=
  match old with
  | EmptyString => new +:+ follow_each new s
  | String _ _ => replace_go old new O s
  end.

Fixpoint assoc {V} (k : string) (l : list (string * V)) : option V :=
  match l with
  | [] => None
  | (k', v) :: l' => if String.eqb k k' then Some v else assoc k l'
  end.

(** [tmpl.format] with keyword arguments [kw], for templates made of
    literal text and [{name}] fields (no [{{], no conversions, no format
    specs, as in the two templates of the class).  [field] is the name being
    read after an opening brace. *)
Fixpoint format_go (tmpl : string) (field : option string)
    (kw : list (string * string)) : res string :=
  match tmpl with
  | EmptyString =>
      match field with
      | None => Ok EmptyString
      | Some _ => Err ValueError
      end
  | String c t =>
      match field with
      | None =>
          if Ascii.eqb c "{" then format_go t (Some EmptyString) kw
          else if Ascii.eqb c "}" then Err ValueError
          else res_bind (format_go t None kw) (fun r => Ok (String c r))
      | Some f =>
          if Ascii.eqb c "}" then
            match assoc f kw with
            | Some v => res_bind (format_go t None kw) (fun r => Ok (v +:+ r))
            | None => Err KeyError
            end
          else format_go t (Some (f +:+ String c EmptyString)) kw
      end
  end.

Definition format (tmpl : string) (kw : list (string * string)) : res string :=
  format_go tmpl None kw.

(** Truth value of a [str]: empty is false. *)
Definition str_truthy (s : string) : bool :=
  match s with
  | EmptyString => false
  | String _ _ => true
  end.

(** Truth value of a sequence: empty is false. *)
Definition seq_truthy {A} (l : list A) : bool :=
  match l with
  | [] => false
  | _ :: _ => true
  end.

(** ** Regular expressions, as far as [re.match] is used *)

(** A pattern over the UTF-8 encoding of a [str]: [Chr c] is the byte [c]
    and [Rng lo hi] one byte from [lo] to [hi]. *)
Inductive regex :=
| Void
| Eps
| Chr (c : ascii)
| Rng (lo hi : N)
| Cat (r1 r2 : regex)
| Alt (r1 r2 : regex)
| Star (r : regex).

Definition Plus (r : regex) : regex := Cat r (Star r).

Definition in_range (lo hi : N) (c : ascii) : bool :=
  ((lo <=? N_of_ascii c) && (N_of_ascii c <=? hi))%N.

Definition byte (n : N) : ascii := ascii_of_N n.

(** The class [\d] of a [str] pattern is the decimal digits of Unicode
    (14.0 in CPython 3.11); they come in runs, and the encodings of a run
    share all their bytes but the last.  For each run: the bytes in front,
    and the first and the last value of the last byte. *)
Definition digit_bytes : list (list N * N * N) :=
  Eval cbv in
  [([], 48, 57); ([217], 160, 169); ([219], 176, 185); ([223], 128, 137);
   ([224; 165], 166, 175); ([224; 167], 166, 175); ([224; 169], 166, 175);
   ([224; 171], 166, 175); ([224; 173], 166, 175); ([224; 175], 166, 175);
   ([224; 177], 166, 175); ([224; 179], 166, 175); ([224; 181], 166, 175);
   ([224; 183], 166, 175); ([224; 185], 144, 153); ([224; 187], 144, 153);
   ([224; 188], 160, 169); ([225; 129], 128, 137); ([225; 130], 144, 153);
   ([225; 159], 160, 169); ([225; 160], 144, 153); ([225; 165], 134, 143);
   ([225; 167], 144, 153); ([225; 170], 128, 137); ([225; 170], 144, 153);
   ([225; 173], 144, 153); ([225; 174], 176, 185); ([225; 177], 128, 137);
   ([225; 177], 144, 153); ([234; 152], 160, 169); ([234; 163], 144, 153);
   ([234; 164], 128, 137); ([234; 167], 144, 153); ([234; 167], 176, 185);
   ([234; 169], 144, 153); ([234; 175], 176, 185); ([239; 188], 144, 153);
   ([240; 144; 146], 160, 169); ([240; 144; 180], 176, 185);
   ([240; 145; 129], 166, 175); ([240; 145; 131], 176, 185);
   ([240; 145; 132], 182, 191); ([240; 145; 135], 144, 153);
   ([240; 145; 139], 176, 185); ([240; 145; 145], 144, 153);
   ([240; 145; 147], 144, 153); ([240; 145; 153], 144, 153);
   ([240; 145; 155], 128, 137); ([240; 145; 156], 176, 185);
   ([240; 145; 163], 160, 169); ([240; 145; 165], 144, 153);
   ([240; 145; 177], 144, 153); ([240; 145; 181], 144, 153);
   ([240; 145; 182], 160, 169); ([240; 150; 169], 160, 169);
   ([240; 150; 171], 128, 137); ([240; 150; 173], 144, 153);
   ([240; 157; 159], 142, 191); ([240; 158; 133], 128, 137);
   ([240; 158; 139], 176, 185); ([240; 158; 165], 144, 153);
   ([240; 159; 175], 176, 185)]%N.

(** The bytes [front] and then one byte from [lo] to [hi]. *)
Definition digit_run (run : list N * N * N) : regex :=
  let '(front, lo, hi) := run in
  fold_right (fun b r => Cat (Chr (byte b)) r) (Rng lo hi) front.

(** The class [\d]. *)
Definition digit : regex :=
  fold_right (fun run r => Alt (digit_run run) r) Void digit_bytes.

Fixpoint nullable (r : regex) : bool :=
  match r with
  | Void => false
  | Eps => true
  | Chr _ => false
  | Rng _ _ => false
  | Cat r1 r2 => nullable r1 && nullable r2
  | Alt r1 r2 => nullable r1 || nullable r2
  | Star _ => true
  end.

Fixpoint deriv (c : ascii) (r : regex) : regex :=
  match r with
  | Void => Void
  | Eps => Void
  | Chr c' => if Ascii.eqb c c' then Eps else Void
  | Rng lo hi => if in_range lo hi c then Eps else Void
  | Cat r1 r2 =>
      if nullable r1 then Alt (Cat (deriv c r1) r2) (deriv c r2)
      else Cat (deriv c r1) r2
  | Alt r1 r2 => Alt (deriv c r1) (deriv c r2)
  | Star r1 => Cat (deriv c r1) (Star r1)
  end.

(** [re.match(r, s) is not None]: some prefix of [s] matches [r]. *)
Fixpoint re_match (r : regex) (s : string) : bool :=
  nullable r ||
  match s with
  | EmptyString => false
  | String c s' => re_match (deriv c r) s'
  end.

(** [r'\d+\.\d+\.\d+'] *)
Definition version_re : regex :=
  Cat (Plus digit) (Cat (Chr ".") (Cat (Plus digit) (Cat (Chr ".") (Plus digit)))).

(** ** Values exchanged with the SOAP engine *)

(** Python values that travel as arguments and responses.  [VCompound] is a
    zeep compound value (built by a type factory, or received), which answers
    both attribute and item access; [VOpaque] is an object of a collaborator
    known only by its identity. *)
#[warnings="-register-all"] Inductive value :=
| VNone
| VBool (b : bool)
| VInt (z : Z)
| VStr (s : string)
| VList (l : list value)
| VDict (d : list (string * value))
| VCompound (ns ty : string) (fields : list (string * value))
| VOpaque (id : nat).

(** [getattr(v, name)] *)
Definition getattr (v : value) (name : string) : res value :=
  match v with
  | VCompound _ _ fields =>
      match assoc name fields with
      | Some x => Ok x
      | None => Err AttributeError
      end
  | _ => Err AttributeError
  end.

(** [v[key]] *)
Definition getitem (v : value) (key : string) : res value :=
  match v with
  | VCompound _ _ fields | VDict fields =>
      match assoc key fields with
      | Some x => Ok x
      | None => Err KeyError
      end
  | _ => Err TypeError
  end.

(** The elements [for r in v] runs over. *)
Definition iter (v : value) : res (list value) :=
  match v with
  | VList l => Ok l
  | VDict d => Ok (map (fun kv => VStr (fst kv)) d)
  | _ => Err TypeError
  end.

(** [[f(x) for x in xs]] where [f] may raise. *)
Fixpoint res_map {A B} (f : A -> res B) (xs : list A) : res (list B) :=
  match xs with
  | [] => Ok []
  | x :: xs' =>
      res_bind (f x) (fun y => res_bind (res_map f xs') (fun ys => Ok (y :: ys)))
  end.

(** [key in d] for a dictionary. *)
Definition has_key (key : string) (d : list (string * value)) : bool :=
  match assoc key d with
  | Some _ => true
  | None => false
  end.

(** Explicit keywords followed by an unpacked dictionary [kw] in a call: a
    keyword of [kw] that is also given explicitly is a [TypeError]. *)
Definition merge_kwargs (explicit kw : list (string * value))
    : res (list (string * value)) :=
  if existsb (fun kv => has_key kv.1 explicit) kw then Err TypeError
  else Ok (explicit ++ kw).

(** ** External objects *)

(** Objects of collaborators carry the identity they were created with.
    A session carries its truth value as well: [requests.Session] defines
    neither [__bool__] nor [__len__], so that its instances are true, but
    an object of a subclass handed to the constructor may be false. *)
Record Session := { session_id : nat; session_truthy : bool }.

(** A [zeep.cache.Base]: a [SqliteCache], which is true as every object of
    a class without [__bool__] and [__len__], or any other cache object
    handed to the constructor, with its truth value. *)
Inductive Cache :=
| SqliteCache (id : nat) (timeout : Z)
| OtherCache (id : nat) (truthy : bool).

(** Truth value of a cache object. *)
Definition cache_truthy (c : Cache) : bool :=
  match c with
  | SqliteCache _ _ => true
  | OtherCache _ b => b
  end.

Record Transport := {
  transport_id : nat;
  transport_session : Session;
  transport_cache : Cache
}.

Record Client := {
  client_id : nat;
  client_wsdl : string;
  client_transport : Transport
}.

(** What [client.type_factory(namespace)] returns. *)
Record Factory := {
  factory_client : Client;
  factory_ns : string
}.

Definition type_factory (c : Client) (ns : string) : Factory :=
  {| factory_client := c; factory_ns := ns |}.

(** [factory.Ty] called with keyword arguments [kw]: a compound value of
    type [Ty] of the factory's namespace. *)
Definition factory_new (f : Factory) (ty : string) (kw : list (string * value))
    : value :=
  VCompound (factory_ns f) ty kw.

(** Modelled from the spec: the [Config] class ([config.py] is not part of
    the sources): the "config holder" that "validates and stores
    account/auth credentials".  The stored values are kept as given; the
    validation is a parameter of the development ([Config_new] below). *)
Record Config := { config_values : list (string * value) }.

(** The [config] argument of the constructor: [Union[Config, Dict]]. *)
Inductive ConfigArg :=
| ConfigObj (c : Config)
| ConfigDict (d : list (string * value)).

(** Calls into collaborators, newest first on the trace. *)
Inductive Event :=
| NewSqliteCache (c : Cache)
| NewSession (s : Session)
| NewTransport (t : Transport)
| NewClient (c : Client)
| SetDefaultSoapheaders (c : Client) (headers : list (string * value))
| PassportMake (c : Client) (cfg : Config) (passport : value)
| ServiceCall (c : Client) (service_name : string) (args : list value)
    (kw : list (string * value)).

Record World := {
  next_id : nat;
  trace : list Event
}.

(** ** The instance *)

(** The entries [cached_property] has put into the instance [__dict__], and
    a ghost log [built] of the builders that have run (newest first). *)
Record Memo := {
  memo_wsdl_url : option string;
  memo_cache : option Cache;
  memo_session : option Session;
  memo_client : option Client;
  memo_transport : option Transport;
  memo_factories : gmap string Factory;
  built : list string
}.

Record NetSuite := {
  sandbox : bool;
  version : string;
  __config : Config;
  __wsdl_url : option string;
  __cache : option Cache;
  __session : option Session;
  __dict__ : Memo
}.

Definition empty_memo : Memo :=
  {| memo_wsdl_url := None; memo_cache := None; memo_session := None;
     memo_client := None; memo_transport := None; memo_factories := ∅;
     built := [] |}.

Definition with_dict (d : Memo) (ns : NetSuite) : NetSuite :=
  {| sandbox := sandbox ns; version := version ns; __config := __config ns;
     __wsdl_url := __wsdl_url ns; __cache := __cache ns;
     __session := __session ns; __dict__ := d |}.

Definition set_wsdl_url (v : string) (d : Memo) : Memo :=
  {| memo_wsdl_url := Some v; memo_cache := memo_cache d;
     memo_session := memo_session d; memo_client := memo_client d;
     memo_transport := memo_transport d; memo_factories := memo_factories d;
     built := built d |}.

Definition set_cache (v : Cache) (d : Memo) : Memo :=
  {| memo_wsdl_url := memo_wsdl_url d; memo_cache := Some v;
     memo_session := memo_session d; memo_client := memo_client d;
     memo_transport := memo_transport d; memo_factories := memo_factories d;
     built := built d |}.

Definition set_session (v : Session) (d : Memo) : Memo :=
  {| memo_wsdl_url := memo_wsdl_url d; memo_cache := memo_cache d;
     memo_session := Some v; memo_client := memo_client d;
     memo_transport := memo_transport d; memo_factories := memo_factories d;
     built := built d |}.

Definition set_client (v : Client) (d : Memo) : Memo :=
  {| memo_wsdl_url := memo_wsdl_url d; memo_cache := memo_cache d;
     memo_session := memo_session d; memo_client := Some v;
     memo_transport := memo_transport d; memo_factories := memo_factories d;
     built := built d |}.

Definition set_transport (v : Transport) (d : Memo) : Memo :=
  {| memo_wsdl_url := memo_wsdl_url d; memo_cache := memo_cache d;
     memo_session := memo_session d; memo_client := memo_client d;
     memo_transport := Some v; memo_factories := memo_factories d;
     built := built d |}.

Definition set_factory (name : string) (v : Factory) (d : Memo) : Memo :=
  {| memo_wsdl_url := memo_wsdl_url d; memo_cache := memo_cache d;
     memo_session := memo_session d; memo_client := memo_client d;
     memo_transport := memo_transport d;
     memo_factories := <[name := v]> (memo_factories d);
     built := built d |}.

Definition log_built (name : string) (d : Memo) : Memo :=
  {| memo_wsdl_url := memo_wsdl_url d; memo_cache := memo_cache d;
     memo_session := memo_session d; memo_client := memo_client d;
     memo_transport := memo_transport d; memo_factories := memo_factories d;
     built := name :: built d |}.

(** The instance after [name] has been built and its entry written by
    [write]. *)
Definition store (name : string) (write : Memo -> Memo) (ns : NetSuite)
    : NetSuite :=
  with_dict (log_built name (write (__dict__ ns))) ns.

(** ** The monad of methods: instance and world threaded, exceptions *)

Record St := { self : NetSuite; world : World }.

Definition M (A : Type) : Type := St -> res A * St.

Definition ret {A} (a : A) : M A := fun st => (Ok a, st).

Definition raise {A} (e : exn) : M A := fun st => (Err e, st).

Definition bind {A B} (m : M A) (k : A -> M B) : M B :=
  fun st =>
    match m st with
    | (Ok a, st') => k a st'
    | (Err e, st') => (Err e, st')
    end.

Notation "x <- m ;; k" := (bind m (fun x => k))
  (at level 100, m at next level, right associativity).
Notation "m ;;; k" := (bind m (fun _ => k))
  (at level 100, right associativity).

Definition lift {A} (r : res A) : M A := fun st => (r, st).

(** [assert b] *)
Definition assert_ (b : bool) : M unit :=
  if b then ret tt else raise AssertionError.

(** [[f(x) for x in xs]] where [f] is a method call. *)
Fixpoint for_in {A B} (f : A -> M B) (xs : list A) : M (list B) :=
  match xs with
  | [] => ret []
  | x :: xs' => y <- f x ;; ys <- for_in f xs' ;; ret (y :: ys)
  end.

(** [x or alt()] for an optional argument [x]: [None] and false values give
    way to [alt]. *)
Definition or_else {A} (truthy : A -> bool) (x : option A) (alt : M A) : M A :=
  match x with
  | Some a => if truthy a then ret a else alt
  | None => alt
  end.

Definition get_self : M NetSuite := fun st => (Ok (self st), st).

Definition fresh : M nat :=
  fun st =>
    (Ok (next_id (world st)),
     {| self := self st;
        world := {| next_id := S (next_id (world st));
                    trace := trace (world st) |} |}).

Definition emit (e : Event) : M unit :=
  fun st =>
    (Ok tt,
     {| self := self st;
        world := {| next_id := next_id (world st);
                    trace := e :: trace (world st) |} |}).

(** The state after a collaborator has issued one identity and recorded
    [e]. *)
Definition after (e : Event) (st : St) : St :=
  {| self := self st;
     world := {| next_id := S (next_id (world st));
                 trace := e :: trace (world st) |} |}.

(** The state after [e] has been recorded. *)
Definition recorded (e : Event) (st : St) : St :=
  {| self := self st;
     world := {| next_id := next_id (world st);
                 trace := e :: trace (world st) |} |}.

(** Modelled from the spec: [cached_property] of [util.py] (not part of the
    sources): "lazily construct and memoize ... exactly once per instance".
    A read returns the entry of the instance [__dict__] when there is one;
    otherwise it runs the builder, stores the result under the name of the
    property and returns it.  [get] and [set] are the typed view of the
    entry. *)
Definition cached_property {A} (name : string) (get : Memo -> option A)
    (set : A -> Memo -> Memo) (builder : M A) : M A :=
  fun st =>
    match get (__dict__ (self st)) with
    | Some v => (Ok v, st)
    | None =>
        match builder st with
        | (Ok v, st') =>
            (Ok v, {| self := store name (set v) (self st');
                      world := world st' |})
        | (Err e, st') => (Err e, st')
        end
    end.

(** ** Collaborators *)

(** [SqliteCache(timeout=t)] *)
Definition SqliteCache_new (timeout : Z) : M Cache :=
  id <- fresh ;;
  let c := SqliteCache id timeout in
  emit (NewSqliteCache c) ;;;
  ret c.

(** [requests.Session()] *)
Definition Session_new : M Session :=
  id <- fresh ;;
  let s := {| session_id := id; session_truthy := true |} in
  emit (NewSession s) ;;;
  ret s.

(** [zeep.transports.Transport(session=s, cache=c)] *)
Definition Transport_new (s : Session) (c : Cache) : M Transport :=
  id <- fresh ;;
  let t := {| transport_id := id; transport_session := s;
              transport_cache := c |} in
  emit (NewTransport t) ;;;
  ret t.

(** [zeep.Client(wsdl, transport=t)] *)
Definition Client_new (wsdl : string) (t : Transport) : M Client :=
  id <- fresh ;;
  let c := {| client_id := id; client_wsdl := wsdl; client_transport := t |} in
  emit (NewClient c) ;;;
  ret c.

(** [client.set_default_soapheaders(headers)] *)
Definition set_default_soapheaders (c : Client)
    (headers : list (string * value)) : M unit :=
  emit (SetDefaultSoapheaders c headers).

(** [passport.make(client, config)]: the signed header structure, a new
    object at every call. *)
Definition passport_make (c : Client) (cfg : Config) : M value :=
  id <- fresh ;;
  let p := VOpaque id in
  emit (PassportMake c cfg p) ;;;
  ret p.

(** Sample collaborators for the examples: a validation that accepts every
    dictionary, and a server that answers every call with one record. *)
Definition sample_Config_new (d : list (string * value)) : res Config :=
  Ok {| config_values := d |}.

Definition sample_response : value :=
  VCompound "" "Response"
    [("body",
      VCompound "" "Body"
        [("readResponseList",
          VCompound "" "ReadResponseList"
            [("readResponse",
              VList [VCompound "" "ReadResponse"
                       [("record", VStr "record-1")]])])])].

Definition sample_respond (t : list Event) : res value := Ok sample_response.

(** A WSDL that defines [get] besides the operations the class calls. *)
Definition sample_ops (name : string) : bool := String.eqb name "get".

Definition sample_world : World := {| next_id := 0; trace := [] |}.

(** The instance [NetSuite({})] of the sample configuration. *)
Definition sample_instance : NetSuite :=
  {| sandbox := true; version := "2017.2.0";
     __config := {| config_values := [] |};
     __wsdl_url := None; __cache := None; __session := None;
     __dict__ := empty_memo |}.

Definition sample_state : St :=
  {| self := sample_instance; world := sample_world |}.

(** [NetSuite({}, sandbox=False, version='2020.1.0')] *)
Definition production_instance : NetSuite :=
  {| sandbox := false; version := "2020.1.0";
     __config := {| config_values := [] |};
     __wsdl_url := None; __cache := None; __session := None;
     __dict__ := empty_memo |}.

(** [NetSuite({}, wsdl_url=url)] *)
Definition override_instance (url : string) : NetSuite :=
  {| sandbox := true; version := "2017.2.0";
     __config := {| config_values := [] |};
     __wsdl_url := Some url; __cache := None; __session := None;
     __dict__ := empty_memo |}.

Section NetSuite.

(** [Config] called on the values of a dictionary: the validation of
    [config.py]. *)
Variable Config_new : list (string * value) -> res Config.

(** The answer of the service proxy to the call on top of the trace: a
    response, or the exception the engine raises. *)
Variable respond : list Event -> res value.

(** Whether the WSDL defines an operation of this name, for the names the
    class does not call itself. *)
Variable operations : string -> bool.

(** The operations of the service proxy: [getList] and
    [getItemAvailability], which the WSDL of NetSuite defines, and what else
    the WSDL defines. *)
Definition has_operation (name : string) : bool :=
  String.eqb name "getList" || String.eqb name "getItemAvailability"
  || operations name.

(** [getattr(proxy, name)] on the service proxy: the operation, bound to
    its proxy, and [AttributeError] for a name the WSDL does not define. *)
Definition getattr_operation (proxy : Client) (name : string)
    : M (Client * string) :=
  if has_operation name then ret (proxy, name) else raise AttributeError.

(** The operation [name] of [client.service] called with [args] and [kw]. *)
Definition service_call (c : Client) (name : string) (args : list value)
    (kw : list (string * value)) : M value :=
  emit (ServiceCall c name args kw) ;;;
  fun st => (respond (trace (world st)), st).

(** *** [WebServiceCall] *)

(** The loop [for part in parts: response = getattr(response, part)]. *)
Fixpoint getattr_path (response : value) (parts : list string) : res value :=
  match parts with
  | [] => Ok response
  | part :: parts' =>
      res_bind (getattr response part) (fun r => getattr_path r parts')
  end.

Definition WebServiceCall {Args} (path : option string)
    (extract : option (value -> M value)) (fn : Args -> M value)
    : Args -> M value :=
  fun args =>
    response <- fn args ;;
    response <- match path with
                | Some p => lift (getattr_path response (split "." p))
                | None => ret response
                end ;;
    response <- match extract with
                | Some e => e response
                | None => ret response
                end ;;
    ret response.

(** *** class [NetSuite] *)

Definition class_sandbox : bool := true.
Definition class_version : string := "2017.2.0".
Definition wsdl_url_tmpl : string :=
  "https://webservices.{subpath}netsuite.com/wsdl/v{underscored_version}/netsuite.wsdl".

Definition _make_config (values_obj : ConfigArg) : res Config :=
  match values_obj with
  | ConfigObj c => Ok c
  | ConfigDict d => Config_new d
  end.

Definition __init__ (config : ConfigArg) (sandbox : option bool)
    (version : option string) (wsdl_url : option string)
    (cache : option Cache) (session : option Session) : res NetSuite :=
  let self_sandbox :=
    match sandbox with
    | Some b => b
    | None => class_sandbox
    end in
  res_bind
    match version with
    | Some v => if re_match version_re v then Ok v else Err AssertionError
    | None => Ok class_version
    end
    (fun self_version =>
  res_bind (_make_config config) (fun cfg =>
  Ok {| sandbox := self_sandbox; version := self_version; __config := cfg;
        __wsdl_url := wsdl_url; __cache := cache; __session := session;
        __dict__ := empty_memo |})).

Definition config : M Config := ns <- get_self ;; ret (__config ns).

Definition underscored_version (ns : NetSuite) : string :=
  str_replace "." "_" (version ns).

Definition underscored_version_no_micro (ns : NetSuite) : string :=
  (rpartition "_" (underscored_version ns)).1.1.

Definition _generate_wsdl_url : M string :=
  ns <- get_self ;;
  lift (format wsdl_url_tmpl
          [("underscored_version", underscored_version ns);
           ("subpath", if sandbox ns then "sandbox." else "")]).

Definition _generate_cache : M Cache :=
  SqliteCache_new (60 * 60 * 24 * 365).

Definition _generate_session : M Session := Session_new.

Definition wsdl_url : M string :=
  cached_property "wsdl_url" memo_wsdl_url set_wsdl_url
    (ns <- get_self ;; or_else str_truthy (__wsdl_url ns) _generate_wsdl_url).

Definition cache : M Cache :=
  cached_property "cache" memo_cache set_cache
    (ns <- get_self ;; or_else cache_truthy (__cache ns) _generate_cache).

Definition session : M Session :=
  cached_property "session" memo_session set_session
    (ns <- get_self ;;
     or_else session_truthy (__session ns) _generate_session).

Definition _generate_transport : M Transport :=
  s <- session ;;
  c <- cache ;;
  Transport_new s c.

Definition transport : M Transport :=
  cached_property "transport" memo_transport set_transport _generate_transport.

Definition _set_default_soapheaders (c : Client) : M unit :=
  set_default_soapheaders c [].

Definition _generate_client : M Client :=
  url <- wsdl_url ;;
  t <- transport ;;
  c <- Client_new url t ;;
  _set_default_soapheaders c ;;;
  ret c.

Definition client : M Client :=
  cached_property "client" memo_client set_client _generate_client.

(** The getter of [hostname].  Its value depends on the instance through
    [wsdl_url] alone, whose entry never changes once it is stored; the entry
    [cached_property] keeps for [hostname] itself is not represented, and a
    read computes the value again. *)
Definition hostname : M string :=
  url <- wsdl_url ;;
  ret (partition "/" (replace "https://" "" url)).1.1.

(** [f'<NetSuite {self.hostname}({self.version})>'] *)
Definition __repr__ : M string :=
  h <- hostname ;;
  ns <- get_self ;;
  ret ("<NetSuite " +:+ h +:+ "(" +:+ version ns +:+ ")>").

(** [self.client.service]; the proxy is addressed through its client. *)
Definition service : M Client := client.

Definition generate_passport : M value :=
  c <- client ;;
  cfg <- config ;;
  passport_make c cfg.

Definition _get_namespace (name sub_namespace : string) : M string :=
  ns <- get_self ;;
  lift (format "urn:{name}_{version}.{sub_namespace}.webservices.netsuite.com"
          [("name", name);
           ("version", underscored_version_no_micro ns);
           ("sub_namespace", sub_namespace)]).

Definition _type_factory (name sub_namespace : string) : M Factory :=
  c <- client ;;
  ns <- _get_namespace name sub_namespace ;;
  ret (type_factory c ns).

(** A [cached_property] whose value is a type factory: the entry of the
    instance [__dict__] under the name of the property. *)
Definition cached_factory (name : string) (builder : M Factory) : M Factory :=
  cached_property name (fun d => memo_factories d !! name) (set_factory name)
    builder.

Definition Core := cached_factory "Core" (_type_factory "core" "platform").
Definition CoreTypes := cached_factory "CoreTypes" (_type_factory "types.core" "platform").
Definition FaultsTypes := cached_factory "FaultsTypes" (_type_factory "types.faults" "platform").
Definition Faults := cached_factory "Faults" (_type_factory "faults" "platform").
Definition Messages := cached_factory "Messages" (_type_factory "messages" "platform").
Definition Common := cached_factory "Common" (_type_factory "common" "platform").
Definition CommonTypes := cached_factory "CommonTypes" (_type_factory "types.common" "platform").
Definition Scheduling := cached_factory "Scheduling" (_type_factory "scheduling" "activities").
Definition SchedulingTypes := cached_factory "SchedulingTypes" (_type_factory "types.scheduling" "activities").
Definition Communication := cached_factory "Communication" (_type_factory "communication" "general").
Definition CommunicationTypes := cached_factory "CommunicationTypes" (_type_factory "types.communication" "general").
Definition Filecabinet := cached_factory "Filecabinet" (_type_factory "filecabinet" "documents").
Definition FilecabinetTypes := cached_factory "FilecabinetTypes" (_type_factory "types.filecabinet" "documents").
Definition Relationships := cached_factory "Relationships" (_type_factory "relationships" "lists").
Definition RelationshipsTypes := cached_factory "RelationshipsTypes" (_type_factory "types.relationships" "lists").
Definition Support := cached_factory "Support" (_type_factory "support" "lists").
Definition SupportTypes := cached_factory "SupportTypes" (_type_factory "types.support" "lists").
Definition Accounting := cached_factory "Accounting" (_type_factory "accounting" "lists").
Definition AccountingTypes := cached_factory "AccountingTypes" (_type_factory "types.accounting" "lists").
Definition Sales := cached_factory "Sales" (_type_factory "sales" "transactions").
Definition SalesTypes := cached_factory "SalesTypes" (_type_factory "types.sales" "transactions").
Definition Purchases := cached_factory "Purchases" (_type_factory "purchases" "transactions").
Definition PurchasesTypes := cached_factory "PurchasesTypes" (_type_factory "types.purchases" "transactions").
Definition Customers := cached_factory "Customers" (_type_factory "customers" "transactions").
Definition CustomersTypes := cached_factory "CustomersTypes" (_type_factory "types.customers" "transactions").
Definition Financial := cached_factory "Financial" (_type_factory "financial" "transactions").
Definition FinancialTypes := cached_factory "FinancialTypes" (_type_factory "types.financial" "transactions").
Definition Bank := cached_factory "Bank" (_type_factory "bank" "transactions").
Definition BankTypes := cached_factory "BankTypes" (_type_factory "types.bank" "transactions").
Definition Inventory := cached_factory "Inventory" (_type_factory "inventory" "transactions").
Definition InventoryTypes := cached_factory "InventoryTypes" (_type_factory "types.inventory" "transactions").
Definition General := cached_factory "General" (_type_factory "general" "transactions").
Definition Customization := cached_factory "Customization" (_type_factory "customization" "setup").
Definition CustomizationTypes := cached_factory "CustomizationTypes" (_type_factory "types.customization" "setup").
Definition Employees := cached_factory "Employees" (_type_factory "employees" "lists").
Definition EmployeesTypes := cached_factory "EmployeesTypes" (_type_factory "types.employees" "lists").
Definition Website := cached_factory "Website" (_type_factory "website" "lists").
Definition WebsiteTypes := cached_factory "WebsiteTypes" (_type_factory "types.website" "lists").
Definition EmployeesTransactions := cached_factory "EmployeesTransactions" (_type_factory "employees" "transactions").
Definition EmployeesTransactionsTypes := cached_factory "EmployeesTransactionsTypes" (_type_factory "types.employees" "transactions").
Definition Marketing := cached_factory "Marketing" (_type_factory "marketing" "lists").
Definition MarketingTypes := cached_factory "MarketingTypes" (_type_factory "types.marketing" "lists").
Definition DemandPlanning := cached_factory "DemandPlanning" (_type_factory "demandplanning" "transactions").
Definition DemandPlanningTypes := cached_factory "DemandPlanningTypes" (_type_factory "types.demandplanning" "transactions").
Definition SupplyChain := cached_factory "SupplyChain" (_type_factory "supplychain" "lists").
Definition SupplyChainTypes := cached_factory "SupplyChainTypes" (_type_factory "types.supplychain" "lists").

(** The operation is looked up on the service proxy first; then comes the
    call of [svc] with [args], [_soapheaders=self.generate_passport()] and
    the unpacked [kw]: the passport is made before the keywords of [kw] are
    merged in. *)
Definition request (service_name : string) (args : list value)
    (kw : list (string * value)) : M value :=
  proxy <- service ;;
  svc <- getattr_operation proxy service_name ;;
  passport <- generate_passport ;;
  kwargs <- lift (merge_kwargs [("_soapheaders", passport)] kw) ;;
  service_call svc.1 svc.2 args kwargs.

(** [lambda resp: [r['record'] for r in resp]] *)
Definition getList_extract (resp : value) : M value :=
  lift (res_bind (iter resp) (fun rs =>
        res_bind (res_map (fun r => getitem r "record") rs) (fun records =>
        Ok (VList records)))).

(** The body of [getList], before decoration. *)
Definition getList_fn (a : string * list Z * list string) : M value :=
  let '(recordType, internalIds, externalIds) := a in
  assert_ (seq_truthy internalIds || seq_truthy externalIds) ;;;
  messages <- Messages ;;
  by_internal <- for_in (fun internalId =>
                   core <- Core ;;
                   ret (factory_new core "RecordRef"
                          [("type", VStr recordType);
                           ("internalId", VInt internalId)]))
                 internalIds ;;
  by_external <- for_in (fun externalId =>
                   core <- Core ;;
                   ret (factory_new core "RecordRef"
                          [("type", VStr recordType);
                           ("externalId", VStr externalId)]))
                 externalIds ;;
  request "getList"
    [factory_new messages "GetListRequest"
       [("baseRef", VList (by_internal ++ by_external))]]
    [].

Definition getList (recordType : string) (internalIds : list Z)
    (externalIds : list string) : M value :=
  WebServiceCall (Some "body.readResponseList.readResponse")
    (Some getList_extract) getList_fn (recordType, internalIds, externalIds).

(** The body of [getItemAvailability], before decoration. *)
Definition getItemAvailability_fn (a : list Z * list string) : M value :=
  let '(internalIds, externalIds) := a in
  assert_ (seq_truthy internalIds || seq_truthy externalIds) ;;;
  request "getItemAvailability" []
    [("itemAvailabilityFilter",
      VDict
        [("item",
          VList
            (map (fun internalId =>
                    VDict [("recordRef",
                            VDict [("type", VStr "inventoryItem");
                                   ("internalId", VInt internalId)])])
               internalIds
             ++
             map (fun externalId =>
                    VDict [("recordRef",
                            VDict [("type", VStr "inventoryItem");
                                   ("externalId", VStr externalId)])])
               externalIds))])].

Definition getItemAvailability (internalIds : list Z)
    (externalIds : list string) : M value :=
  WebServiceCall
    (Some "body.getItemAvailabilityResult.itemAvailabilityList.itemAvailability")
    None getItemAvailability_fn (internalIds, externalIds).

(** *** The registry of namespace accessors *)

Inductive factory_property :=
| P_Core | P_CoreTypes | P_FaultsTypes | P_Faults | P_Messages | P_Common
| P_CommonTypes | P_Scheduling | P_SchedulingTypes | P_Communication
| P_CommunicationTypes | P_Filecabinet | P_FilecabinetTypes | P_Relationships
| P_RelationshipsTypes | P_Support | P_SupportTypes | P_Accounting
| P_AccountingTypes | P_Sales | P_SalesTypes | P_Purchases | P_PurchasesTypes
| P_Customers | P_CustomersTypes | P_Financial | P_FinancialTypes | P_Bank
| P_BankTypes | P_Inventory | P_InventoryTypes | P_General | P_Customization
| P_CustomizationTypes | P_Employees | P_EmployeesTypes | P_Website
| P_WebsiteTypes | P_EmployeesTransactions | P_EmployeesTransactionsTypes
| P_Marketing | P_MarketingTypes | P_DemandPlanning | P_DemandPlanningTypes
| P_SupplyChain | P_SupplyChainTypes.

(** The accessor behind each name of the registry. *)
Definition property_get (p : factory_property) : M Factory :=
  match p with
  | P_Core => Core | P_CoreTypes => CoreTypes | P_FaultsTypes => FaultsTypes
  | P_Faults => Faults | P_Messages => Messages | P_Common => Common
  | P_CommonTypes => CommonTypes | P_Scheduling => Scheduling
  | P_SchedulingTypes => SchedulingTypes | P_Communication => Communication
  | P_CommunicationTypes => CommunicationTypes | P_Filecabinet => Filecabinet
  | P_FilecabinetTypes => FilecabinetTypes | P_Relationships => Relationships
  | P_RelationshipsTypes => RelationshipsTypes | P_Support => Support
  | P_SupportTypes => SupportTypes | P_Accounting => Accounting
  | P_AccountingTypes => AccountingTypes | P_Sales => Sales
  | P_SalesTypes => SalesTypes | P_Purchases => Purchases
  | P_PurchasesTypes => PurchasesTypes | P_Customers => Customers
  | P_CustomersTypes => CustomersTypes | P_Financial => Financial
  | P_FinancialTypes => FinancialTypes | P_Bank => Bank
  | P_BankTypes => BankTypes | P_Inventory => Inventory
  | P_InventoryTypes => InventoryTypes | P_General => General
  | P_Customization => Customization
  | P_CustomizationTypes => CustomizationTypes | P_Employees => Employees
  | P_EmployeesTypes => EmployeesTypes | P_Website => Website
  | P_WebsiteTypes => WebsiteTypes
  | P_EmployeesTransactions => EmployeesTransactions
  | P_EmployeesTransactionsTypes => EmployeesTransactionsTypes
  | P_Marketing => Marketing | P_MarketingTypes => MarketingTypes
  | P_DemandPlanning => DemandPlanning
  | P_DemandPlanningTypes => DemandPlanningTypes
  | P_SupplyChain => SupplyChain | P_SupplyChainTypes => SupplyChainTypes
  end.

(** The name under which each accessor is stored in the instance. *)
Definition property_name (p : factory_property) : string :=
  match p with
  | P_Core => "Core" | P_CoreTypes => "CoreTypes"
  | P_FaultsTypes => "FaultsTypes" | P_Faults => "Faults"
  | P_Messages => "Messages" | P_Common => "Common"
  | P_CommonTypes => "CommonTypes" | P_Scheduling => "Scheduling"
  | P_SchedulingTypes => "SchedulingTypes"
  | P_Communication => "Communication"
  | P_CommunicationTypes => "CommunicationTypes"
  | P_Filecabinet => "Filecabinet" | P_FilecabinetTypes => "FilecabinetTypes"
  | P_Relationships => "Relationships"
  | P_RelationshipsTypes => "RelationshipsTypes" | P_Support => "Support"
  | P_SupportTypes => "SupportTypes" | P_Accounting => "Accounting"
  | P_AccountingTypes => "AccountingTypes" | P_Sales => "Sales"
  | P_SalesTypes => "SalesTypes" | P_Purchases => "Purchases"
  | P_PurchasesTypes => "PurchasesTypes" | P_Customers => "Customers"
  | P_CustomersTypes => "CustomersTypes" | P_Financial => "Financial"
  | P_FinancialTypes => "FinancialTypes" | P_Bank => "Bank"
  | P_BankTypes => "BankTypes" | P_Inventory => "Inventory"
  | P_InventoryTypes => "InventoryTypes" | P_General => "General"
  | P_Customization => "Customization"
  | P_CustomizationTypes => "CustomizationTypes" | P_Employees => "Employees"
  | P_EmployeesTypes => "EmployeesTypes" | P_Website => "Website"
  | P_WebsiteTypes => "WebsiteTypes"
  | P_EmployeesTransactions => "EmployeesTransactions"
  | P_EmployeesTransactionsTypes => "EmployeesTransactionsTypes"
  | P_Marketing => "Marketing" | P_MarketingTypes => "MarketingTypes"
  | P_DemandPlanning => "DemandPlanning"
  | P_DemandPlanningTypes => "DemandPlanningTypes"
  | P_SupplyChain => "SupplyChain" | P_SupplyChainTypes => "SupplyChainTypes"
  end.

(** The fixed [(name, sub_namespace)] pair of each accessor. *)
Definition property_pair (p : factory_property) : string * string :=
  match p with
  | P_Core => ("core", "platform")
  | P_CoreTypes => ("types.core", "platform")
  | P_FaultsTypes => ("types.faults", "platform")
  | P_Faults => ("faults", "platform")
  | P_Messages => ("messages", "platform")
  | P_Common => ("common", "platform")
  | P_CommonTypes => ("types.common", "platform")
  | P_Scheduling => ("scheduling", "activities")
  | P_SchedulingTypes => ("types.scheduling", "activities")
  | P_Communication => ("communication", "general")
  | P_CommunicationTypes => ("types.communication", "general")
  | P_Filecabinet => ("filecabinet", "documents")
  | P_FilecabinetTypes => ("types.filecabinet", "documents")
  | P_Relationships => ("relationships", "lists")
  | P_RelationshipsTypes => ("types.relationships", "lists")
  | P_Support => ("support", "lists")
  | P_SupportTypes => ("types.support", "lists")
  | P_Accounting => ("accounting", "lists")
  | P_AccountingTypes => ("types.accounting", "lists")
  | P_Sales => ("sales", "transactions")
  | P_SalesTypes => ("types.sales", "transactions")
  | P_Purchases => ("purchases", "transactions")
  | P_PurchasesTypes => ("types.purchases", "transactions")
  | P_Customers => ("customers", "transactions")
  | P_CustomersTypes => ("types.customers", "transactions")
  | P_Financial => ("financial", "transactions")
  | P_FinancialTypes => ("types.financial", "transactions")
  | P_Bank => ("bank", "transactions")
  | P_BankTypes => ("types.bank", "transactions")
  | P_Inventory => ("inventory", "transactions")
  | P_InventoryTypes => ("types.inventory", "transactions")
  | P_General => ("general", "transactions")
  | P_Customization => ("customization", "setup")
  | P_CustomizationTypes => ("types.customization", "setup")
  | P_Employees => ("employees", "lists")
  | P_EmployeesTypes => ("types.employees", "lists")
  | P_Website => ("website", "lists")
  | P_WebsiteTypes => ("types.website", "lists")
  | P_EmployeesTransactions => ("employees", "transactions")
  | P_EmployeesTransactionsTypes => ("types.employees", "transactions")
  | P_Marketing => ("marketing", "lists")
  | P_MarketingTypes => ("types.marketing", "lists")
  | P_DemandPlanning => ("demandplanning", "transactions")
  | P_DemandPlanningTypes => ("types.demandplanning", "transactions")
  | P_SupplyChain => ("supplychain", "lists")
  | P_SupplyChainTypes => ("types.supplychain", "lists")
  end.

(** *** Uses of an instance *)

(** The cached accessors, and what a read of one returns. *)
Inductive cached :=
| C_wsdl_url | C_cache | C_session | C_client | C_transport
| C_factory (p : factory_property).

Inductive attr :=
| A_str (s : string)
| A_cache (c : Cache)
| A_session (s : Session)
| A_client (c : Client)
| A_transport (t : Transport)
| A_factory (f : Factory).

Definition cached_name (a : cached) : string :=
  match a with
  | C_wsdl_url => "wsdl_url"
  | C_cache => "cache"
  | C_session => "session"
  | C_client => "client"
  | C_transport => "transport"
  | C_factory p => property_name p
  end.

Definition read (a : cached) : M attr :=
  match a with
  | C_wsdl_url => v <- wsdl_url ;; ret (A_str v)
  | C_cache => v <- cache ;; ret (A_cache v)
  | C_session => v <- session ;; ret (A_session v)
  | C_client => v <- client ;; ret (A_client v)
  | C_transport => v <- transport ;; ret (A_transport v)
  | C_factory p => v <- property_get p ;; ret (A_factory v)
  end.

(** What a caller can do with an instance. *)
Inductive op :=
| Read (a : cached)
| GeneratePassport
| Request (service_name : string) (args : list value)
    (kw : list (string * value))
| GetList (recordType : string) (internalIds : list Z)
    (externalIds : list string)
| GetItemAvailability (internalIds : list Z) (externalIds : list string).

(** The state an operation leaves, whether it returns or raises. *)
Definition run_op (o : op) (st : St) : St :=
  match o with
  | Read a => (read a st).2
  | GeneratePassport => (generate_passport st).2
  | Request n args kw => (request n args kw st).2
  | GetList rt ii ee => (getList rt ii ee st).2
  | GetItemAvailability ii ee => (getItemAvailability ii ee st).2
  end.

Definition run_ops (os : list op) (st : St) : St :=
  fold_left (fun s o => run_op o s) os st.

(** The states of an instance [ns0] as the constructor returned it, in any
    world, after any sequence of uses. *)
Inductive reachable (ns0 : NetSuite) : St -> Prop :=
| reach_init (w : World) : reachable ns0 {| self := ns0; world := w |}
| reach_step (st : St) (o : op) :
    reachable ns0 st -> reachable ns0 (run_op o st).

(** ** Specification-side definitions *)

(** The language of a regular expression. *)
Inductive matches : regex -> string -> Prop :=
| m_eps : matches Eps ""
| m_chr c : matches (Chr c) (String c "")
| m_rng lo hi c : in_range lo hi c = true -> matches (Rng lo hi) (String c "")
| m_cat r1 r2 s1 s2 :
    matches r1 s1 -> matches r2 s2 -> matches (Cat r1 r2) (s1 +:+ s2)
| m_alt_l r1 r2 s : matches r1 s -> matches (Alt r1 r2) s
| m_alt_r r1 r2 s : matches r2 s -> matches (Alt r1 r2) s
| m_star_nil r : matches (Star r) ""
| m_star_cons r s1 s2 :
    matches r s1 -> matches (Star r) s2 -> matches (Star r) (s1 +:+ s2).

(** The decimal digits of Unicode 14.0 (general category [Nd]), as ranges
    of code points: what [str.isdecimal] is true of. *)
Definition decimal_ranges : list (N * N) :=
  Eval cbv in
  [(48, 57); (1632, 1641); (1776, 1785); (1984, 1993); (2406, 2415);
   (2534, 2543); (2662, 2671); (2790, 2799); (2918, 2927); (3046, 3055);
   (3174, 3183); (3302, 3311); (3430, 3439); (3558, 3567); (3664, 3673);
   (3792, 3801); (3872, 3881); (4160, 4169); (4240, 4249); (6112, 6121);
   (6160, 6169); (6470, 6479); (6608, 6617); (6784, 6793); (6800, 6809);
   (6992, 7001); (7088, 7097); (7232, 7241); (7248, 7257); (42528, 42537);
   (43216, 43225); (43264, 43273); (43472, 43481); (43504, 43513);
   (43600, 43609); (44016, 44025); (65296, 65305); (66720, 66729);
   (68912, 68921); (69734, 69743); (69872, 69881); (69942, 69951);
   (70096, 70105); (70384, 70393); (70736, 70745); (70864, 70873);
   (71248, 71257); (71360, 71369); (71472, 71481); (71904, 71913);
   (72016, 72025); (72784, 72793); (73040, 73049); (73120, 73129);
   (92768, 92777); (92864, 92873); (93008, 93017); (120782, 120831);
   (123200, 123209); (123632, 123641); (125264, 125273); (130032, 130041)]%N.

Definition decimal (cp : N) : bool :=
  existsb (fun r => ((r.1 <=? cp) && (cp <=? r.2))%N) decimal_ranges.

(** The code points from [lo] to [hi]. *)
Definition code_points (lo hi : N) : list N :=
  map N.of_nat (seq (N.to_nat lo) (N.to_nat (hi + 1 - lo))).

Definition all_decimal : list N :=
  flat_map (fun r => code_points r.1 r.2) decimal_ranges.

(** The UTF-8 encoding of a code point. *)
Definition utf8 (cp : N) : string :=
  (if cp <? 128 then String (byte cp) ""
   else if cp <? 2048 then
     String (byte (192 + cp / 64)) (String (byte (128 + cp mod 64)) "")
   else if cp <? 65536 then
     String (byte (224 + cp / 4096))
       (String (byte (128 + cp / 64 mod 64))
          (String (byte (128 + cp mod 64)) ""))
   else
     String (byte (240 + cp / 262144))
       (String (byte (128 + cp / 4096 mod 64))
          (String (byte (128 + cp / 64 mod 64))
             (String (byte (128 + cp mod 64)) ""))))%N.

(** The UTF-8 encoding of a [str], given by its code points. *)
Fixpoint encode (cps : list N) : string :=
  match cps with
  | [] => ""
  | cp :: cps' => utf8 cp +:+ encode cps'
  end.

(** The encoding of a non-empty run of decimal digits. *)
Definition digits (s : string) : Prop :=
  exists cps, cps <> [] /\ forallb decimal cps = true /\ s = encode cps.

(** The encodings a run of [digit_bytes] stands for. *)
Definition run_strings (run : list N * N * N) : list string :=
  let '(front, lo, hi) := run in
  map (fun b => fold_right (fun a s => String (byte a) s)
                  (String (byte b) "") front)
    (code_points lo hi).

(** "begins with a prefix matching digits '.' digits '.' digits" *)
Definition version_shape (v : string) : Prop :=
  exists a b c rest,
    v = a +:+ "." +:+ b +:+ "." +:+ c +:+ rest
    /\ digits a /\ digits b /\ digits c.

(** [sep.join(parts)] *)
Fixpoint join (sep : string) (parts : list string) : string :=
  match parts with
  | [] => ""
  | x :: parts' =>
      match parts' with
      | [] => x
      | _ :: _ => x +:+ sep +:+ join sep parts'
      end
  end.

(** "[v] with every '.' replaced by '_'" *)
Fixpoint dots_to_underscores (v : string) : string :=
  match v with
  | EmptyString => EmptyString
  | String c v' =>
      String (if Ascii.eqb c "." then "_"%char else c) (dots_to_underscores v')
  end.

(** [sub in s] *)
Definition contains (sub s : string) : Prop :=
  exists pre post, s = pre +:+ sub +:+ post.

(** The version with its last underscore-separated component dropped. *)
Definition no_micro (underscored : string) : string :=
  join "_" (removelast (split "_" underscored)).

(** The URL the endpoint resolver derives from the sandbox flag and the
    version. *)
Definition expected_wsdl_url (s : bool) (v : string) : string :=
  "https://webservices." +:+ (if s then "sandbox." else "")
  +:+ "netsuite.com/wsdl/v" +:+ str_replace "." "_" v +:+ "/netsuite.wsdl".

(** The URN of a namespace. *)
Definition expected_urn (name V sub_namespace : string) : string :=
  "urn:" +:+ name +:+ "_" +:+ V +:+ "." +:+ sub_namespace
  +:+ ".webservices.netsuite.com".

(** What the [wsdl_url] of an instance is, from its constructor arguments. *)
Definition the_wsdl_url (ns : NetSuite) : string :=
  match __wsdl_url ns with
  | Some u => if str_truthy u then u
              else expected_wsdl_url (sandbox ns) (version ns)
  | None => expected_wsdl_url (sandbox ns) (version ns)
  end.

Definition namespace_of (ns : NetSuite) (p : factory_property) : string :=
  expected_urn (property_pair p).1 (underscored_version_no_micro ns)
    (property_pair p).2.

(** The entry of a cached accessor in the instance [__dict__]. *)
Definition slot_of (a : cached) (d : Memo) : option attr :=
  match a with
  | C_wsdl_url => A_str <$> memo_wsdl_url d
  | C_cache => A_cache <$> memo_cache d
  | C_session => A_session <$> memo_session d
  | C_client => A_client <$> memo_client d
  | C_transport => A_transport <$> memo_transport d
  | C_factory p => A_factory <$> memo_factories d !! property_name p
  end.

(** How many times the builder of [name] has run on the instance. *)
Definition runs (name : string) (d : Memo) : nat :=
  length (filter (fun n => n = name) (built d)).

(** The [RecordRef]s and the request of [getList], in a given version. *)
Definition record_ref (V recordType key : string) (id : value) : value :=
  VCompound (expected_urn "core" V "platform") "RecordRef"
    [("type", VStr recordType); (key, id)].

Definition get_list_request (V recordType : string) (internalIds : list Z)
    (externalIds : list string) : value :=
  VCompound (expected_urn "messages" V "platform") "GetListRequest"
    [("baseRef",
      VList (map (fun i => record_ref V recordType "internalId" (VInt i))
               internalIds
             ++ map (fun e => record_ref V recordType "externalId" (VStr e))
                  externalIds))].

(** The filter of [getItemAvailability]. *)
Definition item_ref (key : string) (id : value) : value :=
  VDict [("recordRef", VDict [("type", VStr "inventoryItem"); (key, id)])].

Definition item_availability_filter (internalIds : list Z)
    (externalIds : list string) : value :=
  VDict
    [("item",
      VList (map (fun i => item_ref "internalId" (VInt i)) internalIds
             ++ map (fun e => item_ref "externalId" (VStr e)) externalIds))].

(** One year, in seconds. *)
Definition one_year : Z := 60 * 60 * 24 * 365.

(** An optional argument as [x or alt()] sees it: [None] and false values
    count as not given. *)
Definition supplied {A} (truthy : A -> bool) (x : option A) : option A :=
  match x with
  | Some a => if truthy a then Some a else None
  | None => None
  end.

(** Whether the instance [__dict__] holds an entry under [name]. *)
Definition memoized (name : string) (d : Memo) : Prop :=
  if decide (name = "wsdl_url") then is_Some (memo_wsdl_url d)
  else if decide (name = "cache") then is_Some (memo_cache d)
  else if decide (name = "session") then is_Some (memo_session d)
  else if decide (name = "client") then is_Some (memo_client d)
  else if decide (name = "transport") then is_Some (memo_transport d)
  else is_Some (memo_factories d !! name).

(** The invariant of an instance: every stored entry is the value its
    builder gives, the stored resources are the ones the stored client was
    built from, and the log lists the stored entries, each once. *)
Record wf (ns : NetSuite) : Prop := {
  wf_wsdl_url : forall u,
    memo_wsdl_url (__dict__ ns) = Some u -> u = the_wsdl_url ns;
  wf_cache : forall c,
    memo_cache (__dict__ ns) = Some c ->
    match supplied cache_truthy (__cache ns) with
    | Some c0 => c = c0
    | None => exists id, c = SqliteCache id one_year
    end;
  wf_session : forall s s0,
    memo_session (__dict__ ns) = Some s ->
    supplied session_truthy (__session ns) = Some s0 -> s = s0;
  wf_transport : forall t,
    memo_transport (__dict__ ns) = Some t ->
    memo_session (__dict__ ns) = Some (transport_session t)
    /\ memo_cache (__dict__ ns) = Some (transport_cache t);
  wf_client : forall c,
    memo_client (__dict__ ns) = Some c ->
    memo_wsdl_url (__dict__ ns) = Some (client_wsdl c)
    /\ memo_transport (__dict__ ns) = Some (client_transport c);
  wf_factories : forall name f,
    memo_factories (__dict__ ns) !! name = Some f ->
    exists p c,
      name = property_name p /\ memo_client (__dict__ ns) = Some c
      /\ f = type_factory c (namespace_of ns p);
  wf_built_once : NoDup (built (__dict__ ns));
  wf_built_memo : forall name,
    name ∈ built (__dict__ ns) <-> memoized name (__dict__ ns)
}.

(** How an instance may change under a use that runs at most the builders
    named in [names]: constructor arguments stay, stored entries stay, and
    only those builders are added to the log. *)
Record ext (names : list string) (ns ns' : NetSuite) : Prop := {
  ext_attrs : ns' = with_dict (__dict__ ns') ns;
  ext_wsdl_url : forall v,
    memo_wsdl_url (__dict__ ns) = Some v ->
    memo_wsdl_url (__dict__ ns') = Some v;
  ext_cache : forall v,
    memo_cache (__dict__ ns) = Some v -> memo_cache (__dict__ ns') = Some v;
  ext_session : forall v,
    memo_session (__dict__ ns) = Some v ->
    memo_session (__dict__ ns') = Some v;
  ext_client : forall v,
    memo_client (__dict__ ns) = Some v -> memo_client (__dict__ ns') = Some v;
  ext_transport : forall v,
    memo_transport (__dict__ ns) = Some v ->
    memo_transport (__dict__ ns') = Some v;
  ext_factories : forall name v,
    memo_factories (__dict__ ns) !! name = Some v ->
    memo_factories (__dict__ ns') !! name = Some v;
  ext_built : forall name,
    name ∈ built (__dict__ ns') ->
    name ∈ built (__dict__ ns) \/ name ∈ names
}.


(** Events of construction, as opposed to signing and service calls. *)
Definition construction (e : Event) : Prop :=
  match e with
  | PassportMake _ _ _ | ServiceCall _ _ _ _ => False
  | _ => True
  end.

(** A world that only saw collaborators being constructed. *)
Definition quiet (w w' : World) : Prop :=
  (next_id w <= next_id w')%nat
  /\ exists evs, trace w' = evs ++ trace w /\ Forall construction evs.

(** Names of the builders behind the client. *)
Definition client_names : list string :=
  ["client"; "wsdl_url"; "transport"; "session"; "cache"].

(** The builder whose object an event constructs. *)
Definition made (e : Event) : option string :=
  match e with
  | NewSqliteCache _ => Some "cache"
  | NewSession _ => Some "session"
  | NewTransport _ => Some "transport"
  | NewClient _ => Some "client"
  | _ => None
  end.

(** How many objects of the builder [name] the events construct. *)
Definition constructed (name : string) (evs : list Event) : nat :=
  length (filter (fun n => n = name) (omap made evs)).

(** The client an event is about. *)
Definition client_of (e : Event) : option Client :=
  match e with
  | NewClient c | SetDefaultSoapheaders c _ | PassportMake c _ _
  | ServiceCall c _ _ _ => Some c
  | _ => None
  end.

(** What an instance with the constructor arguments of [ns] asks of its
    collaborators: a cache or a session of its own only when none that is
    true was given, a client for its WSDL URL, no default headers, passports
    for its config. *)
Definition allowed (ns : NetSuite) (e : Event) : Prop :=
  match e with
  | NewSqliteCache c =>
      supplied cache_truthy (__cache ns) = None
      /\ exists id, c = SqliteCache id one_year
  | NewSession _ => supplied session_truthy (__session ns) = None
  | NewTransport _ => True
  | NewClient c => client_wsdl c = the_wsdl_url ns
  | SetDefaultSoapheaders _ headers => headers = []
  | PassportMake _ cfg _ => cfg = __config ns
  | ServiceCall _ _ _ _ => True
  end.

Definition is_call (e : Event) : bool :=
  match e with
  | ServiceCall _ _ _ _ => true
  | _ => false
  end.

(** Events, newest first, in which every service call comes right after
    the making of a passport for the same client, and carries that passport
    as its [_soapheaders]. *)
Inductive signed : list Event -> Prop :=
| signed_nil : signed []
| signed_call c name args kw cfg p rest :
    assoc "_soapheaders" kw = Some p -> signed rest ->
    signed (ServiceCall c name args kw :: PassportMake c cfg p :: rest)
| signed_other e rest :
    is_call e = false -> signed rest -> signed (e :: rest).

(** The events [evs] an instance made of [ns0] has added to the trace
    [base], against what the instance has stored. *)
Record linked (ns0 : NetSuite) (base evs : list Event) (st : St) : Prop := {
  linked_self : self st = with_dict (__dict__ (self st)) ns0;
  linked_trace : trace (world st) = evs ++ base;
  linked_built : sublist (omap made evs) (built (__dict__ (self st)));
  linked_allowed : Forall (allowed ns0) evs;
  linked_client : forall e c,
    e ∈ evs -> client_of e = Some c ->
    memo_client (__dict__ (self st)) = Some c;
  linked_signed : signed evs
}.

(** A computation that keeps the invariant and the link to the trace, in
    whatever state it is run and whether it returns or raises. *)
Definition preserves {A} (ns0 : NetSuite) (base : list Event) (m : M A)
    : Prop :=
  forall st evs,
    wf (self st) -> linked ns0 base evs st ->
    wf (self (m st).2) /\ exists new, linked ns0 base (new ++ evs) (m st).2.

(** [c in s] for a character. *)
Fixpoint has_char (c : ascii) (s : string) : bool :=
  match s with
  | EmptyString => false
  | String c' s' => Ascii.eqb c' c || has_char c s'
  end.

(** [s.endswith(suffix)] *)
Fixpoint endswith (suffix s : string) : bool :=
  String.eqb suffix s ||
  match s with
  | EmptyString => false
  | String _ s' => endswith suffix s'
  end.

(** The host name read off a URL. *)
Definition hostname_of (url : string) : string :=
  (partition "/" (replace "https://" "" url)).1.1.

(** * Proofs *)

(** ** Strings *)

Lemma str_app_cons (c : ascii) (s1 s2 : string) :
  String c s1 +:+ s2 = String c (s1 +:+ s2).
Proof. reflexivity. Qed.

Lemma str_app_nil_r (s : string) : s +:+ "" = s.
Proof. induction s as [|c s IH]; [reflexivity|]. by rewrite str_app_cons, IH. Qed.

Lemma str_app_assoc (s1 s2 s3 : string) : (s1 +:+ s2) +:+ s3 = s1 +:+ s2 +:+ s3.
Proof.
  induction s1 as [|c s1 IH]; [reflexivity|]. by rewrite !str_app_cons, IH.
Qed.

Lemma str_app_eq_nil (s1 s2 : string) : s1 +:+ s2 = "" -> s1 = "" /\ s2 = "".
Proof. destruct s1; [auto|]. rewrite str_app_cons. discriminate. Qed.

(** Splitting [s1 +:+ s2 = String c s]: the first character comes from
    [s1], or [s1] is empty. *)
Lemma str_app_eq_cons (s1 s2 : string) c s :
  s1 +:+ s2 = String c s ->
  (s1 = "" /\ s2 = String c s)
  \/ (exists s1', s1 = String c s1' /\ s = s1' +:+ s2).
Proof.
  destruct s1 as [|c1 s1]; intros H.
  - by left.
  - right. rewrite str_app_cons in H. injection H as -> <-. by exists s1.
Qed.

Lemma str_replace_app old new (s1 s2 : string) :
  str_replace old new (s1 +:+ s2)
  = str_replace old new s1 +:+ str_replace old new s2.
Proof.
  induction s1 as [|c s1 IH]; [reflexivity|].
  rewrite str_app_cons. cbn [str_replace].
  destruct (Ascii.eqb c old); rewrite IH; [|reflexivity].
  by rewrite str_app_assoc.
Qed.

Lemma join_cons_head sep c w ws :
  join sep (String c w :: ws) = String c (join sep (w :: ws)).
Proof. by destruct ws. Qed.

(** [rsplit1] against [split]: the head is the components but the last,
    joined again. *)
Lemma rsplit1_split sep (s : string) :
  match rsplit1 sep s with
  | Some (h, _) =>
      removelast (split sep s) <> []
      /\ join (String sep "") (removelast (split sep s)) = h
  | None => split sep s = [s]
  end.
Proof.
  induction s as [|c s IH]; [reflexivity|].
  cbn [rsplit1 split].
  destruct (rsplit1 sep s) as [[h t]|].
  - destruct IH as [Hne Hj].
    destruct (split sep s) as [|w [|w' ws]] eqn:Hs; [done|done|].
    destruct (Ascii.eqb c sep) eqn:Hc.
    + split; [done|]. apply Ascii.eqb_eq in Hc as ->.
      change (removelast ("" :: w :: w' :: ws))
        with ("" :: removelast (w :: w' :: ws)).
      unfold join at 1; fold (join (String sep "")).
      destruct (removelast (w :: w' :: ws)) eqn:Hr; [done|].
      by rewrite Hj.
    + split; [done|].
      change (removelast (String c w :: w' :: ws))
        with (String c w :: removelast (w' :: ws)).
      rewrite join_cons_head. f_equal. exact Hj.
  - rewrite IH. destruct (Ascii.eqb c sep) eqn:Hc.
    + split; [done|]. reflexivity.
    + reflexivity.
Qed.

(** [s.rpartition(sep)[0]] drops the last [sep]-separated component. *)
Lemma rpartition_head sep (s : string) :
  (rpartition sep s).1.1 = join (String sep "") (removelast (split sep s)).
Proof.
  unfold rpartition. pose proof (rsplit1_split sep s) as H.
  destruct (rsplit1 sep s) as [[h t]|].
  - by destruct H as [_ <-].
  - by rewrite H.
Qed.

(** ** Regular expressions *)

Lemma nullable_spec r : nullable r = true <-> matches r "".
Proof.
  split.
  - induction r; cbn; intros H; try discriminate.
    + constructor.
    + apply andb_true_iff in H as [H1 H2].
      change "" with ("" +:+ ""). constructor; auto.
    + apply orb_true_iff in H as [H|H]; [apply m_alt_l|apply m_alt_r]; auto.
    + constructor.
  - intros H. remember "" as s eqn:Hs.
    induction H; cbn; try discriminate; try reflexivity.
    + apply str_app_eq_nil in Hs as [-> ->]. by rewrite IHmatches1, IHmatches2.
    + by rewrite IHmatches.
    + rewrite IHmatches by done. apply orb_true_r.
Qed.

Lemma deriv_sound c r : forall s, matches (deriv c r) s -> matches r (String c s).
Proof.
  induction r; cbn; intros s H.
  - inversion H.
  - inversion H.
  - destruct (Ascii.eqb c c0) eqn:Hc; inversion H; subst.
    apply Ascii.eqb_eq in Hc as ->. constructor.
  - destruct (in_range lo hi c) eqn:Hc; inversion H; subst. by constructor.
  - destruct (nullable r1) eqn:Hn.
    + inversion H as [| | | | ? ? ? H' | ? ? ? H' | |]; subst.
      * inversion H'; subst. rewrite <- str_app_cons. constructor; auto.
      * change (String c s) with ("" +:+ String c s).
        constructor; [by apply nullable_spec | auto].
    + inversion H; subst. rewrite <- str_app_cons. constructor; auto.
  - inversion H; subst; [apply m_alt_l | apply m_alt_r]; auto.
  - inversion H; subst. rewrite <- str_app_cons. constructor; auto.
Qed.

Lemma deriv_complete c r w :
  matches r w -> forall s, w = String c s -> matches (deriv c r) s.
Proof.
  induction 1 as [ | c' | lo hi c' Hd | r1 r2 s1 s2 H1 IH1 H2 IH2
                 | r1 r2 s0 H1 IH1 | r1 r2 s0 H1 IH1
                 | r | r s1 s2 H1 IH1 H2 IH2 ]; intros s Hw; cbn.
  - discriminate.
  - injection Hw as -> <-. rewrite Ascii.eqb_refl. constructor.
  - injection Hw as -> <-. rewrite Hd. constructor.
  - apply str_app_eq_cons in Hw as [[-> ->] | (s1' & -> & ->)].
    + apply nullable_spec in H1 as ->. apply m_alt_r. by apply IH2.
    + destruct (nullable r1).
      * apply m_alt_l. constructor; auto.
      * constructor; auto.
  - apply m_alt_l. auto.
  - apply m_alt_r. auto.
  - discriminate.
  - apply str_app_eq_cons in Hw as [[-> ->] | (s1' & -> & ->)].
    + by apply IH2.
    + constructor; auto.
Qed.

Lemma deriv_spec c r s : matches (deriv c r) s <-> matches r (String c s).
Proof.
  split; [apply deriv_sound|]. intros H. by eapply deriv_complete.
Qed.

(** [re_match] finds exactly the strings with a matching prefix. *)
Lemma re_match_spec (s : string) : forall r,
  re_match r s = true <-> exists p q, s = p +:+ q /\ matches r p.
Proof.
  induction s as [|c s IH]; intros r; cbn [re_match].
  - rewrite orb_false_r, nullable_spec. split.
    + intros H. by exists "", "".
    + intros (p & q & Hs & H). symmetry in Hs.
      by apply str_app_eq_nil in Hs as [-> _].
  - rewrite orb_true_iff, nullable_spec, IH. split.
    + intros [H | (p & q & -> & H)].
      * by exists "", (String c s).
      * exists (String c p), q. split; [reflexivity|]. by apply deriv_spec.
    + intros (p & q & Hs & H). symmetry in Hs.
      apply str_app_eq_cons in Hs as [[-> _] | (p' & -> & ->)].
      * by left.
      * right. exists p', q. split; [reflexivity|]. by apply deriv_spec.
Qed.

(** ** The class [\d] *)

Lemma in_code_points lo hi n : In n (code_points lo hi) <-> (lo <= n <= hi)%N.
Proof.
  unfold code_points. rewrite in_map_iff. split.
  - intros (k & <- & Hk%in_seq). lia.
  - intros H. exists (N.to_nat n). split; [apply N2Nat.id|].
    apply in_seq. lia.
Qed.

Lemma decimal_spec cp : decimal cp = true <-> In cp all_decimal.
Proof.
  unfold decimal, all_decimal. rewrite existsb_exists, in_flat_map.
  split; intros (r & Hr & H); exists r; (split; [done|]).
  - apply in_code_points. apply andb_true_iff in H as [H1 H2].
    by apply N.leb_le in H1, H2.
  - apply in_code_points in H as [H1 H2].
    apply andb_true_iff. by rewrite !N.leb_le.
Qed.

(** The strings of a run are the strings its pattern matches. *)
Lemma matches_digit_run front lo hi s :
  (hi < 256)%N ->
  matches (digit_run (front, lo, hi)) s <-> In s (run_strings (front, lo, hi)).
Proof.
  intros Hhi. unfold run_strings. rewrite in_map_iff.
  revert s.
  induction front as [|b front IH]; intros s; cbn [digit_run fold_right].
  - split.
    + intros H. inversion H as [| |? ? c Hc| | | | |]; subst.
      unfold in_range in Hc. apply andb_true_iff in Hc as [H1 H2].
      apply N.leb_le in H1, H2. exists (N_of_ascii c). split.
      * unfold byte. by rewrite ascii_N_embedding.
      * by apply in_code_points.
    + intros (n & <- & [H1 H2]%in_code_points). constructor.
      unfold in_range, byte. rewrite N_ascii_embedding by lia.
      apply andb_true_iff. by rewrite !N.leb_le.
  - split.
    + intros H. inversion H as [| | |? ? s1 s2 H1 H2| | | |]; subst.
      inversion H1; subst. apply IH in H2 as (n & <- & Hn).
      by exists n.
    + intros (n & <- & Hn).
      change (String (byte b) ?t) with (String (byte b) "" +:+ t).
      constructor; [constructor|]. apply IH. by exists n.
Qed.

(** The runs of [digit_bytes] are the encodings of the decimal digits. *)
Lemma digit_bytes_utf8 : flat_map run_strings digit_bytes = map utf8 all_decimal.
Proof. by vm_compute. Qed.

Lemma digit_bytes_byte :
  forallb (fun run => (run.2 <? 256)%N) digit_bytes = true.
Proof. by vm_compute. Qed.

Lemma matches_alternatives (l : list (list N * N * N)) s :
  matches (fold_right (fun run r => Alt (digit_run run) r) Void l) s
  <-> exists run, In run l /\ matches (digit_run run) s.
Proof.
  induction l as [|run l IH]; cbn [fold_right].
  - split; [intros H; inversion H | by intros (run & [] & _)].
  - split.
    + intros H. inversion H as [| | | |? ? ? Hl|? ? ? Hr| |]; subst.
      * exists run. split; [by left | done].
      * apply IH in Hr as (run' & Hin & Hm). exists run'.
        split; [by right | done].
    + intros (run' & [-> | Hin] & Hm); [by apply m_alt_l|].
      apply m_alt_r, IH. by exists run'.
Qed.

(** [\d] matches the encodings of the decimal digits, and nothing else. *)
Lemma digit_spec (s : string) :
  matches digit s <-> exists cp, decimal cp = true /\ s = utf8 cp.
Proof.
  unfold digit. rewrite matches_alternatives.
  assert (forall run, In run digit_bytes ->
            matches (digit_run run) s <-> In s (run_strings run)) as Hrun.
  { intros [[front lo] hi] Hin. apply matches_digit_run.
    pose proof digit_bytes_byte as Hb.
    rewrite forallb_forall in Hb. apply Hb in Hin. by apply N.ltb_lt in Hin. }
  split.
  - intros (run & Hin & Hm). apply Hrun in Hm; [|done].
    assert (In s (flat_map run_strings digit_bytes)) as Hs.
    { apply in_flat_map. by exists run. }
    rewrite digit_bytes_utf8 in Hs. apply in_map_iff in Hs as (cp & <- & Hcp).
    exists cp. by rewrite decimal_spec.
  - intros (cp & Hcp%decimal_spec & ->).
    assert (In (utf8 cp) (flat_map run_strings digit_bytes)) as Hs.
    { rewrite digit_bytes_utf8. apply in_map_iff. by exists cp. }
    apply in_flat_map in Hs as (run & Hin & Hs).
    exists run. split; [done|]. by apply Hrun.
Qed.

Lemma matches_star_digit (s : string) :
  matches (Star digit) s <->
  exists cps, forallb decimal cps = true /\ s = encode cps.
Proof.
  split.
  - intros H. remember (Star digit) as r eqn:Hr.
    induction H; try discriminate; [by exists []|].
    injection Hr as ->.
    destruct IHmatches2 as (cps & Hcps & ->); [done|].
    apply digit_spec in H as (cp & Hcp & ->).
    exists (cp :: cps). split; [|done]. cbn [forallb]. by rewrite Hcp.
  - intros (cps & Hcps & ->). induction cps as [|cp cps IH]; [constructor|].
    cbn [forallb] in Hcps. apply andb_true_iff in Hcps as [Hcp Hcps].
    cbn [encode]. constructor; [|by apply IH].
    apply digit_spec. by exists cp.
Qed.

Lemma matches_plus_digit (s : string) : matches (Plus digit) s <-> digits s.
Proof.
  unfold Plus, digits. split.
  - intros H. inversion H as [| | |? ? s1 s2 H1 H2| | | |]; subst.
    apply digit_spec in H1 as (cp & Hcp & ->).
    apply matches_star_digit in H2 as (cps & Hcps & ->).
    exists (cp :: cps). split; [done|]. split; [|done].
    cbn [forallb]. by rewrite Hcp.
  - intros (cps & Hne & Hcps & ->). destruct cps as [|cp cps]; [done|].
    cbn [forallb] in Hcps. apply andb_true_iff in Hcps as [Hcp Hcps].
    cbn [encode]. constructor.
    + apply digit_spec. by exists cp.
    + apply matches_star_digit. by exists cps.
Qed.

Lemma matches_version_re (p : string) :
  matches version_re p <->
  exists a b c, p = a +:+ "." +:+ b +:+ "." +:+ c
                /\ digits a /\ digits b /\ digits c.
Proof.
  unfold version_re. split.
  - intros H.
    inversion H as [| | |? ? a r1 Ha H1| | | |]; subst.
    inversion H1 as [| | |? ? d1 r2 Hd1 H2| | | |]; subst.
    inversion H2 as [| | |? ? b r3 Hb H3| | | |]; subst.
    inversion H3 as [| | |? ? d2 c Hd2 Hc| | | |]; subst.
    inversion Hd1; subst. inversion Hd2; subst.
    exists a, b, c. rewrite <- !matches_plus_digit. by repeat split.
  - intros (a & b & c & -> & Ha & Hb & Hc).
    apply matches_plus_digit in Ha, Hb, Hc.
    constructor; [done|].
    constructor; [constructor|]. constructor; [done|].
    constructor; [constructor | done].
Qed.

(** The check of the constructor, in the words of the specification. *)
Lemma re_match_version (v : string) :
  re_match version_re v = true <-> version_shape v.
Proof.
  rewrite re_match_spec. unfold version_shape. split.
  - intros (p & q & -> & H). apply matches_version_re in H.
    destruct H as (a & b & c & -> & Ha & Hb & Hc).
    exists a, b, c, q. split; [|done].
    by rewrite !str_app_assoc.
  - intros (a & b & c & rest & -> & Ha & Hb & Hc).
    exists (a +:+ "." +:+ b +:+ "." +:+ c), rest. split.
    + by rewrite !str_app_assoc.
    + apply matches_version_re. by exists a, b, c.
Qed.

(** ** The monad *)

Lemma bind_ok {A B} (m : M A) (k : A -> M B) st a st' :
  m st = (Ok a, st') -> bind m k st = k a st'.
Proof. unfold bind. by intros ->. Qed.

Lemma bind_err {A B} (m : M A) (k : A -> M B) st e st' :
  m st = (Err e, st') -> bind m k st = (Err e, st').
Proof. unfold bind. by intros ->. Qed.

Lemma bind_ret_r {A} (m : M A) st : bind m ret st = m st.
Proof. unfold bind, ret. by destruct (m st) as [[a|e] st']. Qed.

(** ** The registry *)

Lemma property_get_eq p :
  property_get p
  = cached_factory (property_name p)
      (_type_factory (property_pair p).1 (property_pair p).2).
Proof. by destruct p. Qed.

Lemma property_name_fresh p : property_name p ∉ client_names.
Proof.
  unfold client_names. rewrite !not_elem_of_cons.
  destruct p; repeat split; try discriminate; apply not_elem_of_nil.
Qed.

(** The accessor stored under a name. *)
Lemma property_name_inj p q : property_name p = property_name q -> p = q.
Proof.
  assert (exists find : string -> option factory_property,
            forall r, find (property_name r) = Some r) as [find Hfind].
  { exists (fun name =>
      (fix find (l : list factory_property) : option factory_property :=
         match l with
         | [] => None
         | x :: l' => if String.eqb (property_name x) name
                      then Some x else find l'
         end)
      [P_Core; P_CoreTypes; P_FaultsTypes; P_Faults; P_Messages; P_Common;
       P_CommonTypes; P_Scheduling; P_SchedulingTypes; P_Communication;
       P_CommunicationTypes; P_Filecabinet; P_FilecabinetTypes;
       P_Relationships; P_RelationshipsTypes; P_Support; P_SupportTypes;
       P_Accounting; P_AccountingTypes; P_Sales; P_SalesTypes; P_Purchases;
       P_PurchasesTypes; P_Customers; P_CustomersTypes; P_Financial;
       P_FinancialTypes; P_Bank; P_BankTypes; P_Inventory; P_InventoryTypes;
       P_General; P_Customization; P_CustomizationTypes; P_Employees;
       P_EmployeesTypes; P_Website; P_WebsiteTypes; P_EmployeesTransactions;
       P_EmployeesTransactionsTypes; P_Marketing; P_MarketingTypes;
       P_DemandPlanning; P_DemandPlanningTypes; P_SupplyChain;
       P_SupplyChainTypes]).
    intros r. by destruct r. }
  intros H. pose proof (Hfind p) as Hp. rewrite H, Hfind in Hp.
  by injection Hp.
Qed.

(** ** Stored entries *)

Lemma memoized_wsdl_url d : memoized "wsdl_url" d <-> is_Some (memo_wsdl_url d).
Proof. reflexivity. Qed.

Lemma memoized_cache d : memoized "cache" d <-> is_Some (memo_cache d).
Proof. reflexivity. Qed.

Lemma memoized_session d : memoized "session" d <-> is_Some (memo_session d).
Proof. reflexivity. Qed.

Lemma memoized_client d : memoized "client" d <-> is_Some (memo_client d).
Proof. reflexivity. Qed.

Lemma memoized_transport d :
  memoized "transport" d <-> is_Some (memo_transport d).
Proof. reflexivity. Qed.

Lemma memoized_factory p d :
  memoized (property_name p) d
  <-> is_Some (memo_factories d !! property_name p).
Proof.
  pose proof (property_name_fresh p) as H. unfold client_names in H.
  rewrite !not_elem_of_cons in H. destruct H as (H1 & H2 & H3 & H4 & H5 & _).
  unfold memoized. by repeat (case_decide; [done|]).
Qed.

(** Entries never disappear. *)
Lemma memoized_mono name d d' :
  (forall v, memo_wsdl_url d = Some v -> memo_wsdl_url d' = Some v) ->
  (forall v, memo_cache d = Some v -> memo_cache d' = Some v) ->
  (forall v, memo_session d = Some v -> memo_session d' = Some v) ->
  (forall v, memo_client d = Some v -> memo_client d' = Some v) ->
  (forall v, memo_transport d = Some v -> memo_transport d' = Some v) ->
  (forall n v, memo_factories d !! n = Some v ->
               memo_factories d' !! n = Some v) ->
  memoized name d -> memoized name d'.
Proof.
  intros H1 H2 H3 H4 H5 H6. unfold memoized.
  repeat case_decide; intros [v Hv]; eauto.
Qed.

Lemma ext_refl names ns : ext names ns ns.
Proof. split; auto. by destruct ns. Qed.

Lemma ext_trans n1 n2 names ns1 ns2 ns3 :
  ext n1 ns1 ns2 -> ext n2 ns2 ns3 ->
  (forall x, x ∈ n1 -> x ∈ names) -> (forall x, x ∈ n2 -> x ∈ names) ->
  ext names ns1 ns3.
Proof.
  intros [A1 B1 C1 D1 E1 F1 G1 H1] [A2 B2 C2 D2 E2 F2 G2 H2] S1 S2.
  split; auto.
  - rewrite A2. rewrite A1. reflexivity.
  - intros x Hx. apply H2 in Hx as [Hx|Hx]; [|by auto].
    apply H1 in Hx as [Hx|Hx]; auto.
Qed.

Lemma ext_memoized names ns ns' name :
  ext names ns ns' -> memoized name (__dict__ ns) -> memoized name (__dict__ ns').
Proof. intros []. by apply memoized_mono. Qed.

Lemma ext_the_wsdl_url names ns ns' :
  ext names ns ns' -> the_wsdl_url ns' = the_wsdl_url ns.
Proof. intros [-> _ _ _ _ _ _ _]. reflexivity. Qed.

Lemma ext_namespace_of names ns ns' p :
  ext names ns ns' -> namespace_of ns' p = namespace_of ns p.
Proof. intros [-> _ _ _ _ _ _ _]. reflexivity. Qed.

Lemma quiet_refl w : quiet w w.
Proof. split; [lia|]. by exists []. Qed.

Lemma quiet_trans w1 w2 w3 : quiet w1 w2 -> quiet w2 w3 -> quiet w1 w3.
Proof.
  intros (H1 & e1 & T1 & F1) (H2 & e2 & T2 & F2). split; [lia|].
  exists (e2 ++ e1). split.
  - by rewrite T2, T1, (assoc_L (++)).
  - by apply Forall_app.
Qed.

(** A name that is not stored has not been built. *)
Lemma not_built ns name :
  wf ns -> ~ memoized name (__dict__ ns) -> name ∉ built (__dict__ ns).
Proof. intros Hwf Hn Hin. by apply Hn, wf_built_memo. Qed.

(** ** Writing an entry *)

Lemma the_wsdl_url_store name write ns :
  the_wsdl_url (store name write ns) = the_wsdl_url ns.
Proof. reflexivity. Qed.

Lemma namespace_of_store name write ns p :
  namespace_of (store name write ns) p = namespace_of ns p.
Proof. reflexivity. Qed.

(** The log after a write that adds the entry [name] and keeps the others. *)
Lemma store_built name write ns :
  wf ns -> ~ memoized name (__dict__ ns) ->
  (forall n, memoized n (write (__dict__ ns))
             <-> n = name \/ memoized n (__dict__ ns)) ->
  built (write (__dict__ ns)) = built (__dict__ ns) ->
  NoDup (built (__dict__ (store name write ns)))
  /\ (forall n, n ∈ built (__dict__ (store name write ns)) <->
                memoized n (__dict__ (store name write ns))).
Proof.
  intros Hwf Hn Hset Hb. simpl. rewrite Hb. split.
  - constructor; [by apply not_built | by apply wf_built_once].
  - intros n. change (n ∈ name :: built (__dict__ ns)
                      <-> memoized n (write (__dict__ ns))).
    by rewrite elem_of_cons, Hset, (wf_built_memo ns Hwf).
Qed.

(** What is stored after one more entry. *)
Lemma memoized_set_wsdl_url v d n :
  memoized n (set_wsdl_url v d) <-> n = "wsdl_url" \/ memoized n d.
Proof.
  unfold memoized. repeat case_decide; simpl; subst.
  all: split;
    [ intros Hm; first [by right | by left]
    | intros [Hm|Hm]; first [done | by eexists] ].
Qed.

Lemma memoized_set_cache v d n :
  memoized n (set_cache v d) <-> n = "cache" \/ memoized n d.
Proof.
  unfold memoized. repeat case_decide; simpl; subst.
  all: split;
    [ intros Hm; first [by right | by left]
    | intros [Hm|Hm]; first [done | by eexists] ].
Qed.

Lemma memoized_set_session v d n :
  memoized n (set_session v d) <-> n = "session" \/ memoized n d.
Proof.
  unfold memoized. repeat case_decide; simpl; subst.
  all: split;
    [ intros Hm; first [by right | by left]
    | intros [Hm|Hm]; first [done | by eexists] ].
Qed.

Lemma memoized_set_client v d n :
  memoized n (set_client v d) <-> n = "client" \/ memoized n d.
Proof.
  unfold memoized. repeat case_decide; simpl; subst.
  all: split;
    [ intros Hm; first [by right | by left]
    | intros [Hm|Hm]; first [done | by eexists] ].
Qed.

Lemma memoized_set_transport v d n :
  memoized n (set_transport v d) <-> n = "transport" \/ memoized n d.
Proof.
  unfold memoized. repeat case_decide; simpl; subst.
  all: split;
    [ intros Hm; first [by right | by left]
    | intros [Hm|Hm]; first [done | by eexists] ].
Qed.

Lemma memoized_set_factory p v d n :
  memoized n (set_factory (property_name p) v d)
  <-> n = property_name p \/ memoized n d.
Proof.
  destruct (decide (n = property_name p)) as [->|Hne].
  - rewrite memoized_factory. simpl. rewrite lookup_insert_eq.
    split; intros _; [left; reflexivity | by eexists].
  - unfold memoized. repeat case_decide; simpl; try tauto.
    rewrite lookup_insert_ne by done. tauto.
Qed.

Lemma store_wsdl_url ns v :
  wf ns -> memo_wsdl_url (__dict__ ns) = None -> v = the_wsdl_url ns ->
  wf (store "wsdl_url" (set_wsdl_url v) ns)
  /\ ext ["wsdl_url"] ns (store "wsdl_url" (set_wsdl_url v) ns).
Proof.
  intros Hwf Hnone ->.
  assert (~ memoized "wsdl_url" (__dict__ ns)) as Hn.
  { rewrite memoized_wsdl_url, Hnone. by intros [? ?]. }
  destruct (store_built "wsdl_url" (set_wsdl_url (the_wsdl_url ns)) ns Hwf Hn)
    as [B1 B2]; [apply memoized_set_wsdl_url|done|].
  destruct Hwf as [W1 W2 W3 W4 W5 W6 W7 W8]. split; split; try done; simpl.
  - by intros u [= <-].
  - intros c Hc. by destruct (W5 c Hc) as [? ?]; simplify_eq.
  - by rewrite Hnone.
  - intros n [->|Hin]%elem_of_cons; [right; by apply list_elem_of_singleton|by left].
Qed.

Lemma store_cache ns v :
  wf ns -> memo_cache (__dict__ ns) = None ->
  match supplied cache_truthy (__cache ns) with
  | Some c0 => v = c0
  | None => exists id, v = SqliteCache id one_year
  end ->
  wf (store "cache" (set_cache v) ns)
  /\ ext ["cache"] ns (store "cache" (set_cache v) ns).
Proof.
  intros Hwf Hnone Hv.
  assert (~ memoized "cache" (__dict__ ns)) as Hn.
  { rewrite memoized_cache, Hnone. by intros [? ?]. }
  destruct (store_built "cache" (set_cache v) ns Hwf Hn)
    as [B1 B2]; [apply memoized_set_cache|done|].
  destruct Hwf as [W1 W2 W3 W4 W5 W6 W7 W8]. split; split; try done; simpl.
  - by intros c [= <-].
  - intros t Ht. by destruct (W4 t Ht) as [? ?]; simplify_eq.
  - by rewrite Hnone.
  - intros n [->|Hin]%elem_of_cons; [right; by apply list_elem_of_singleton|by left].
Qed.

Lemma store_session ns v :
  wf ns -> memo_session (__dict__ ns) = None ->
  (forall s0, supplied session_truthy (__session ns) = Some s0 -> v = s0) ->
  wf (store "session" (set_session v) ns)
  /\ ext ["session"] ns (store "session" (set_session v) ns).
Proof.
  intros Hwf Hnone Hv.
  assert (~ memoized "session" (__dict__ ns)) as Hn.
  { rewrite memoized_session, Hnone. by intros [? ?]. }
  destruct (store_built "session" (set_session v) ns Hwf Hn)
    as [B1 B2]; [apply memoized_set_session|done|].
  destruct Hwf as [W1 W2 W3 W4 W5 W6 W7 W8]. split; split; try done; simpl.
  - intros s s0 [= <-]. apply Hv.
  - intros t Ht. by destruct (W4 t Ht) as [? ?]; simplify_eq.
  - by rewrite Hnone.
  - intros n [->|Hin]%elem_of_cons; [right; by apply list_elem_of_singleton|by left].
Qed.

Lemma store_transport ns v :
  wf ns -> memo_transport (__dict__ ns) = None ->
  memo_session (__dict__ ns) = Some (transport_session v) ->
  memo_cache (__dict__ ns) = Some (transport_cache v) ->
  wf (store "transport" (set_transport v) ns)
  /\ ext ["transport"] ns (store "transport" (set_transport v) ns).
Proof.
  intros Hwf Hnone Hs Hc.
  assert (~ memoized "transport" (__dict__ ns)) as Hn.
  { rewrite memoized_transport, Hnone. by intros [? ?]. }
  destruct (store_built "transport" (set_transport v) ns Hwf Hn)
    as [B1 B2]; [apply memoized_set_transport|done|].
  destruct Hwf as [W1 W2 W3 W4 W5 W6 W7 W8]. split; split; try done; simpl.
  - by intros t [= <-].
  - intros c Hcl. by destruct (W5 c Hcl) as [? ?]; simplify_eq.
  - by rewrite Hnone.
  - intros n [->|Hin]%elem_of_cons; [right; by apply list_elem_of_singleton|by left].
Qed.

Lemma store_client ns v :
  wf ns -> memo_client (__dict__ ns) = None ->
  memo_wsdl_url (__dict__ ns) = Some (client_wsdl v) ->
  memo_transport (__dict__ ns) = Some (client_transport v) ->
  wf (store "client" (set_client v) ns)
  /\ ext ["client"] ns (store "client" (set_client v) ns).
Proof.
  intros Hwf Hnone Hu Ht.
  assert (~ memoized "client" (__dict__ ns)) as Hn.
  { rewrite memoized_client, Hnone. by intros [? ?]. }
  destruct (store_built "client" (set_client v) ns Hwf Hn)
    as [B1 B2]; [apply memoized_set_client|done|].
  destruct Hwf as [W1 W2 W3 W4 W5 W6 W7 W8]. split; split; try done; simpl.
  - by intros c [= <-].
  - intros name f Hf. destruct (W6 name f Hf) as (p & c & _ & Hc & _).
    by simplify_eq.
  - by rewrite Hnone.
  - intros n [->|Hin]%elem_of_cons; [right; by apply list_elem_of_singleton|by left].
Qed.

Lemma store_factory ns p c :
  wf ns -> memo_factories (__dict__ ns) !! property_name p = None ->
  memo_client (__dict__ ns) = Some c ->
  let v := type_factory c (namespace_of ns p) in
  wf (store (property_name p) (set_factory (property_name p) v) ns)
  /\ ext [property_name p] ns
       (store (property_name p) (set_factory (property_name p) v) ns).
Proof.
  intros Hwf Hnone Hc v.
  assert (~ memoized (property_name p) (__dict__ ns)) as Hn.
  { rewrite memoized_factory, Hnone. by intros [? ?]. }
  assert (forall n f, memo_factories (__dict__ ns) !! n = Some f ->
            <[property_name p := v]> (memo_factories (__dict__ ns)) !! n
            = Some f) as Hins.
  { intros n f Hf. rewrite lookup_insert_ne; [done|]. by intros <-; simplify_eq. }
  destruct (store_built (property_name p) (set_factory (property_name p) v)
              ns Hwf Hn) as [B1 B2]; [apply memoized_set_factory|done|].
  destruct Hwf as [W1 W2 W3 W4 W5 W6 W7 W8]. split; split; try done; simpl.
  - intros name f Hf. destruct (decide (name = property_name p)) as [->|Hne].
    + rewrite lookup_insert_eq in Hf. injection Hf as <-. by exists p, c.
    + rewrite lookup_insert_ne in Hf by done. apply W6, Hf.
  - intros n [->|Hin]%elem_of_cons; [right; by apply list_elem_of_singleton|by left].
Qed.

(** An entry that is not stored stays so under uses that do not build it. *)
Lemma ext_unset names ns ns' name :
  wf ns -> wf ns' -> ext names ns ns' ->
  ~ memoized name (__dict__ ns) -> name ∉ names ->
  ~ memoized name (__dict__ ns').
Proof.
  intros Hwf Hwf' Hext Hn Hnot Hm.
  apply (wf_built_memo ns' Hwf') in Hm.
  apply (ext_built _ _ _ Hext) in Hm as [Hm|Hm]; [|done].
  by apply Hn, (wf_built_memo ns Hwf).
Qed.

(** ** Cached accessors *)

Lemma cached_property_hit {A} name (get : Memo -> option A) set builder st v :
  get (__dict__ (self st)) = Some v ->
  cached_property name get set builder st = (Ok v, st).
Proof. unfold cached_property. by intros ->. Qed.

Lemma cached_property_miss {A} name (get : Memo -> option A) set builder
    st v st1 :
  get (__dict__ (self st)) = None -> builder st = (Ok v, st1) ->
  cached_property name get set builder st
  = (Ok v, {| self := store name (set v) (self st1); world := world st1 |}).
Proof. unfold cached_property. by intros -> ->. Qed.

Lemma quiet_emit1 w e :
  construction e ->
  quiet w {| next_id := S (next_id w); trace := e :: trace w |}.
Proof. intros He. split; simpl; [lia|]. exists [e]. by repeat constructor. Qed.

(** The collaborators: one new identity and one event each. *)
Lemma SqliteCache_new_eq t st :
  let c := SqliteCache (next_id (world st)) t in
  SqliteCache_new t st = (Ok c, after (NewSqliteCache c) st).
Proof. reflexivity. Qed.

Lemma Session_new_eq st :
  let s := {| session_id := next_id (world st); session_truthy := true |} in
  Session_new st = (Ok s, after (NewSession s) st).
Proof. reflexivity. Qed.

Lemma Transport_new_eq s c st :
  let t := {| transport_id := next_id (world st); transport_session := s;
              transport_cache := c |} in
  Transport_new s c st = (Ok t, after (NewTransport t) st).
Proof. reflexivity. Qed.

Lemma passport_make_eq c cfg st :
  let p := VOpaque (next_id (world st)) in
  passport_make c cfg st = (Ok p, after (PassportMake c cfg p) st).
Proof. reflexivity. Qed.

Lemma wsdl_url_builder st :
  (ns <- get_self ;; or_else str_truthy (__wsdl_url ns) _generate_wsdl_url) st
  = (Ok (the_wsdl_url (self st)), st).
Proof.
  unfold bind, get_self, the_wsdl_url.
  destruct (__wsdl_url (self st)) as [[|c u]|]; reflexivity.
Qed.

Lemma wsdl_url_spec st :
  wf (self st) ->
  exists u st',
    wsdl_url st = (Ok u, st') /\ wf (self st')
    /\ ext ["wsdl_url"] (self st) (self st')
    /\ quiet (world st) (world st')
    /\ memo_wsdl_url (__dict__ (self st')) = Some u.
Proof.
  intros Hwf. unfold wsdl_url.
  destruct (memo_wsdl_url (__dict__ (self st))) as [u|] eqn:E.
  - exists u, st. split_and!; try done.
    + by apply cached_property_hit.
    + apply ext_refl.
    + apply quiet_refl.
  - destruct (store_wsdl_url (self st) (the_wsdl_url (self st)) Hwf E eq_refl)
      as [W X].
    eexists _, _. split_and!.
    + apply cached_property_miss; [done|]. apply wsdl_url_builder.
    + done.
    + done.
    + apply quiet_refl.
    + reflexivity.
Qed.

Lemma or_else_supplied {A} (truthy : A -> bool) (x : option A) (alt : M A) :
  or_else truthy x alt
  = match supplied truthy x with
    | Some a => ret a
    | None => alt
    end.
Proof. destruct x as [a|]; [|done]. cbn. by destruct (truthy a). Qed.

Lemma cache_spec st :
  wf (self st) ->
  exists c st',
    cache st = (Ok c, st') /\ wf (self st')
    /\ ext ["cache"] (self st) (self st')
    /\ quiet (world st) (world st')
    /\ memo_cache (__dict__ (self st')) = Some c.
Proof.
  intros Hwf. unfold cache.
  destruct (memo_cache (__dict__ (self st))) as [c|] eqn:E.
  - exists c, st. split_and!; try done.
    + by apply cached_property_hit.
    + apply ext_refl.
    + apply quiet_refl.
  - destruct (supplied cache_truthy (__cache (self st))) as [c0|] eqn:C.
    + destruct (store_cache (self st) c0 Hwf E) as [W X]; [by rewrite C|].
      eexists _, _. split_and!.
      * apply cached_property_miss; [done|].
        unfold bind, get_self. rewrite or_else_supplied, C. reflexivity.
      * done.
      * done.
      * apply quiet_refl.
      * reflexivity.
    + destruct (store_cache (self st) (SqliteCache (next_id (world st)) one_year)
                  Hwf E) as [W X]; [rewrite C; by eexists|].
      eexists _, _. split_and!.
      * apply cached_property_miss; [done|].
        unfold bind, get_self. rewrite or_else_supplied, C.
        apply SqliteCache_new_eq.
      * done.
      * done.
      * by apply quiet_emit1.
      * reflexivity.
Qed.

Lemma session_spec st :
  wf (self st) ->
  exists s st',
    session st = (Ok s, st') /\ wf (self st')
    /\ ext ["session"] (self st) (self st')
    /\ quiet (world st) (world st')
    /\ memo_session (__dict__ (self st')) = Some s.
Proof.
  intros Hwf. unfold session.
  destruct (memo_session (__dict__ (self st))) as [s|] eqn:E.
  - exists s, st. split_and!; try done.
    + by apply cached_property_hit.
    + apply ext_refl.
    + apply quiet_refl.
  - destruct (supplied session_truthy (__session (self st))) as [s0|] eqn:C.
    + destruct (store_session (self st) s0 Hwf E) as [W X].
      { intros s1 Hs1. by simplify_eq. }
      eexists _, _. split_and!.
      * apply cached_property_miss; [done|].
        unfold bind, get_self. rewrite or_else_supplied, C. reflexivity.
      * done.
      * done.
      * apply quiet_refl.
      * reflexivity.
    + destruct (store_session (self st)
                  {| session_id := next_id (world st); session_truthy := true |}
                  Hwf E) as [W X].
      { intros s1 Hs1. by simplify_eq. }
      eexists _, _. split_and!.
      * apply cached_property_miss; [done|].
        unfold bind, get_self. rewrite or_else_supplied, C.
        apply Session_new_eq.
      * done.
      * done.
      * by apply quiet_emit1.
      * reflexivity.
Qed.

Lemma transport_spec st :
  wf (self st) ->
  exists t st',
    transport st = (Ok t, st') /\ wf (self st')
    /\ ext ["transport"; "session"; "cache"] (self st) (self st')
    /\ quiet (world st) (world st')
    /\ memo_transport (__dict__ (self st')) = Some t.
Proof.
  intros Hwf. unfold transport.
  destruct (memo_transport (__dict__ (self st))) as [t|] eqn:E.
  - exists t, st. split_and!; try done.
    + by apply cached_property_hit.
    + apply ext_refl.
    + apply quiet_refl.
  - destruct (session_spec st Hwf) as (s & st1 & R1 & W1 & X1 & Q1 & M1).
    destruct (cache_spec st1 W1) as (c & st2 & R2 & W2 & X2 & Q2 & M2).
    pose proof (ext_trans _ _ ["session"; "cache"] _ _ _ X1 X2) as X12.
    assert (ext ["session"; "cache"] (self st) (self st2)) as X.
    { apply X12; intros x ->%list_elem_of_singleton;
        rewrite !elem_of_cons; auto. }
    set (t := {| transport_id := next_id (world st2);
                 transport_session := s; transport_cache := c |}).
    destruct (store_transport (self st2) t W2) as [W3 X3].
    { assert (~ memoized "transport" (__dict__ (self st2))) as Hn.
      { apply (ext_unset _ _ _ _ Hwf W2 X).
        - rewrite memoized_transport, E. by intros [? ?].
        - rewrite !not_elem_of_cons. split_and!; try done.
          apply not_elem_of_nil. }
      rewrite memoized_transport in Hn.
      destruct (memo_transport (__dict__ (self st2))); [|done].
      exfalso. by apply Hn. }
    { by apply (ext_session _ _ _ X2). }
    { done. }
    eexists _, _. split_and!.
    + apply cached_property_miss; [done|]. unfold _generate_transport.
      rewrite (bind_ok _ _ _ _ _ R1), (bind_ok _ _ _ _ _ R2).
      apply Transport_new_eq.
    + done.
    + simpl. apply (ext_trans _ _ _ _ _ _ X X3);
        intros x; rewrite !elem_of_cons; tauto.
    + simpl. eapply quiet_trans; [exact Q1|].
      eapply quiet_trans; [exact Q2|]. by apply quiet_emit1.
    + reflexivity.
Qed.

Lemma Client_new_eq url t st :
  let c := {| client_id := next_id (world st); client_wsdl := url;
              client_transport := t |} in
  (c <- Client_new url t ;; _set_default_soapheaders c ;;; ret c) st
  = (Ok c,
     {| self := self st;
        world := {| next_id := S (next_id (world st));
                    trace := SetDefaultSoapheaders c [] :: NewClient c
                             :: trace (world st) |} |}).
Proof. reflexivity. Qed.

Lemma not_memoized_client ns :
  ~ memoized "client" (__dict__ ns) -> memo_client (__dict__ ns) = None.
Proof.
  rewrite memoized_client. destruct (memo_client (__dict__ ns)); [|done].
  intros H. exfalso. by apply H.
Qed.

Lemma client_spec st :
  wf (self st) ->
  exists c st',
    client st = (Ok c, st') /\ wf (self st')
    /\ ext client_names (self st) (self st')
    /\ quiet (world st) (world st')
    /\ memo_client (__dict__ (self st')) = Some c.
Proof.
  intros Hwf. unfold client.
  destruct (memo_client (__dict__ (self st))) as [c|] eqn:E.
  - exists c, st. split_and!; try done.
    + by apply cached_property_hit.
    + apply ext_refl.
    + apply quiet_refl.
  - destruct (wsdl_url_spec st Hwf) as (u & st1 & R1 & W1 & X1 & Q1 & M1).
    destruct (transport_spec st1 W1) as (t & st2 & R2 & W2 & X2 & Q2 & M2).
    assert (ext ["wsdl_url"; "transport"; "session"; "cache"]
              (self st) (self st2)) as X.
    { apply (ext_trans _ _ _ _ _ _ X1 X2);
        intros x; rewrite !elem_of_cons; tauto. }
    set (c := {| client_id := next_id (world st2); client_wsdl := u;
                 client_transport := t |}).
    destruct (store_client (self st2) c W2) as [W3 X3].
    { apply not_memoized_client, (ext_unset _ _ _ _ Hwf W2 X).
      - rewrite memoized_client, E. by intros [? ?].
      - rewrite !not_elem_of_cons. split_and!; try done.
        apply not_elem_of_nil. }
    { by apply (ext_wsdl_url _ _ _ X2). }
    { done. }
    eexists _, _. split_and!.
    + apply cached_property_miss; [done|]. unfold _generate_client.
      rewrite (bind_ok _ _ _ _ _ R1), (bind_ok _ _ _ _ _ R2).
      apply Client_new_eq.
    + done.
    + simpl. apply (ext_trans _ _ _ _ _ _ X X3);
        intros x; unfold client_names; rewrite !elem_of_cons; tauto.
    + simpl. eapply quiet_trans; [exact Q1|].
      eapply quiet_trans; [exact Q2|].
      split; simpl; [lia|].
      exists [SetDefaultSoapheaders c []; NewClient c].
      by repeat constructor.
    + reflexivity.
Qed.

Lemma _get_namespace_eq name sub st :
  _get_namespace name sub st
  = (Ok (expected_urn name (underscored_version_no_micro (self st)) sub), st).
Proof. reflexivity. Qed.

Lemma factory_spec p st :
  wf (self st) ->
  exists c st',
    property_get p st = (Ok (type_factory c (namespace_of (self st) p)), st')
    /\ wf (self st')
    /\ ext (property_name p :: client_names) (self st) (self st')
    /\ quiet (world st) (world st')
    /\ memo_client (__dict__ (self st')) = Some c
    /\ memo_factories (__dict__ (self st')) !! property_name p
       = Some (type_factory c (namespace_of (self st) p)).
Proof.
  intros Hwf. rewrite property_get_eq. unfold cached_factory.
  destruct (memo_factories (__dict__ (self st)) !! property_name p)
    as [f|] eqn:E.
  - destruct (wf_factories _ Hwf _ _ E) as (q & c & Hq & Hc & ->).
    apply property_name_inj in Hq as <-.
    exists c, st. split_and!; try done.
    + by apply cached_property_hit.
    + apply ext_refl.
    + apply quiet_refl.
  - destruct (client_spec st Hwf) as (c & st1 & R1 & W1 & X1 & Q1 & M1).
    destruct (store_factory (self st1) p c W1) as [W2 X2]; [|done|].
    { assert (~ memoized (property_name p) (__dict__ (self st1))) as Hn.
      { apply (ext_unset _ _ _ _ Hwf W1 X1).
        - rewrite memoized_factory, E. by intros [? ?].
        - apply property_name_fresh. }
      rewrite memoized_factory in Hn.
      destruct (memo_factories (__dict__ (self st1)) !! property_name p);
        [|done].
      exfalso. by apply Hn. }
    rewrite (ext_namespace_of _ _ _ p X1) in W2, X2.
    exists c. eexists. split_and!.
    + apply cached_property_miss; [done|]. unfold _type_factory.
      rewrite (bind_ok _ _ _ _ _ R1).
      rewrite (bind_ok _ _ _ _ _ (_get_namespace_eq _ _ st1)).
      unfold ret. do 2 f_equal.
      change (expected_urn _ _ _) with (namespace_of (self st1) p).
      by rewrite (ext_namespace_of _ _ _ p X1).
    + done.
    + simpl. apply (ext_trans _ _ _ _ _ _ X1 X2);
        intros x; unfold client_names; rewrite !elem_of_cons; tauto.
    + done.
    + simpl. done.
    + simpl. by rewrite lookup_insert_eq.
Qed.

(** ** Requests *)

Lemma existsb_has_key p kw :
  existsb (fun kv => has_key kv.1 [("_soapheaders", p)]) kw
  = has_key "_soapheaders" kw.
Proof.
  induction kw as [|[k v] kw IH]; [reflexivity|].
  change (has_key k [("_soapheaders", p)]
          || existsb (fun kv => has_key kv.1 [("_soapheaders", p)]) kw
          = has_key "_soapheaders" ((k, v) :: kw)).
  rewrite IH. unfold has_key. cbn [assoc]. rewrite (String.eqb_sym k).
  by destruct (String.eqb "_soapheaders" k).
Qed.

Lemma merge_soapheaders p kw :
  merge_kwargs [("_soapheaders", p)] kw
  = if has_key "_soapheaders" kw then Err TypeError
    else Ok (("_soapheaders", p) :: kw).
Proof. unfold merge_kwargs. by rewrite existsb_has_key. Qed.

Lemma client_hit c st :
  memo_client (__dict__ (self st)) = Some c -> client st = (Ok c, st).
Proof. apply cached_property_hit. Qed.

Lemma generate_passport_hit c st :
  memo_client (__dict__ (self st)) = Some c ->
  let p := VOpaque (next_id (world st)) in
  generate_passport st
  = (Ok p, after (PassportMake c (__config (self st)) p) st).
Proof.
  intros Hc p. unfold generate_passport.
  rewrite (bind_ok _ _ st c st); [reflexivity|].
  by apply cached_property_hit.
Qed.

Lemma request_eq name args kw st :
  wf (self st) ->
  exists c st1,
    client st = (Ok c, st1) /\ wf (self st1)
    /\ ext client_names (self st) (self st1)
    /\ quiet (world st) (world st1)
    /\ memo_client (__dict__ (self st1)) = Some c
    /\ let p := VOpaque (next_id (world st1)) in
       let st2 := after (PassportMake c (__config (self st1)) p) st1 in
       let call := ServiceCall c name args (("_soapheaders", p) :: kw) in
       request name args kw st
       = if has_operation name then
           if has_key "_soapheaders" kw then (Err TypeError, st2)
           else (respond (call :: trace (world st2)), recorded call st2)
         else (Err AttributeError, st1).
Proof.
  intros Hwf.
  destruct (client_spec st Hwf) as (c & st1 & R1 & W1 & X1 & Q1 & M1).
  exists c, st1. split_and!; try done.
  intros p st2 call. unfold request, service.
  rewrite (bind_ok _ _ _ _ _ R1). unfold getattr_operation.
  destruct (has_operation name); [|reflexivity].
  rewrite (bind_ok _ _ st1 (c, name) st1) by reflexivity.
  rewrite (bind_ok _ _ _ _ _ (generate_passport_hit c st1 M1)).
  fold p. fold st2. unfold lift, bind at 1. rewrite merge_soapheaders.
  by destruct (has_key "_soapheaders" kw).
Qed.

(** A comprehension that reads [Core] for every element, on an instance
    whose client is stored. *)
Lemma for_in_Core {A} (g : Factory -> A -> value) (xs : list A) :
  forall st c,
  wf (self st) -> memo_client (__dict__ (self st)) = Some c ->
  exists st',
    for_in (fun x => core <- Core ;; ret (g core x)) xs st
    = (Ok (map (g (type_factory c (namespace_of (self st) P_Core))) xs), st')
    /\ wf (self st')
    /\ ext ("Core" :: client_names) (self st) (self st')
    /\ quiet (world st) (world st')
    /\ memo_client (__dict__ (self st')) = Some c.
Proof.
  induction xs as [|x xs IH]; intros st c Hwf Hc.
  - exists st. split_and!; try done; [apply ext_refl | apply quiet_refl].
  - destruct (factory_spec P_Core st Hwf)
      as (c' & st1 & R1 & W1 & X1 & Q1 & M1 & _).
    assert (c' = c) as ->.
    { apply (ext_client _ _ _ X1) in Hc. by simplify_eq. }
    destruct (IH st1 c W1 M1) as (st2 & R2 & W2 & X2 & Q2 & M2).
    rewrite (ext_namespace_of _ _ _ P_Core X1) in R2.
    exists st2. split_and!; try done.
    + change (property_get P_Core st) with (Core st) in R1.
      assert ((core <- Core ;; ret (g core x)) st
              = (Ok (g (type_factory c (namespace_of (self st) P_Core)) x),
                 st1)) as Hhd.
      { by rewrite (bind_ok _ _ _ _ _ R1). }
      cbn [for_in map].
      by rewrite (bind_ok _ _ _ _ _ Hhd), (bind_ok _ _ _ _ _ R2).
    + apply (ext_trans _ _ _ _ _ _ X1 X2); auto.
    + by eapply quiet_trans.
Qed.

(** The decorator, once the wrapped method has returned or raised. *)
Lemma WebServiceCall_eq {Args} path extract (fn : Args -> M value) args
    st r st1 :
  fn args st = (r, st1) ->
  WebServiceCall path extract fn args st
  = match r with
    | Ok x0 =>
        match match path with
              | Some p => getattr_path x0 (split "." p)
              | None => Ok x0
              end with
        | Ok xn =>
            match extract with
            | Some e => e xn st1
            | None => (Ok xn, st1)
            end
        | Err e => (Err e, st1)
        end
    | Err e => (Err e, st1)
    end.
Proof.
  intros Hfn. unfold WebServiceCall. unfold bind at 1. rewrite Hfn.
  destruct r as [x0|e]; [|reflexivity].
  destruct path as [p|]; unfold bind at 1, lift, ret.
  - destruct (getattr_path x0 (split "." p)) as [xn|e]; [|reflexivity].
    destruct extract as [e|]; [|reflexivity].
    apply (bind_ret_r (e xn)).
  - destruct extract as [e|]; [|reflexivity].
    apply (bind_ret_r (e x0)).
Qed.

(** The decorators of the class leave the state as the method left it. *)
Lemma getList_state rt ii ee st :
  (getList rt ii ee st).2 = (getList_fn (rt, ii, ee) st).2.
Proof.
  unfold getList.
  destruct (getList_fn (rt, ii, ee) st) as [r st1] eqn:Hfn.
  rewrite (WebServiceCall_eq _ _ _ _ _ _ _ Hfn).
  destruct r as [x0|e]; [|reflexivity].
  by destruct (getattr_path x0 _).
Qed.

Lemma getItemAvailability_state ii ee st :
  (getItemAvailability ii ee st).2 = (getItemAvailability_fn (ii, ee) st).2.
Proof.
  unfold getItemAvailability.
  destruct (getItemAvailability_fn (ii, ee) st) as [r st1] eqn:Hfn.
  rewrite (WebServiceCall_eq _ _ _ _ _ _ _ Hfn).
  destruct r as [x0|e]; [|reflexivity].
  by destruct (getattr_path x0 _).
Qed.

Lemma getList_fn_eq rt ii ee st :
  wf (self st) -> seq_truthy ii || seq_truthy ee = true ->
  exists c st3,
    wf (self st3)
    /\ ext ("Messages" :: "Core" :: client_names) (self st) (self st3)
    /\ quiet (world st) (world st3)
    /\ memo_client (__dict__ (self st3)) = Some c
    /\ let p := VOpaque (next_id (world st3)) in
       let st4 := after (PassportMake c (__config (self st3)) p) st3 in
       let call :=
         ServiceCall c "getList"
           [get_list_request (underscored_version_no_micro (self st))
              rt ii ee]
           [("_soapheaders", p)] in
       getList_fn (rt, ii, ee) st
       = (respond (call :: trace (world st4)), recorded call st4).
Proof.
  intros Hwf Hids.
  destruct (factory_spec P_Messages st Hwf)
    as (c & st1 & R1 & W1 & X1 & Q1 & M1 & _).
  change (property_get P_Messages st) with (Messages st) in R1.
  destruct (for_in_Core
              (fun core internalId =>
                 factory_new core "RecordRef"
                   [("type", VStr rt); ("internalId", VInt internalId)])
              ii st1 c W1 M1) as (st2 & R2 & W2 & X2 & Q2 & M2).
  destruct (for_in_Core
              (fun core externalId =>
                 factory_new core "RecordRef"
                   [("type", VStr rt); ("externalId", VStr externalId)])
              ee st2 c W2 M2) as (st3 & R3 & W3 & X3 & Q3 & M3).
  assert (ext ("Messages" :: "Core" :: client_names) (self st) (self st2))
    as X12.
  { apply (ext_trans _ _ _ _ _ _ X1 X2);
      intros x; cbn [property_name]; rewrite !elem_of_cons; tauto. }
  assert (ext ("Messages" :: "Core" :: client_names) (self st) (self st3))
    as X13.
  { apply (ext_trans _ _ _ _ _ _ X12 X3);
      intros x; rewrite !elem_of_cons; tauto. }
  exists c, st3. split_and!; try done.
  { eapply quiet_trans; [exact Q1|]. by eapply quiet_trans. }
  intros p st4 call.
  destruct (request_eq "getList"
              [get_list_request (underscored_version_no_micro (self st))
                 rt ii ee] [] st3 W3)
    as (c' & st3' & Rc & _ & _ & _ & _ & Rq).
  rewrite (client_hit _ _ M3) in Rc.
  injection Rc as <- <-. cbn [has_key assoc] in Rq.
  change (has_operation "getList") with true in Rq.
  unfold getList_fn. rewrite Hids. unfold assert_.
  rewrite (bind_ok _ _ st tt st) by reflexivity.
  rewrite (bind_ok _ _ _ _ _ R1), (bind_ok _ _ _ _ _ R2),
    (bind_ok _ _ _ _ _ R3).
  rewrite (ext_namespace_of _ _ _ P_Core X12),
    (ext_namespace_of _ _ _ P_Core X1).
  exact Rq.
Qed.

Lemma getItemAvailability_fn_eq ii ee st :
  wf (self st) -> seq_truthy ii || seq_truthy ee = true ->
  exists c st1 kw,
    client st = (Ok c, st1) /\ wf (self st1)
    /\ ext client_names (self st) (self st1)
    /\ quiet (world st) (world st1)
    /\ let p := VOpaque (next_id (world st1)) in
       let st2 := after (PassportMake c (__config (self st1)) p) st1 in
       let call :=
         ServiceCall c "getItemAvailability" [] (("_soapheaders", p) :: kw) in
       getItemAvailability_fn (ii, ee) st
       = (respond (call :: trace (world st2)), recorded call st2).
Proof.
  intros Hwf Hids. unfold getItemAvailability_fn. rewrite Hids.
  unfold assert_. rewrite (bind_ok _ _ st tt st) by reflexivity.
  match goal with
  | |- context [request ?n ?a ?k st] =>
      destruct (request_eq n a k st Hwf)
        as (c & st1 & R1 & W1 & X1 & Q1 & M1 & Rq); exists c, st1, k
  end.
  split_and!; try done.
Qed.

(** ** Every use keeps the invariant *)

Lemma ext_weaken names names' ns ns' :
  ext names ns ns' -> (forall x, x ∈ names -> x ∈ names') -> ext names' ns ns'.
Proof.
  intros X Hsub.
  apply (ext_trans names [] names' ns ns' ns' X (ext_refl _ _)); [done|].
  by intros x ?%elem_of_nil.
Qed.

Lemma read_spec a st :
  wf (self st) ->
  exists v st',
    read a st = (Ok v, st') /\ wf (self st')
    /\ ext (cached_name a :: client_names) (self st) (self st')
    /\ quiet (world st) (world st')
    /\ slot_of a (__dict__ (self st')) = Some v.
Proof.
  intros Hwf. destruct a as [| | | | |p]; cbn [read cached_name slot_of].
  - destruct (wsdl_url_spec st Hwf) as (v & st' & R & W & X & Q & Hm).
    exists (A_str v), st'. rewrite (bind_ok _ _ _ _ _ R), Hm.
    split_and!; try done. eapply ext_weaken; [exact X|].
    intros x; unfold client_names; rewrite !elem_of_cons; tauto.
  - destruct (cache_spec st Hwf) as (v & st' & R & W & X & Q & Hm).
    exists (A_cache v), st'. rewrite (bind_ok _ _ _ _ _ R), Hm.
    split_and!; try done. eapply ext_weaken; [exact X|].
    intros x; unfold client_names; rewrite !elem_of_cons; tauto.
  - destruct (session_spec st Hwf) as (v & st' & R & W & X & Q & Hm).
    exists (A_session v), st'. rewrite (bind_ok _ _ _ _ _ R), Hm.
    split_and!; try done. eapply ext_weaken; [exact X|].
    intros x; unfold client_names; rewrite !elem_of_cons; tauto.
  - destruct (client_spec st Hwf) as (v & st' & R & W & X & Q & Hm).
    exists (A_client v), st'. rewrite (bind_ok _ _ _ _ _ R), Hm.
    split_and!; try done. eapply ext_weaken; [exact X|].
    intros x; unfold client_names; rewrite !elem_of_cons; tauto.
  - destruct (transport_spec st Hwf) as (v & st' & R & W & X & Q & Hm).
    exists (A_transport v), st'. rewrite (bind_ok _ _ _ _ _ R), Hm.
    split_and!; try done. eapply ext_weaken; [exact X|].
    intros x; unfold client_names; rewrite !elem_of_cons; tauto.
  - destruct (factory_spec p st Hwf) as (c & st' & R & W & X & Q & _ & Hm).
    eexists (A_factory _), st'. rewrite (bind_ok _ _ _ _ _ R), Hm.
    by split_and!.
Qed.

(** A stored entry is returned as it is, and nothing changes. *)
Lemma read_hit a st v :
  slot_of a (__dict__ (self st)) = Some v -> read a st = (Ok v, st).
Proof.
  destruct a as [| | | | |p]; cbn [read slot_of]; intros H;
    apply fmap_Some in H as (x & Hx & ->).
  - unfold wsdl_url.
    by rewrite (bind_ok _ _ _ _ _ (cached_property_hit _ _ _ _ _ _ Hx)).
  - unfold cache.
    by rewrite (bind_ok _ _ _ _ _ (cached_property_hit _ _ _ _ _ _ Hx)).
  - unfold session.
    by rewrite (bind_ok _ _ _ _ _ (cached_property_hit _ _ _ _ _ _ Hx)).
  - unfold client.
    by rewrite (bind_ok _ _ _ _ _ (cached_property_hit _ _ _ _ _ _ Hx)).
  - unfold transport.
    by rewrite (bind_ok _ _ _ _ _ (cached_property_hit _ _ _ _ _ _ Hx)).
  - rewrite property_get_eq. unfold cached_factory.
    by rewrite (bind_ok _ _ _ _ _
                  (cached_property_hit _ (fun d => memo_factories d !! _)
                     _ _ _ _ Hx)).
Qed.

Lemma ext_slot names ns ns' a v :
  ext names ns ns' ->
  slot_of a (__dict__ ns) = Some v -> slot_of a (__dict__ ns') = Some v.
Proof.
  intros X. destruct a as [| | | | |p]; cbn [slot_of]; intros H;
    apply fmap_Some in H as (x & Hx & ->); apply fmap_Some; exists x;
    split; try done.
  - by apply (ext_wsdl_url _ _ _ X).
  - by apply (ext_cache _ _ _ X).
  - by apply (ext_session _ _ _ X).
  - by apply (ext_client _ _ _ X).
  - by apply (ext_transport _ _ _ X).
  - by apply (ext_factories _ _ _ X).
Qed.

Lemma run_op_ok o st :
  wf (self st) ->
  wf (self (run_op o st))
  /\ (exists names, ext names (self st) (self (run_op o st)))
  /\ (next_id (world st) <= next_id (world (run_op o st)))%nat.
Proof.
  intros Hwf. destruct o as [a| |n args kw|rt ii ee|ii ee]; cbn [run_op].
  - destruct (read_spec a st Hwf) as (v & st' & -> & W & X & [Q _] & _).
    split_and!; eauto.
  - destruct (client_spec st Hwf) as (c & st1 & R & W & X & [Q _] & Hm).
    unfold generate_passport. rewrite (bind_ok _ _ _ _ _ R).
    simpl. split_and!; eauto.
  - destruct (request_eq n args kw st Hwf)
      as (c & st1 & R & W & X & [Q _] & Hm & ->).
    destruct (has_operation n), (has_key "_soapheaders" kw); simpl;
      split_and!; eauto.
  - rewrite getList_state.
    destruct (seq_truthy ii || seq_truthy ee) eqn:Hids.
    + destruct (getList_fn_eq rt ii ee st Hwf Hids)
        as (c & st3 & W & X & [Q _] & Hm & ->).
      simpl. split_and!; eauto.
    + unfold getList_fn. rewrite Hids. simpl.
      split_and!; [done| |lia]. exists []. apply ext_refl.
  - rewrite getItemAvailability_state.
    destruct (seq_truthy ii || seq_truthy ee) eqn:Hids.
    + destruct (getItemAvailability_fn_eq ii ee st Hwf Hids)
        as (c & st1 & kw & R & W & X & [Q _] & ->).
      simpl. split_and!; eauto.
    + unfold getItemAvailability_fn. rewrite Hids. simpl.
      split_and!; [done| |lia]. exists []. apply ext_refl.
Qed.

Lemma run_ops_ok os : forall st,
  wf (self st) ->
  wf (self (run_ops os st))
  /\ (exists names, ext names (self st) (self (run_ops os st)))
  /\ (next_id (world st) <= next_id (world (run_ops os st)))%nat.
Proof.
  induction os as [|o os IH]; intros st Hwf; cbn [run_ops fold_left].
  - split_and!; [done| |lia]. exists []. apply ext_refl.
  - destruct (run_op_ok o st Hwf) as (W1 & [n1 X1] & L1).
    destruct (IH _ W1) as (W2 & [n2 X2] & L2).
    split_and!; [done| |unfold run_ops in L2; lia].
    exists (n1 ++ n2).
    apply (ext_trans _ _ _ _ _ _ X1 X2); intros x; rewrite elem_of_app; auto.
Qed.

Lemma wf_empty ns : __dict__ ns = empty_memo -> wf ns.
Proof.
  intros H. split; rewrite H; simpl; try done; try (by constructor).
  intros name. split; [by intros ?%elem_of_nil|].
    unfold memoized. repeat case_decide; simpl;
      rewrite ?lookup_empty; by intros [? ?].
Qed.

(** What the constructor returns. *)
Lemma init_inv cfg sb v u c se ns0 :
  __init__ cfg sb v u c se = Ok ns0 ->
  sandbox ns0 = match sb with Some b => b | None => true end
  /\ version ns0 = match v with Some v' => v' | None => "2017.2.0" end
  /\ (forall v', v = Some v' -> re_match version_re v' = true)
  /\ _make_config cfg = Ok (__config ns0)
  /\ __wsdl_url ns0 = u /\ __cache ns0 = c /\ __session ns0 = se
  /\ __dict__ ns0 = empty_memo.
Proof.
  unfold __init__. destruct v as [v'|]; cbn [res_bind].
  - destruct (re_match version_re v') eqn:Hv; cbn [res_bind]; [|done].
    destruct (_make_config cfg) as [conf|e]; cbn [res_bind]; [|done].
    intros [= <-]. split_and!; try done. by intros ? [= <-].
  - destruct (_make_config cfg) as [conf|e]; cbn [res_bind]; [|done].
    intros [= <-]. split_and!; done.
Qed.

(** The invariant holds in every state of a constructed instance, whose
    constructor arguments never change. *)
Lemma reachable_wf ns0 st :
  __dict__ ns0 = empty_memo -> reachable ns0 st ->
  wf (self st) /\ exists names, ext names ns0 (self st).
Proof.
  intros H0. induction 1 as [w|st o Hr [W [n X]]].
  - split; [by apply wf_empty|]. exists []. apply ext_refl.
  - destruct (run_op_ok o st W) as (W1 & [n1 X1] & _). split; [done|].
    exists (n ++ n1).
    apply (ext_trans _ _ _ _ _ _ X X1); intros x; rewrite elem_of_app; auto.
Qed.

(** * Properties of the client *)

Lemma str_replace_dots (v : string) :
  str_replace "." "_" v = dots_to_underscores v.
Proof.
  induction v as [|c v IH]; [reflexivity|].
  cbn [str_replace dots_to_underscores]. rewrite IH.
  by destruct (Ascii.eqb c ".").
Qed.

(** The stored or built URL of a well-formed instance. *)
Lemma wsdl_url_value st :
  wf (self st) -> (wsdl_url st).1 = Ok (the_wsdl_url (self st)).
Proof.
  intros Hwf.
  destruct (wsdl_url_spec st Hwf) as (u & st' & -> & W & X & _ & Hm).
  cbn [fst]. f_equal.
  rewrite <- (ext_the_wsdl_url _ _ _ X). by apply (wf_wsdl_url _ W).
Qed.

(** The constructor arguments, in any later state of the instance. *)
Lemma reachable_attrs cfg sb v u c se ns0 st :
  __init__ cfg sb v u c se = Ok ns0 -> reachable ns0 st ->
  wf (self st)
  /\ sandbox (self st) = match sb with Some b => b | None => true end
  /\ version (self st) = match v with Some v' => v' | None => "2017.2.0" end
  /\ __config (self st) = __config ns0
  /\ __wsdl_url (self st) = u /\ __cache (self st) = c
  /\ __session (self st) = se.
Proof.
  intros Hinit Hr.
  destruct (init_inv _ _ _ _ _ _ _ Hinit)
    as (Hs & Hv & _ & _ & Hu & Hc & Hse & Hd).
  destruct (reachable_wf _ _ Hd Hr) as [W [n X]].
  pose proof (ext_attrs _ _ _ X) as E.
  split_and!; [done|rewrite E; simpl; congruence..].
Qed.

(** C1: for every version [v] the constructor accepts and every sandbox
    flag [s], in every state of the instance, the [wsdl_url] property is
    ['https://webservices.' ++ (if s then 'sandbox.' else '') ++
    'netsuite.com/wsdl/v' ++ (v with every '.' replaced by '_') ++
    '/netsuite.wsdl'] when no override was given, and is the override when
    a non-empty one was given. *)
Theorem wsdl_url_resolved cfg (s : bool) (v : string) (u : option string)
    c se ns0 st :
  __init__ cfg (Some s) (Some v) u c se = Ok ns0 ->
  reachable ns0 st ->
  (u = None ->
   (wsdl_url st).1
   = Ok ("https://webservices." +:+ (if s then "sandbox." else "")
         +:+ "netsuite.com/wsdl/v" +:+ dots_to_underscores v
         +:+ "/netsuite.wsdl"))
  /\ (forall o, u = Some o -> o <> "" -> (wsdl_url st).1 = Ok o).
Proof.
  intros Hinit Hr.
  destruct (reachable_attrs _ _ _ _ _ _ _ _ Hinit Hr)
    as (W & Hs & Hv & _ & Hu & _ & _).
  rewrite (wsdl_url_value st W). unfold the_wsdl_url.
  rewrite Hu, Hs, Hv. split.
  - intros ->. unfold expected_wsdl_url. by rewrite str_replace_dots.
  - intros o -> Ho. by destruct o.
Qed.

(** C9: the sandbox flag defaults to [True]: an instance built without
    [sandbox] and without a [wsdl_url] override has a WSDL URL on the
    sandbox host, which contains ['sandbox.']; with [sandbox=False] the URL
    is on the production host. *)
Theorem sandbox_default cfg v c se ns0 st :
  __init__ cfg None v None c se = Ok ns0 ->
  reachable ns0 st ->
  (wsdl_url st).1
  = Ok ("https://webservices.sandbox.netsuite.com/wsdl/v"
        +:+ dots_to_underscores (version ns0) +:+ "/netsuite.wsdl")
  /\ (exists url, (wsdl_url st).1 = Ok url /\ contains "sandbox." url)
  /\ (forall ns1 st1,
        __init__ cfg (Some false) v None c se = Ok ns1 ->
        reachable ns1 st1 ->
        (wsdl_url st1).1
        = Ok ("https://webservices.netsuite.com/wsdl/v"
              +:+ dots_to_underscores (version ns1) +:+ "/netsuite.wsdl")).
Proof.
  intros Hinit Hr.
  destruct (reachable_attrs _ _ _ _ _ _ _ _ Hinit Hr)
    as (W & Hs & Hv & _ & Hu & _ & _).
  destruct (init_inv _ _ _ _ _ _ _ Hinit) as (_ & Hv0 & _).
  assert ((wsdl_url st).1
          = Ok ("https://webservices.sandbox.netsuite.com/wsdl/v"
                +:+ dots_to_underscores (version ns0) +:+ "/netsuite.wsdl"))
    as Hurl.
  { rewrite (wsdl_url_value st W). unfold the_wsdl_url.
    rewrite Hu, Hs, Hv, Hv0. unfold expected_wsdl_url.
    by rewrite str_replace_dots. }
  split_and!.
  - exact Hurl.
  - eexists. split; [exact Hurl|].
    exists "https://webservices.",
      ("netsuite.com/wsdl/v" +:+ dots_to_underscores (version ns0)
       +:+ "/netsuite.wsdl").
    reflexivity.
  - intros ns1 st1 Hinit1 Hr1.
    destruct (reachable_attrs _ _ _ _ _ _ _ _ Hinit1 Hr1)
      as (W1 & Hs1 & Hv1 & _ & Hu1 & _ & _).
    destruct (init_inv _ _ _ _ _ _ _ Hinit1) as (_ & Hv2 & _).
    rewrite (wsdl_url_value st1 W1). unfold the_wsdl_url.
    rewrite Hu1, Hs1, Hv1, Hv2. unfold expected_wsdl_url.
    by rewrite str_replace_dots.
Qed.

(** C10: the constructor accepts a version [v] exactly when [v] begins with
    digits, a dot, digits, a dot and digits, whatever follows (so
    ['1.2.3-beta'] is accepted), and raises [AssertionError] otherwise;
    without a version the class default ['2017.2.0'] is kept. *)
Theorem version_validation cfg sb u c se :
  (forall v, ~ version_shape v ->
             __init__ cfg sb (Some v) u c se = Err AssertionError)
  /\ (forall v conf,
        version_shape v -> _make_config cfg = Ok conf ->
        exists ns, __init__ cfg sb (Some v) u c se = Ok ns /\ version ns = v)
  /\ (forall v ns, __init__ cfg sb (Some v) u c se = Ok ns -> version_shape v)
  /\ (forall conf,
        _make_config cfg = Ok conf ->
        exists ns, __init__ cfg sb None u c se = Ok ns
                   /\ version ns = "2017.2.0")
  /\ version_shape "1.2.3-beta".
Proof.
  split_and!.
  - intros v Hv. unfold __init__.
    destruct (re_match version_re v) eqn:E; [|reflexivity].
    by apply re_match_version in E.
  - intros v conf Hv Hc. apply re_match_version in Hv.
    unfold __init__. rewrite Hv, Hc. cbn [res_bind]. by eexists.
  - intros v ns Hinit. apply re_match_version.
    by apply (init_inv _ _ _ _ _ _ _ Hinit).
  - intros conf Hc. unfold __init__. rewrite Hc. cbn [res_bind]. by eexists.
  - apply re_match_version. by vm_compute.
Qed.

Lemma memoized_slot a d :
  memoized (cached_name a) d <-> is_Some (slot_of a d).
Proof.
  destruct a as [| | | | |p]; cbn [cached_name slot_of];
    rewrite ?memoized_factory, fmap_is_Some; reflexivity.
Qed.

Lemma filter_absent (name : string) (l : list string) :
  name ∉ l -> filter (fun n => n = name) l = [].
Proof.
  induction l as [|x l IH]; [done|]. intros [Hne Hl]%not_elem_of_cons.
  rewrite filter_cons_False; [by apply IH | by intros ->].
Qed.

Lemma runs_once name d :
  NoDup (built d) -> name ∈ built d -> runs name d = 1%nat.
Proof.
  unfold runs. induction 1 as [|x l Hx Hl IH]; [by intros ?%elem_of_nil|].
  intros [->|Hin]%elem_of_cons.
  - rewrite filter_cons_True by done. by rewrite filter_absent.
  - rewrite filter_cons_False; [by apply IH|]. by intros ->.
Qed.

Lemma runs_at_most_once name d : NoDup (built d) -> (runs name d <= 1)%nat.
Proof.
  intros Hnd. destruct (decide (name ∈ built d)) as [Hin|Hout].
  - by rewrite runs_once.
  - unfold runs. rewrite filter_absent by done. simpl. lia.
Qed.

(** C3: in every state of an instance, a read of a cached accessor
    ([wsdl_url], [cache], [session], [client], [transport] or a namespace
    factory) returns a value, and after it, whatever the instance is used
    for, every read of that accessor returns the same value and leaves the
    state as it is, and the builder has run exactly once; no builder has
    ever run twice. *)
Theorem cached_accessors_build_once cfg sb v u c se ns0 st (a : cached) :
  __init__ cfg sb v u c se = Ok ns0 ->
  reachable ns0 st ->
  (forall name, (runs name (__dict__ (self st)) <= 1)%nat)
  /\ exists x st1,
       read a st = (Ok x, st1)
       /\ forall os,
            read a (run_ops os st1) = (Ok x, run_ops os st1)
            /\ runs (cached_name a) (__dict__ (self (run_ops os st1))) = 1%nat.
Proof.
  intros Hinit Hr.
  destruct (reachable_attrs _ _ _ _ _ _ _ _ Hinit Hr) as (W & _).
  split.
  - intros name. apply runs_at_most_once, (wf_built_once _ W).
  - destruct (read_spec a st W) as (x & st1 & R & W1 & X1 & Q1 & Hm).
    exists x, st1. split; [done|]. intros os.
    destruct (run_ops_ok os st1 W1) as (W2 & [n X2] & _).
    pose proof (ext_slot _ _ _ a x X2 Hm) as Hm2. split.
    + by apply read_hit.
    + apply runs_once; [apply (wf_built_once _ W2)|].
      apply (wf_built_memo _ W2), memoized_slot. by rewrite Hm2.
Qed.

Lemma no_micro_eq ns :
  underscored_version_no_micro ns
  = no_micro (dots_to_underscores (version ns)).
Proof.
  unfold underscored_version_no_micro, underscored_version, no_micro.
  by rewrite rpartition_head, str_replace_dots.
Qed.

(** C5: in every state of an instance, every namespace factory accessor
    returns the type factory of the instance's client for the URN
    ['urn:' ++ name ++ '_' ++ V ++ '.' ++ sub_namespace ++
    '.webservices.netsuite.com'], where [(name, sub_namespace)] is the pair
    of the accessor and [V] is the version with dots replaced by underscores
    and the last component dropped; for version ['2017.2.0'], [V] is
    ['2017_2'] and [Core] is bound to
    ['urn:core_2017_2.platform.webservices.netsuite.com']. *)
Theorem namespace_factories cfg sb v u c se ns0 st (p : factory_property) :
  __init__ cfg sb v u c se = Ok ns0 ->
  reachable ns0 st ->
  let V := no_micro (dots_to_underscores (version ns0)) in
  (exists cl st',
     property_get p st
     = (Ok (type_factory cl
              ("urn:" +:+ (property_pair p).1 +:+ "_" +:+ V +:+ "."
               +:+ (property_pair p).2 +:+ ".webservices.netsuite.com")),
        st')
     /\ client st' = (Ok cl, st'))
  /\ (version ns0 = "2017.2.0" ->
      V = "2017_2"
      /\ exists cl st',
           Core st
           = (Ok (type_factory cl
                    "urn:core_2017_2.platform.webservices.netsuite.com"),
              st')).
Proof.
  intros Hinit Hr V.
  destruct (reachable_attrs _ _ _ _ _ _ _ _ Hinit Hr) as (W & _ & Hv & _).
  destruct (init_inv _ _ _ _ _ _ _ Hinit) as (_ & Hv0 & _).
  assert (underscored_version_no_micro (self st) = V) as HV.
  { rewrite no_micro_eq. unfold V. by rewrite Hv, Hv0. }
  assert (forall q, exists cl st',
            property_get q st
            = (Ok (type_factory cl
                     (expected_urn (property_pair q).1 V (property_pair q).2)),
               st')
            /\ client st' = (Ok cl, st')) as Hall.
  { intros q.
    destruct (factory_spec q st W) as (cl & st' & R & _ & _ & _ & Hc & _).
    exists cl, st'. split; [|by apply client_hit].
    rewrite R. unfold namespace_of. by rewrite HV. }
  split; [apply Hall|].
  intros H2017. assert (V = "2017_2") as HV2.
  { unfold V. by rewrite H2017. }
  split; [done|]. destruct (Hall P_Core) as (cl & st' & R & _).
  exists cl, st'. rewrite HV2 in R. exact R.
Qed.

Lemma cache_value st :
  wf (self st) ->
  exists c st',
    cache st = (Ok c, st') /\ wf (self st')
    /\ match supplied cache_truthy (__cache (self st)) with
       | Some c0 => c = c0
       | None => exists id, c = SqliteCache id one_year
       end.
Proof.
  intros Hwf. destruct (cache_spec st Hwf) as (c & st' & R & W & X & _ & Hm).
  exists c, st'. split_and!; try done.
  pose proof (wf_cache _ W c Hm) as Hc.
  by rewrite (ext_attrs _ _ _ X) in Hc.
Qed.

(** C7, as the code has it: without a cache argument, and with one that is
    false in a boolean context, the [cache] property is a [SqliteCache]
    whose timeout is [60*60*24*365] seconds; with one that is true, it is
    that object; and the transport is built from the value of the [cache]
    property and the value of the [session] property. *)
Theorem cache_and_transport cfg sb v u (oc : option Cache) se ns0 st :
  __init__ cfg sb v u oc se = Ok ns0 ->
  reachable ns0 st ->
  (exists c st',
     cache st = (Ok c, st')
     /\ match oc with
        | Some c0 =>
            if cache_truthy c0 then c = c0
            else exists id, c = SqliteCache id (60 * 60 * 24 * 365)
        | None => exists id, c = SqliteCache id (60 * 60 * 24 * 365)
        end)
  /\ (exists t st1,
        transport st = (Ok t, st1)
        /\ (cache st1).1 = Ok (transport_cache t)
        /\ (session st1).1 = Ok (transport_session t)).
Proof.
  intros Hinit Hr.
  destruct (reachable_attrs _ _ _ _ _ _ _ _ Hinit Hr)
    as (W & _ & _ & _ & _ & Hc & _).
  split.
  - destruct (cache_value st W) as (c0 & st' & R & _ & Hv).
    exists c0, st'. split; [done|]. rewrite Hc in Hv.
    destruct oc as [c1|]; [|done]. cbn [supplied] in Hv.
    by destruct (cache_truthy c1).
  - destruct (transport_spec st W) as (t & st1 & R & W1 & _ & _ & Hm).
    exists t, st1. split; [done|].
    destruct (wf_transport _ W1 t Hm) as [Hs Hca]. split.
    + unfold cache. by rewrite (cached_property_hit _ _ _ _ _ _ Hca).
    + unfold session. by rewrite (cached_property_hit _ _ _ _ _ _ Hs).
Qed.

(** The loop of the decorator follows a chain of attribute reads. *)
Lemma getattr_path_chain (parts : list string) :
  forall (x0 : value) (xs : list value) (xn : value),
  xs !! 0%nat = Some x0 ->
  (forall (i : nat) part,
     parts !! i = Some part ->
     exists xi xi1,
       xs !! i = Some xi /\ xs !! S i = Some xi1 /\ getattr xi part = Ok xi1) ->
  xs !! length parts = Some xn ->
  getattr_path x0 parts = Ok xn.
Proof.
  induction parts as [|part parts IH]; intros x0 xs xn H0 Hstep Hn.
  - simpl in *. congruence.
  - destruct (Hstep 0%nat part eq_refl) as (xi & xi1 & Hi & Hi1 & Hg).
    rewrite H0 in Hi. injection Hi as <-.
    cbn [getattr_path]. rewrite Hg. cbn [res_bind].
    destruct xs as [|y xs']; [done|].
    apply (IH xi1 xs' xn); [exact Hi1| |exact Hn].
    intros i part' Hp. exact (Hstep (S i) part' Hp).
Qed.

(** C4: a method wrapped by [WebServiceCall(p, extract=e)] returns [e(x_n)]
    where [x_0] is what the method returned and [x_{i+1}] is
    [getattr(x_i, part_i)] for the parts of [p] split on ['.'], in order;
    with [p] [None] there is no navigation ([x_n] is [x_0]), and with [e]
    [None] the value [x_n] is returned as it is. *)
Theorem WebServiceCall_spec {Args} (fn : Args -> M value)
    (p : option string) (e : option (value -> M value)) (args : Args)
    (st st1 : St) (x0 xn : value) (xs : list value) :
  fn args st = (Ok x0, st1) ->
  let parts := match p with Some path => split "." path | None => [] end in
  xs !! 0%nat = Some x0 ->
  (forall (i : nat) part,
     parts !! i = Some part ->
     exists xi xi1,
       xs !! i = Some xi /\ xs !! S i = Some xi1 /\ getattr xi part = Ok xi1) ->
  xs !! length parts = Some xn ->
  WebServiceCall p e fn args st
  = match e with
    | Some extract => extract xn st1
    | None => (Ok xn, st1)
    end
  /\ (p = None -> xn = x0).
Proof.
  intros Hfn parts H0 Hstep Hn.
  pose proof (getattr_path_chain parts x0 xs xn H0 Hstep Hn) as Hpath.
  split.
  - rewrite (WebServiceCall_eq _ _ _ _ _ _ _ Hfn).
    destruct p as [path|]; unfold parts in Hpath.
    + by rewrite Hpath.
    + cbn [getattr_path] in Hpath. by injection Hpath as ->.
  - intros ->. cbn in Hn. congruence.
Qed.


Lemma res_map_Forall2 {A B} (f : A -> res B) xs ys :
  Forall2 (fun x y => f x = Ok y) xs ys -> res_map f xs = Ok ys.
Proof.
  induction 1 as [|x y xs ys Hxy _ IH]; [reflexivity|].
  cbn [res_map]. by rewrite Hxy, IH.
Qed.

Lemma seq_truthy_or {A B} (xs : list A) (ys : list B) :
  xs <> [] \/ ys <> [] -> seq_truthy xs || seq_truthy ys = true.
Proof. destruct xs, ys; simpl; intros [H|H]; done. Qed.

(** The decorated [getList], once it has passed its assertion. *)
Lemma getList_eq rt ii ee st :
  wf (self st) -> ii <> [] \/ ee <> [] ->
  exists cl st3,
    wf (self st3)
    /\ ext ("Messages" :: "Core" :: client_names) (self st) (self st3)
    /\ quiet (world st) (world st3)
    /\ let p := VOpaque (next_id (world st3)) in
       let st4 := after (PassportMake cl (__config (self st3)) p) st3 in
       let call :=
         ServiceCall cl "getList"
           [get_list_request (underscored_version_no_micro (self st))
              rt ii ee]
           [("_soapheaders", p)] in
       (getList rt ii ee st).2 = recorded call st4
       /\ (getList rt ii ee st).1
          = res_bind (respond (call :: trace (world st4))) (fun resp =>
            res_bind (getattr_path resp
                        ["body"; "readResponseList"; "readResponse"])
              (fun found =>
            res_bind (iter found) (fun rs =>
            res_bind (res_map (fun r => getitem r "record") rs)
              (fun records => Ok (VList records))))).
Proof.
  intros Hwf Hids. apply seq_truthy_or in Hids.
  destruct (getList_fn_eq rt ii ee st Hwf Hids)
    as (cl & st3 & W & X & Q & Hm & Hfn).
  exists cl, st3. split_and!; try done. intros p st4 call.
  unfold getList. rewrite (WebServiceCall_eq _ _ _ _ _ _ _ Hfn).
  fold p. fold st4. fold call.
  change (split "." "body.readResponseList.readResponse")
    with ["body"; "readResponseList"; "readResponse"].
  destruct (respond (call :: trace (world st4))) as [resp|e]; [|done].
  cbn [res_bind].
  destruct (getattr_path resp _) as [found|e]; [|done].
  cbn [res_bind]. unfold getList_extract, lift. done.
Qed.

(** C6: for every [recordType] and identifiers of which at least one
    sequence is not empty, [getList] calls the service ['getList'] with one
    [GetListRequest] whose [baseRef] is the [RecordRef]s of the internal
    identifiers, in order, followed by those of the external identifiers, in
    order, each of type [recordType], signed with a passport; and it returns
    the list of the ['record'] of each element of
    [response.body.readResponseList.readResponse]. *)
Theorem getList_dispatch cfg sb v u c se ns0 st rt ii ee :
  __init__ cfg sb v u c se = Ok ns0 ->
  reachable ns0 st ->
  ii <> [] \/ ee <> [] ->
  let V := no_micro (dots_to_underscores (version ns0)) in
  let st' := (getList rt ii ee st).2 in
  exists cl p pre,
    trace (world st')
    = ServiceCall cl "getList" [get_list_request V rt ii ee]
        [("_soapheaders", p)]
      :: PassportMake cl (__config ns0) p :: pre ++ trace (world st)
    /\ Forall construction pre
    /\ forall resp body lst items records,
         respond (trace (world st')) = Ok resp ->
         getattr resp "body" = Ok body ->
         getattr body "readResponseList" = Ok lst ->
         getattr lst "readResponse" = Ok (VList items) ->
         Forall2 (fun item r => getitem item "record" = Ok r) items records ->
         (getList rt ii ee st).1 = Ok (VList records).
Proof.
  intros Hinit Hr Hids V st'.
  destruct (reachable_attrs _ _ _ _ _ _ _ _ Hinit Hr)
    as (W & _ & Hv & Hcfg & _).
  destruct (init_inv _ _ _ _ _ _ _ Hinit) as (_ & Hv0 & _).
  assert (underscored_version_no_micro (self st) = V) as HV.
  { rewrite no_micro_eq. unfold V. by rewrite Hv, Hv0. }
  destruct (getList_eq rt ii ee st W Hids)
    as (cl & st3 & W3 & X3 & (_ & pre & Htr & Hpre) & Hst & Hres).
  assert (__config (self st3) = __config ns0) as Hcfg3.
  { rewrite (ext_attrs _ _ _ X3). simpl. exact Hcfg. }
  rewrite HV, Hcfg3 in Hst, Hres.
  exists cl, (VOpaque (next_id (world st3))), pre. unfold st'.
  rewrite Hst. split_and!.
  - simpl. by rewrite Htr.
  - done.
  - intros resp body lst items records Hresp Hb Hl Hi Hrec.
    rewrite Hres. simpl in Hresp. simpl. rewrite Hresp. cbn [res_bind].
    cbn [getattr_path]. rewrite Hb. cbn [res_bind]. rewrite Hl.
    cbn [res_bind]. rewrite Hi. cbn [res_bind iter].
    by rewrite (res_map_Forall2 _ _ _ Hrec).
Qed.

Lemma getattr_path_error parts : forall x e,
  getattr_path x parts = Err e -> e = AttributeError.
Proof.
  induction parts as [|part parts IH]; intros x e; cbn [getattr_path];
    [done|].
  destruct (getattr x part) as [y|e'] eqn:Hg; cbn [res_bind].
  - apply IH.
  - intros [= <-]. unfold getattr in Hg.
    destruct x; try (by injection Hg as <-).
    destruct (assoc part fields); [done|]. by injection Hg as <-.
Qed.

Lemma res_map_getitem_error key xs e :
  res_map (fun r => getitem r key) xs = Err e -> e <> AssertionError.
Proof.
  induction xs as [|x xs IH]; cbn [res_map]; [done|].
  destruct (getitem x key) as [y|e'] eqn:Hg; cbn [res_bind].
  - destruct (res_map _ xs) as [ys|e'']; cbn [res_bind]; [done|].
    intros [= <-]. by apply IH.
  - intros [= <-]. unfold getitem in Hg.
    destruct x; try (by injection Hg as <-);
      (destruct (assoc key _); [done|]; by injection Hg as <-).
Qed.

(** C8: [getList] and [getItemAvailability] called with both sequences
    empty raise [AssertionError] and leave the instance and the world as
    they were (nothing is dispatched); with at least one sequence non-empty
    they dispatch their service call, and raise [AssertionError] only if the
    answer of the service does. *)
Theorem empty_ids_rejected cfg sb v u c se ns0 st rt ii ee :
  __init__ cfg sb v u c se = Ok ns0 ->
  reachable ns0 st ->
  getList rt [] [] st = (Err AssertionError, st)
  /\ getItemAvailability [] [] st = (Err AssertionError, st)
  /\ (ii <> [] \/ ee <> [] ->
      (exists cl args kw rest,
         trace (world (getList rt ii ee st).2)
         = ServiceCall cl "getList" args kw :: rest)
      /\ (respond (trace (world (getList rt ii ee st).2))
          <> Err AssertionError ->
          (getList rt ii ee st).1 <> Err AssertionError)
      /\ (exists cl args kw rest,
            trace (world (getItemAvailability ii ee st).2)
            = ServiceCall cl "getItemAvailability" args kw :: rest)
      /\ (respond (trace (world (getItemAvailability ii ee st).2))
          <> Err AssertionError ->
          (getItemAvailability ii ee st).1 <> Err AssertionError)).
Proof.
  intros Hinit Hr.
  destruct (reachable_attrs _ _ _ _ _ _ _ _ Hinit Hr) as (W & _).
  split; [reflexivity|]. split; [reflexivity|]. intros Hids. split_and!.
  - destruct (getList_eq rt ii ee st W Hids)
      as (cl & st3 & _ & _ & _ & Hst & _).
    rewrite Hst. simpl. by eexists _, _, _, _.
  - destruct (getList_eq rt ii ee st W Hids)
      as (cl & st3 & _ & _ & _ & Hst & Hres).
    rewrite Hst. intros Hne Heq. rewrite Hres in Heq.
    cbn [after recorded world trace] in Hne, Heq.
    destruct (respond _) as [resp|e]; cbn [res_bind] in Heq; [|congruence].
    destruct (getattr_path resp _) as [found|e] eqn:Hp; cbn [res_bind] in Heq.
    + destruct (iter found) as [rs|e] eqn:Hi; cbn [res_bind] in Heq.
      * destruct (res_map _ rs) as [records|e] eqn:Hm; cbn [res_bind] in Heq;
          [done|].
        injection Heq as ->. by apply res_map_getitem_error in Hm.
      * unfold iter in Hi. by destruct found; simplify_eq.
    + apply getattr_path_error in Hp. congruence.
  - apply seq_truthy_or in Hids.
    destruct (getItemAvailability_fn_eq ii ee st W Hids)
      as (cl & st1 & kw & _ & _ & _ & _ & Hfn).
    rewrite getItemAvailability_state, Hfn. simpl. by eexists _, _, _, _.
  - apply seq_truthy_or in Hids.
    destruct (getItemAvailability_fn_eq ii ee st W Hids)
      as (cl & st1 & kw & _ & _ & _ & _ & Hfn).
    rewrite getItemAvailability_state, Hfn. intros Hne Heq.
    unfold getItemAvailability in Heq.
    rewrite (WebServiceCall_eq _ _ _ _ _ _ _ Hfn) in Heq.
    cbn [after recorded world trace snd] in Hne, Heq.
    destruct (respond _) as [resp|e]; [|cbn [fst] in Heq; congruence].
    destruct (getattr_path resp _) as [found|e] eqn:Hp; [done|].
    apply getattr_path_error in Hp. cbn [fst] in Heq. congruence.
Qed.

(** * Further properties *)

(** ** [replace] and [partition] *)

Lemma startswith_app (p s : string) : startswith p (p +:+ s) = true.
Proof.
  induction p as [|a p IH]; [reflexivity|].
  rewrite str_app_cons. cbn [startswith]. by rewrite Ascii.eqb_refl, IH.
Qed.

Lemma replace_go_skip old new (p s : string) :
  replace_go old new (String.length p) (p +:+ s) = replace_go old new 0 s.
Proof.
  induction p as [|c p IH]; [reflexivity|].
  rewrite str_app_cons. cbn [String.length replace_go]. apply IH.
Qed.

(** An occurrence at the front is replaced, and the scan goes on behind
    it. *)
Lemma replace_occurrence old new (s : string) :
  old <> "" -> replace old new (old +:+ s) = new +:+ replace old new s.
Proof.
  destruct old as [|a old]; [done|]. intros _. unfold replace.
  pose proof (startswith_app (String a old) s) as H.
  rewrite str_app_cons in *. cbn [replace_go]. rewrite H.
  cbn [String.length pred]. f_equal. apply replace_go_skip.
Qed.

(** A character that no occurrence starts at is kept. *)
Lemma replace_other old new c (s : string) :
  startswith old (String c s) = false ->
  replace old new (String c s) = String c (replace old new s).
Proof.
  intros H. destruct old as [|a old]; [discriminate H|].
  unfold replace. cbn [replace_go]. by rewrite H.
Qed.

(** On a one-character [old], [replace] is the character-wise
    [str_replace]. *)
Lemma replace_char old new (s : string) :
  replace (String old "") new s = str_replace old new s.
Proof.
  unfold replace. induction s as [|c s IH]; [reflexivity|].
  cbn [replace_go str_replace startswith String.length pred].
  rewrite andb_true_r, (Ascii.eqb_sym old c), IH.
  by destruct (Ascii.eqb c old).
Qed.

Lemma split1_first sep (h t : string) :
  has_char sep h = false -> split1 sep (h +:+ String sep t) = Some (h, t).
Proof.
  induction h as [|c h IH]; intros H.
  - change ("" +:+ String sep t) with (String sep t). cbn [split1].
    by rewrite Ascii.eqb_refl.
  - cbn [has_char] in H. apply orb_false_elim in H as [Hc Hh].
    rewrite str_app_cons. cbn [split1]. by rewrite Hc, IH.
Qed.

Lemma split1_absent sep (s : string) :
  has_char sep s = false -> split1 sep s = None.
Proof.
  induction s as [|c s IH]; intros H; [reflexivity|].
  cbn [has_char] in H. apply orb_false_elim in H as [Hc Hs].
  cbn [split1]. by rewrite Hc, IH.
Qed.

Lemma partition_first sep (h t : string) :
  has_char sep h = false ->
  partition sep (h +:+ String sep t) = (h, String sep "", t).
Proof. intros H. unfold partition. by rewrite split1_first. Qed.

Lemma partition_absent sep (s : string) :
  has_char sep s = false -> partition sep s = (s, "", "").
Proof. intros H. unfold partition. by rewrite split1_absent. Qed.

(** ** The host name *)

Ltac next_char b Hr :=
  let c := fresh "c" in
  destruct b as [|c b];
  [ destruct Hr as [->|[? ->]]; reflexivity
  | rewrite str_app_cons; cbn [startswith];
    match goal with
    | |- context [Ascii.eqb ?a c] =>
        destruct (Ascii.eqb_spec a c) as [<-|]; [cbn [andb]|reflexivity]
    end ].

(** No occurrence of ['https://'] starts in a host part that has no slash
    and does not end in ['https:']. *)
Lemma no_occurrence (b rest : string) :
  has_char "/" b = false -> endswith "https:" b = false ->
  rest = "" \/ (exists p, rest = "/" +:+ p) ->
  startswith "https://" (b +:+ rest) = false.
Proof.
  intros Hs He Hr. do 6 next_char b Hr.
  destruct b as [|c b]; [vm_compute in He; discriminate He|].
  rewrite str_app_cons. cbn [startswith].
  destruct (Ascii.eqb_spec "/" c) as [<-|]; [|reflexivity].
  vm_compute in Hs. discriminate Hs.
Qed.

Lemma replace_host (host rest : string) :
  has_char "/" host = false -> endswith "https:" host = false ->
  rest = "" \/ (exists p, rest = "/" +:+ p) ->
  replace "https://" "" (host +:+ rest)
  = host +:+ replace "https://" "" rest.
Proof.
  induction host as [|c h IH]; intros Hs He Hr; [reflexivity|].
  rewrite !str_app_cons. rewrite replace_other.
  - rewrite IH; [reflexivity| |  |exact Hr].
    + cbn [has_char] in Hs. by apply orb_false_elim in Hs as [_ Hs].
    + change (endswith "https:" (String c h))
        with (String.eqb "https:" (String c h) || endswith "https:" h) in He.
      by apply orb_false_elim in He as [_ He].
  - rewrite <- str_app_cons. by apply no_occurrence.
Qed.

Lemma hostname_of_https (host rest : string) :
  has_char "/" host = false -> endswith "https:" host = false ->
  rest = "" \/ (exists p, rest = "/" +:+ p) ->
  hostname_of ("https://" +:+ host +:+ rest) = host.
Proof.
  intros Hs He Hr. unfold hostname_of.
  rewrite replace_occurrence by done.
  change ("" +:+ ?x) with x. rewrite replace_host by done.
  destruct Hr as [->|[p ->]].
  - change (replace "https://" "" "") with "". rewrite str_app_nil_r.
    by rewrite partition_absent.
  - change ("/" +:+ p) with (String "/" p).
    rewrite replace_other by reflexivity. by rewrite partition_first.
Qed.

Lemma hostname_of_generated (s : bool) (v : string) :
  hostname_of (expected_wsdl_url s v)
  = if s then "webservices.sandbox.netsuite.com"
    else "webservices.netsuite.com".
Proof. by destruct s. Qed.

Lemma hostname_of_http (rest : string) :
  hostname_of ("http://" +:+ rest) = "http:".
Proof. reflexivity. Qed.

(** Reading [wsdl_url] touches no collaborator. *)
Lemma wsdl_url_world st : world (wsdl_url st).2 = world st.
Proof.
  unfold wsdl_url, cached_property.
  destruct (memo_wsdl_url _); [done|]. by rewrite wsdl_url_builder.
Qed.

Lemma hostname_eq st :
  wf (self st) ->
  exists st',
    hostname st = (Ok (hostname_of (the_wsdl_url (self st))), st')
    /\ wf (self st') /\ ext ["wsdl_url"] (self st) (self st')
    /\ world st' = world st
    /\ memo_wsdl_url (__dict__ (self st')) = Some (the_wsdl_url (self st)).
Proof.
  intros Hwf. pose proof (wsdl_url_value st Hwf) as Hv.
  pose proof (wsdl_url_world st) as Hw.
  destruct (wsdl_url_spec st Hwf) as (u & st' & R & W & X & _ & Hm).
  rewrite R in Hv, Hw. cbn [fst snd] in Hv, Hw. injection Hv as ->.
  exists st'. split_and!; try done.
  unfold hostname. by rewrite (bind_ok _ _ _ _ _ R).
Qed.

(** X1: without a [wsdl_url] override, or with an empty one, the
    [hostname] of an instance is ['webservices.sandbox.netsuite.com'] when
    the sandbox flag is set and ['webservices.netsuite.com'] when it is not,
    whatever the version. *)
Theorem hostname_generated cfg sb v u c se ns0 st :
  __init__ cfg sb v u c se = Ok ns0 ->
  reachable ns0 st ->
  u = None \/ u = Some "" ->
  (hostname st).1
  = Ok (if sandbox ns0 then "webservices.sandbox.netsuite.com"
        else "webservices.netsuite.com").
Proof.
  intros Hinit Hr Hu.
  destruct (reachable_attrs _ _ _ _ _ _ _ _ Hinit Hr)
    as (W & Hs & _ & _ & Hu' & _).
  destruct (init_inv _ _ _ _ _ _ _ Hinit) as (Hs0 & _).
  destruct (hostname_eq st W) as (st' & -> & _). cbn [fst]. f_equal.
  rewrite Hs0, <- Hs. unfold the_wsdl_url. rewrite Hu'.
  destruct Hu as [->| ->]; apply hostname_of_generated.
Qed.

(** X2: with an override ['https://' + host + rest], where [host] has no
    slash and does not end in ['https:'], and [rest] is empty or begins with
    a slash, the [hostname] of the instance is [host] (a port stays part of
    it). *)
Theorem hostname_https_override cfg sb v c se ns0 st (host rest : string) :
  __init__ cfg sb v (Some ("https://" +:+ host +:+ rest)) c se = Ok ns0 ->
  reachable ns0 st ->
  has_char "/" host = false ->
  endswith "https:" host = false ->
  rest = "" \/ (exists p, rest = "/" +:+ p) ->
  (hostname st).1 = Ok host.
Proof.
  intros Hinit Hr Hs He Hrest.
  destruct (reachable_attrs _ _ _ _ _ _ _ _ Hinit Hr)
    as (W & _ & _ & _ & Hu & _).
  destruct (hostname_eq st W) as (st' & -> & _). cbn [fst]. f_equal.
  unfold the_wsdl_url. rewrite Hu.
  change (str_truthy ("https://" +:+ host +:+ rest)) with true.
  by apply hostname_of_https.
Qed.

(** X3: only the scheme ['https://'] is removed: with an override that
    begins with ['http://'] the [hostname] of the instance is ['http:']. *)
Theorem hostname_http_override cfg sb v c se ns0 st (rest : string) :
  __init__ cfg sb v (Some ("http://" +:+ rest)) c se = Ok ns0 ->
  reachable ns0 st ->
  (hostname st).1 = Ok "http:".
Proof.
  intros Hinit Hr.
  destruct (reachable_attrs _ _ _ _ _ _ _ _ Hinit Hr)
    as (W & _ & _ & _ & Hu & _).
  destruct (hostname_eq st W) as (st' & -> & _). cbn [fst]. f_equal.
  unfold the_wsdl_url. by rewrite Hu.
Qed.

(** X4: a read of [hostname] returns a value without calling any
    collaborator (the world is as before, no client is built), and from then
    on, whatever the instance is used for, every read returns that value and
    changes nothing. *)
Theorem hostname_stable cfg sb v u c se ns0 st :
  __init__ cfg sb v u c se = Ok ns0 ->
  reachable ns0 st ->
  exists h st1,
    hostname st = (Ok h, st1)
    /\ world st1 = world st
    /\ memo_client (__dict__ (self st1)) = memo_client (__dict__ (self st))
    /\ forall os, hostname (run_ops os st1) = (Ok h, run_ops os st1).
Proof.
  intros Hinit Hr.
  destruct (reachable_attrs _ _ _ _ _ _ _ _ Hinit Hr) as (W & _).
  destruct (hostname_eq st W) as (st1 & R & W1 & X1 & Hw & Hm).
  eexists _, st1. split_and!; [exact R|exact Hw| |].
  - destruct (memo_client (__dict__ (self st))) as [cl|] eqn:E.
    + by apply (ext_client _ _ _ X1).
    + apply not_memoized_client, (ext_unset _ _ _ _ W W1 X1).
      * rewrite memoized_client, E. by intros [? ?].
      * by intros ?%list_elem_of_singleton.
  - intros os. destruct (run_ops_ok os st1 W1) as (W2 & [n X2] & _).
    apply (ext_wsdl_url _ _ _ X2) in Hm. unfold hostname, wsdl_url.
    by rewrite (bind_ok _ _ _ _ _ (cached_property_hit _ _ _ _ _ _ Hm)).
Qed.

(** X5: [repr] of an instance is ['<NetSuite ' + hostname + '(' + version +
    ')>'], with the version the constructor stored; computing it calls no
    collaborator. *)
Theorem repr_spec cfg sb v u c se ns0 st :
  __init__ cfg sb v u c se = Ok ns0 ->
  reachable ns0 st ->
  exists h st1,
    (hostname st).1 = Ok h
    /\ __repr__ st
       = (Ok ("<NetSuite " +:+ h +:+ "(" +:+ version ns0 +:+ ")>"), st1)
    /\ world st1 = world st.
Proof.
  intros Hinit Hr.
  destruct (reachable_attrs _ _ _ _ _ _ _ _ Hinit Hr) as (W & _ & Hv & _).
  destruct (init_inv _ _ _ _ _ _ _ Hinit) as (_ & Hv0 & _).
  destruct (hostname_eq st W) as (st1 & R & W1 & X1 & Hw & Hm).
  eexists _, st1. split_and!; [by rewrite R| |exact Hw].
  unfold __repr__. rewrite (bind_ok _ _ _ _ _ R). unfold bind, get_self, ret.
  do 4 f_equal. rewrite (ext_attrs _ _ _ X1). cbn [version with_dict].
  by rewrite Hv, Hv0.
Qed.

(** ** [getItemAvailability] *)

(** The decorated [getItemAvailability], once it has passed its
    assertion. *)
Lemma getItemAvailability_eq ii ee st :
  wf (self st) -> ii <> [] \/ ee <> [] ->
  exists cl st1,
    wf (self st1)
    /\ ext client_names (self st) (self st1)
    /\ quiet (world st) (world st1)
    /\ let p := VOpaque (next_id (world st1)) in
       let st2 := after (PassportMake cl (__config (self st1)) p) st1 in
       let call :=
         ServiceCall cl "getItemAvailability" []
           [("_soapheaders", p);
            ("itemAvailabilityFilter", item_availability_filter ii ee)] in
       (getItemAvailability ii ee st).2 = recorded call st2
       /\ (getItemAvailability ii ee st).1
          = res_bind (respond (call :: trace (world st2))) (fun resp =>
              getattr_path resp
                ["body"; "getItemAvailabilityResult"; "itemAvailabilityList";
                 "itemAvailability"]).
Proof.
  intros Hwf Hids. apply seq_truthy_or in Hids.
  destruct (request_eq "getItemAvailability" []
              [("itemAvailabilityFilter", item_availability_filter ii ee)]
              st Hwf) as (cl & st1 & R1 & W1 & X1 & Q1 & M1 & Rq).
  exists cl, st1. split_and!; try done. intros p st2 call.
  change (has_key _ _) with false in Rq.
  change (has_operation "getItemAvailability") with true in Rq.
  cbv zeta in Rq.
  fold p in Rq. fold st2 in Rq. fold call in Rq.
  assert (getItemAvailability_fn (ii, ee) st
          = (respond (call :: trace (world st2)), recorded call st2)) as Hfn.
  { unfold getItemAvailability_fn. rewrite Hids. unfold assert_.
    rewrite (bind_ok _ _ st tt st) by reflexivity. exact Rq. }
  unfold getItemAvailability. rewrite (WebServiceCall_eq _ _ _ _ _ _ _ Hfn).
  change (split "." _)
    with ["body"; "getItemAvailabilityResult"; "itemAvailabilityList";
          "itemAvailability"].
  destruct (respond (call :: trace (world st2))) as [resp|e]; [|done].
  cbn [res_bind]. by destruct (getattr_path resp _).
Qed.

(** X6: with at least one identifier sequence non-empty,
    [getItemAvailability] calls the service ['getItemAvailability'] once,
    without positional arguments, with the keyword [itemAvailabilityFilter]
    holding one ['recordRef'] of type ['inventoryItem'] per internal
    identifier, in order, followed by one per external identifier, and with
    a passport made for the call; it returns the [itemAvailability] of
    [response.body.getItemAvailabilityResult.itemAvailabilityList] as it is,
    and an exception of the service as it is. *)
Theorem getItemAvailability_dispatch cfg sb v u c se ns0 st ii ee :
  __init__ cfg sb v u c se = Ok ns0 ->
  reachable ns0 st ->
  ii <> [] \/ ee <> [] ->
  let st' := (getItemAvailability ii ee st).2 in
  exists cl p pre,
    trace (world st')
    = ServiceCall cl "getItemAvailability" []
        [("_soapheaders", p);
         ("itemAvailabilityFilter", item_availability_filter ii ee)]
      :: PassportMake cl (__config ns0) p :: pre ++ trace (world st)
    /\ Forall construction pre
    /\ (forall resp body result lst found,
          respond (trace (world st')) = Ok resp ->
          getattr resp "body" = Ok body ->
          getattr body "getItemAvailabilityResult" = Ok result ->
          getattr result "itemAvailabilityList" = Ok lst ->
          getattr lst "itemAvailability" = Ok found ->
          (getItemAvailability ii ee st).1 = Ok found)
    /\ (forall e,
          respond (trace (world st')) = Err e ->
          (getItemAvailability ii ee st).1 = Err e).
Proof.
  intros Hinit Hr Hids st'.
  destruct (reachable_attrs _ _ _ _ _ _ _ _ Hinit Hr)
    as (W & _ & _ & Hcfg & _).
  destruct (getItemAvailability_eq ii ee st W Hids)
    as (cl & st1 & W1 & X1 & (_ & pre & Htr & Hpre) & Hst & Hres).
  assert (__config (self st1) = __config ns0) as Hcfg1.
  { rewrite (ext_attrs _ _ _ X1). simpl. exact Hcfg. }
  rewrite Hcfg1 in Hst, Hres.
  exists cl, (VOpaque (next_id (world st1))), pre. unfold st'.
  rewrite Hst. split_and!.
  - simpl. by rewrite Htr.
  - done.
  - intros resp body result lst found Hresp Hb Hres' Hl Hf.
    rewrite Hres. simpl in Hresp. simpl. rewrite Hresp. cbn [res_bind].
    rewrite Hb. cbn [res_bind]. rewrite Hres'. cbn [res_bind]. rewrite Hl.
    cbn [res_bind]. by rewrite Hf.
  - intros e Hresp. rewrite Hres. simpl in Hresp. simpl. by rewrite Hresp.
Qed.

(** ** The session and the configuration *)

(** X7: the [session] property is the session handed to the constructor
    when there is one and it is true in a boolean context, and then nothing
    is constructed; without one, and with one that is false, a read either
    returns the session already stored and changes nothing, or constructs
    one [requests.Session], which is the value returned. *)
Theorem session_resolved cfg sb v u c (se : option Session) ns0 st :
  __init__ cfg sb v u c se = Ok ns0 ->
  reachable ns0 st ->
  exists s st',
    session st = (Ok s, st')
    /\ (forall s0,
          se = Some s0 -> session_truthy s0 = true ->
          s = s0 /\ world st' = world st)
    /\ (se = None \/ (exists s0, se = Some s0 /\ session_truthy s0 = false) ->
        (memo_session (__dict__ (self st)) = Some s /\ st' = st)
        \/ (memo_session (__dict__ (self st)) = None
            /\ trace (world st') = NewSession s :: trace (world st))).
Proof.
  intros Hinit Hr.
  destruct (reachable_attrs _ _ _ _ _ _ _ _ Hinit Hr)
    as (W & _ & _ & _ & _ & _ & Hse).
  unfold session, cached_property.
  destruct (memo_session (__dict__ (self st))) as [s|] eqn:E.
  - exists s, st. split_and!; [done| |by left].
    intros s0 -> Ht. split; [|done]. apply (wf_session _ W s s0 E).
    rewrite Hse. cbn [supplied]. by rewrite Ht.
  - unfold bind at 1, get_self. rewrite or_else_supplied, Hse.
    destruct (supplied session_truthy se) as [s1|] eqn:C.
    + eexists _, _. split_and!; [reflexivity| |].
      * intros s0 -> Ht. cbn [supplied] in C. rewrite Ht in C.
        by injection C as <-.
      * intros [->|(s0 & -> & Hf)]; cbn [supplied] in C; [done|].
        by rewrite Hf in C.
    + unfold _generate_session. rewrite Session_new_eq.
      eexists _, _. split_and!; [reflexivity| |].
      * intros s0 -> Ht. cbn [supplied] in C. by rewrite Ht in C.
      * intros _. right. by split.
Qed.

(** X8: a [Config] instance handed to the constructor is stored as it is,
    without validation, and a dictionary is stored as the [Config] made of
    it; an exception of that validation leaves the constructor, unless the
    version is rejected first; and the [config] property returns the stored
    object in every state, leaving the state as it is. *)
Theorem config_stored cfg sb v u c se :
  (forall ns0,
     __init__ cfg sb v u c se = Ok ns0 ->
     match cfg with
     | ConfigObj conf => __config ns0 = conf
     | ConfigDict d => Config_new d = Ok (__config ns0)
     end
     /\ forall st, reachable ns0 st -> config st = (Ok (__config ns0), st))
  /\ (forall d e,
        cfg = ConfigDict d -> Config_new d = Err e ->
        __init__ cfg sb v u c se
        = match v with
          | Some v' => if re_match version_re v' then Err e
                       else Err AssertionError
          | None => Err e
          end)
  /\ (forall conf,
        cfg = ConfigObj conf ->
        (forall v', v = Some v' -> re_match version_re v' = true) ->
        exists ns0, __init__ cfg sb v u c se = Ok ns0).
Proof.
  split_and!.
  - intros ns0 Hinit.
    destruct (init_inv _ _ _ _ _ _ _ Hinit) as (_ & _ & _ & Hc & _). split.
    + destruct cfg as [conf|d]; cbn [_make_config] in Hc; [|done].
      by injection Hc as <-.
    + intros st Hr.
      destruct (reachable_attrs _ _ _ _ _ _ _ _ Hinit Hr)
        as (_ & _ & _ & Hcfg & _).
      unfold config, bind, get_self, ret. by rewrite Hcfg.
  - intros d e -> He. unfold __init__. cbn [_make_config]. rewrite He.
    destruct v as [v'|]; [|reflexivity].
    by destruct (re_match version_re v').
  - intros conf -> Hv. unfold __init__. cbn [_make_config].
    destruct v as [v'|]; [|by eexists].
    rewrite (Hv v' eq_refl). by eexists.
Qed.

(** ** The version in the namespaces *)

Lemma str_replace_absent old new (s : string) :
  has_char old s = false -> str_replace old new s = s.
Proof.
  induction s as [|c s IH]; intros H; [reflexivity|].
  cbn [has_char] in H. apply orb_false_elim in H as [Hc Hs].
  cbn [str_replace]. by rewrite Hc, IH.
Qed.

Lemma rsplit1_absent sep (s : string) :
  has_char sep s = false -> rsplit1 sep s = None.
Proof.
  induction s as [|c s IH]; intros H; [reflexivity|].
  cbn [has_char] in H. apply orb_false_elim in H as [Hc Hs].
  cbn [rsplit1]. by rewrite IH, Hc.
Qed.

Lemma rsplit1_last sep (h t : string) :
  has_char sep t = false -> rsplit1 sep (h +:+ String sep t) = Some (h, t).
Proof.
  intros Ht. induction h as [|c h IH].
  - change ("" +:+ String sep t) with (String sep t). cbn [rsplit1].
    by rewrite rsplit1_absent, Ascii.eqb_refl.
  - rewrite str_app_cons. cbn [rsplit1]. by rewrite IH.
Qed.

(** X9: for a version [pre + sep + last], where [sep] is a dot or an
    underscore and [last] has neither, the version written into the
    namespaces is [pre] with its dots replaced by underscores: the text
    after the last dot or underscore is dropped, whatever it is. *)
Theorem namespace_version cfg sb u c se ns0 (pre last : string) (sep : ascii) :
  __init__ cfg sb (Some (pre +:+ String sep last)) u c se = Ok ns0 ->
  sep = "."%char \/ sep = "_"%char ->
  has_char "." last = false ->
  has_char "_" last = false ->
  underscored_version ns0 = dots_to_underscores pre +:+ String "_" last
  /\ underscored_version_no_micro ns0 = dots_to_underscores pre.
Proof.
  intros Hinit Hsep Hdot Hund.
  destruct (init_inv _ _ _ _ _ _ _ Hinit) as (_ & Hv & _).
  assert (underscored_version ns0
          = dots_to_underscores pre +:+ String "_" last) as Hu.
  { unfold underscored_version. rewrite Hv, str_replace_app, str_replace_dots.
    f_equal. cbn [str_replace]. rewrite (str_replace_absent _ _ _ Hdot).
    by destruct Hsep as [-> | ->]. }
  split; [exact Hu|].
  unfold underscored_version_no_micro, rpartition.
  by rewrite Hu, rsplit1_last.
Qed.

(** ** The decorator *)

Lemma split_cons sep (s : string) : exists w ws, split sep s = w :: ws.
Proof.
  destruct s as [|c s]; [by eexists _, _|]. cbn [split].
  destruct (Ascii.eqb c sep); [by eexists _, _|].
  destruct (split sep s); by eexists _, _.
Qed.

Lemma split_app sep (s1 s2 : string) :
  split sep (s1 +:+ String sep s2) = split sep s1 ++ split sep s2.
Proof.
  induction s1 as [|c s1 IH].
  - change ("" +:+ String sep s2) with (String sep s2). cbn [split].
    by rewrite Ascii.eqb_refl.
  - rewrite str_app_cons. cbn [split]. rewrite IH.
    destruct (Ascii.eqb c sep); [reflexivity|].
    by destruct (split_cons sep s1) as (w & ws & ->).
Qed.

Lemma getattr_path_app (l1 l2 : list string) : forall x,
  getattr_path x (l1 ++ l2)
  = res_bind (getattr_path x l1) (fun y => getattr_path y l2).
Proof.
  induction l1 as [|part l1 IH]; intros x; [reflexivity|].
  cbn [app getattr_path]. destruct (getattr x part) as [y|e]; [|reflexivity].
  cbn [res_bind]. apply IH.
Qed.

(** X10: paths compose: decorating with [WebServiceCall(p1 + '.' + p2,
    extract)] is decorating with [WebServiceCall(p1)] and then with
    [WebServiceCall(p2, extract)]. *)
Theorem WebServiceCall_compose {Args} (fn : Args -> M value)
    (p1 p2 : string) (e : option (value -> M value)) (args : Args) (st : St) :
  WebServiceCall (Some (p1 +:+ "." +:+ p2)) e fn args st
  = WebServiceCall (Some p2) e (WebServiceCall (Some p1) None fn) args st.
Proof.
  destruct (fn args st) as [r st1] eqn:Hfn.
  rewrite (WebServiceCall_eq _ _ _ _ _ _ _ Hfn).
  pose proof (WebServiceCall_eq (Some p1) None fn args st r st1 Hfn) as Hin.
  change (p1 +:+ "." +:+ p2) with (p1 +:+ String "." p2).
  rewrite split_app. destruct r as [x0|err].
  - rewrite getattr_path_app.
    destruct (getattr_path x0 (split "." p1)) as [y|err];
      by rewrite (WebServiceCall_eq (Some p2) e _ _ _ _ _ Hin).
  - by rewrite (WebServiceCall_eq (Some p2) e _ _ _ _ _ Hin).
Qed.

(** ** Failures of [getList] *)

Lemma res_map_first_error {A B} (f : A -> res B) (l1 l2 : list A) x e :
  Forall (fun y => exists r, f y = Ok r) l1 -> f x = Err e ->
  res_map f (l1 ++ x :: l2) = Err e.
Proof.
  induction 1 as [|y l1 [r Hr] _ IH]; intros Hx; cbn [app res_map].
  - by rewrite Hx.
  - rewrite Hr. cbn [res_bind]. by rewrite IH.
Qed.

(** X11: once its assertion has passed, [getList] sends its request, and
    then: an exception of the service leaves [getList] as it is; a response
    without [body.readResponseList.readResponse] gives [AttributeError];
    a [readResponse] that is [None] gives [TypeError]; and a first element
    without ['record'] gives the exception of that lookup. *)
Theorem getList_failures cfg sb v u c se ns0 st rt ii ee :
  __init__ cfg sb v u c se = Ok ns0 ->
  reachable ns0 st ->
  ii <> [] \/ ee <> [] ->
  let st' := (getList rt ii ee st).2 in
  let result := (getList rt ii ee st).1 in
  (exists cl args kw rest,
     trace (world st') = ServiceCall cl "getList" args kw :: rest)
  /\ (forall e, respond (trace (world st')) = Err e -> result = Err e)
  /\ (forall resp e,
        respond (trace (world st')) = Ok resp ->
        getattr_path resp ["body"; "readResponseList"; "readResponse"]
        = Err e ->
        result = Err AttributeError)
  /\ (forall resp,
        respond (trace (world st')) = Ok resp ->
        getattr_path resp ["body"; "readResponseList"; "readResponse"]
        = Ok VNone ->
        result = Err TypeError)
  /\ (forall resp before item behind e,
        respond (trace (world st')) = Ok resp ->
        getattr_path resp ["body"; "readResponseList"; "readResponse"]
        = Ok (VList (before ++ item :: behind)) ->
        Forall (fun y => exists r, getitem y "record" = Ok r) before ->
        getitem item "record" = Err e ->
        result = Err e).
Proof.
  intros Hinit Hr Hids st' result.
  destruct (reachable_attrs _ _ _ _ _ _ _ _ Hinit Hr) as (W & _).
  destruct (getList_eq rt ii ee st W Hids)
    as (cl & st3 & _ & _ & _ & Hst & Hres).
  unfold st', result. rewrite Hst, Hres.
  cbn [recorded after world trace]. split_and!.
  - by eexists _, _, _, _.
  - by intros e ->.
  - intros resp e -> Hp. cbn [res_bind]. rewrite Hp.
    by rewrite (getattr_path_error _ _ _ Hp).
  - intros resp -> Hp. cbn [res_bind]. by rewrite Hp.
  - intros resp before item behind e -> Hp Hb He. cbn [res_bind].
    rewrite Hp. cbn [res_bind iter].
    by rewrite (res_map_first_error _ _ _ _ _ Hb He).
Qed.

(** ** The trace against the instance *)

Lemma signed_app_quiet (new evs : list Event) :
  Forall (fun e => is_call e = false) new -> signed evs -> signed (new ++ evs).
Proof.
  induction 1 as [|e new He _ IH]; intros Hs; cbn [app]; [done|].
  apply signed_other; auto.
Qed.

Lemma with_dict_self d ns ns0 :
  ns = with_dict (__dict__ ns) ns0 -> with_dict d ns = with_dict d ns0.
Proof. intros H. by rewrite H. Qed.

(** The constructor arguments of a linked instance. *)
Lemma linked_attrs ns0 base evs st :
  linked ns0 base evs st ->
  __config (self st) = __config ns0 /\ __cache (self st) = __cache ns0
  /\ __session (self st) = __session ns0
  /\ the_wsdl_url (self st) = the_wsdl_url ns0.
Proof. intros [H _ _ _ _ _]. by rewrite H. Qed.

(** One more entry, after the events [new] of its builder. *)
Lemma linked_store ns0 base evs st name write new w' :
  linked ns0 base evs st ->
  built (write (__dict__ (self st))) = built (__dict__ (self st)) ->
  trace w' = new ++ trace (world st) ->
  sublist (omap made new) [name] ->
  Forall (allowed ns0) new ->
  Forall (fun e => is_call e = false) new ->
  (forall c, memo_client (__dict__ (self st)) = Some c ->
             memo_client (write (__dict__ (self st))) = Some c) ->
  (forall e c, e ∈ new -> client_of e = Some c ->
               memo_client (write (__dict__ (self st))) = Some c) ->
  linked ns0 base (new ++ evs)
    {| self := store name write (self st); world := w' |}.
Proof.
  intros [L1 L2 L3 L4 L5 L6] Hb Ht Hs Ha Hq Hold Hnew.
  split; cbn [self world].
  - change (__dict__ (store name write (self st)))
      with (log_built name (write (__dict__ (self st)))).
    unfold store. by apply with_dict_self.
  - by rewrite Ht, L2, (assoc_L (++)).
  - change (built (__dict__ (store name write (self st))))
      with ([name] ++ built (write (__dict__ (self st)))).
    rewrite Hb, omap_app. by apply sublist_app.
  - by apply Forall_app.
  - change (memo_client (__dict__ (store name write (self st))))
      with (memo_client (write (__dict__ (self st)))).
    intros e c [Hin|Hin]%elem_of_app Hc; eauto.
  - by apply signed_app_quiet.
Qed.

(** Events that construct nothing. *)
Lemma linked_emit ns0 base evs st new w' :
  linked ns0 base evs st ->
  trace w' = new ++ trace (world st) ->
  omap made new = [] ->
  Forall (allowed ns0) new ->
  (forall e c, e ∈ new -> client_of e = Some c ->
               memo_client (__dict__ (self st)) = Some c) ->
  signed (new ++ evs) ->
  linked ns0 base (new ++ evs) {| self := self st; world := w' |}.
Proof.
  intros [L1 L2 L3 L4 L5 L6] Ht Hm Ha Hnew Hs. split; cbn [self world].
  - done.
  - by rewrite Ht, L2, (assoc_L (++)).
  - by rewrite omap_app, Hm.
  - by apply Forall_app.
  - intros e c [Hin|Hin]%elem_of_app Hc; eauto.
  - done.
Qed.

Ltac linked_side :=
  first
    [ done
    | apply sublist_nil_l
    | by intros ? ? ?%elem_of_nil
    | by repeat constructor ].

Lemma preserves_ret {A} ns0 base (a : A) : preserves ns0 base (ret a).
Proof. intros st evs W L. split; [done|]. by exists []. Qed.

Lemma preserves_lift {A} ns0 base (r : res A) : preserves ns0 base (lift r).
Proof. intros st evs W L. split; [done|]. by exists []. Qed.

Lemma preserves_assert ns0 base b : preserves ns0 base (assert_ b).
Proof. intros st evs W L. destruct b; (split; [done|]; by exists []). Qed.

Lemma preserves_get_self ns0 base : preserves ns0 base get_self.
Proof. intros st evs W L. split; [done|]. by exists []. Qed.

Lemma preserves_bind {A B} ns0 base (m : M A) (k : A -> M B) :
  preserves ns0 base m -> (forall a, preserves ns0 base (k a)) ->
  preserves ns0 base (bind m k).
Proof.
  intros Hm Hk st evs W L. destruct (Hm st evs W L) as [W1 [new1 L1]].
  unfold bind. destruct (m st) as [[a|e] st1]; cbn [snd] in *.
  - destruct (Hk a st1 _ W1 L1) as [W2 [new2 L2]]. split; [done|].
    exists (new2 ++ new1). by rewrite <- (assoc_L (++)).
  - split; [done|]. by exists new1.
Qed.

Lemma preserves_for_in {A B} ns0 base (f : A -> M B) (xs : list A) :
  (forall x, preserves ns0 base (f x)) -> preserves ns0 base (for_in f xs).
Proof.
  intros Hf. induction xs as [|x xs IH]; cbn [for_in].
  - apply preserves_ret.
  - apply preserves_bind; [apply Hf|]. intros y.
    apply preserves_bind; [apply IH|]. intros ys. apply preserves_ret.
Qed.

Lemma preserves_wsdl_url ns0 base : preserves ns0 base wsdl_url.
Proof.
  intros st evs W L. split.
  { by destruct (wsdl_url_spec st W) as (? & ? & -> & ? & _). }
  unfold wsdl_url, cached_property.
  destruct (memo_wsdl_url (__dict__ (self st))) as [u|] eqn:E.
  - by exists [].
  - rewrite wsdl_url_builder. cbn [snd]. exists [].
    apply linked_store; linked_side.
Qed.

Lemma preserves_cache ns0 base : preserves ns0 base cache.
Proof.
  intros st evs W L. split.
  { by destruct (cache_spec st W) as (? & ? & -> & ? & _). }
  destruct (linked_attrs _ _ _ _ L) as (_ & Hc & _).
  unfold cache, cached_property.
  destruct (memo_cache (__dict__ (self st))) as [c|] eqn:E.
  - by exists [].
  - unfold bind at 1, get_self. rewrite or_else_supplied, Hc.
    destruct (supplied cache_truthy (__cache ns0)) as [c0|] eqn:C;
      cbn [ret snd].
    + exists []. apply linked_store; linked_side.
    + unfold _generate_cache. rewrite SqliteCache_new_eq. cbn [snd].
      exists [NewSqliteCache
                (SqliteCache (next_id (world st)) (60 * 60 * 24 * 365))].
      apply (linked_store ns0 base evs st); try linked_side.
      * apply Forall_cons_2; [|done]. split; [done|by eexists].
      * by intros e c ->%list_elem_of_singleton.
Qed.

Lemma preserves_session ns0 base : preserves ns0 base session.
Proof.
  intros st evs W L. split.
  { by destruct (session_spec st W) as (? & ? & -> & ? & _). }
  destruct (linked_attrs _ _ _ _ L) as (_ & _ & Hs & _).
  unfold session, cached_property.
  destruct (memo_session (__dict__ (self st))) as [s|] eqn:E.
  - by exists [].
  - unfold bind at 1, get_self. rewrite or_else_supplied, Hs.
    destruct (supplied session_truthy (__session ns0)) as [s0|] eqn:C;
      cbn [ret snd].
    + exists []. apply linked_store; linked_side.
    + unfold _generate_session. rewrite Session_new_eq. cbn [snd].
      exists [NewSession {| session_id := next_id (world st);
                            session_truthy := true |}].
      apply (linked_store ns0 base evs st); try linked_side.
      by intros e c ->%list_elem_of_singleton.
Qed.

Lemma preserves_transport ns0 base : preserves ns0 base transport.
Proof.
  intros st evs W L. split.
  { by destruct (transport_spec st W) as (? & ? & -> & ? & _). }
  unfold transport, cached_property.
  destruct (memo_transport (__dict__ (self st))) as [t|] eqn:E.
  - by exists [].
  - destruct (session_spec st W) as (s & st1 & R1 & W1 & _).
    destruct (preserves_session ns0 base st evs W L) as [_ [n1 L1]].
    rewrite R1 in L1. cbn [snd] in L1.
    destruct (cache_spec st1 W1) as (c & st2 & R2 & W2 & _).
    destruct (preserves_cache ns0 base st1 _ W1 L1) as [_ [n2 L2]].
    rewrite R2 in L2. cbn [snd] in L2.
    unfold _generate_transport.
    rewrite (bind_ok _ _ _ _ _ R1), (bind_ok _ _ _ _ _ R2), Transport_new_eq.
    cbn [snd]. eexists ([_] ++ n2 ++ n1). rewrite <- !(assoc_L (++)).
    apply (linked_store ns0 base _ st2); try linked_side.
    by intros e c' ->%list_elem_of_singleton.
Qed.

Lemma preserves_client ns0 base : preserves ns0 base client.
Proof.
  intros st evs W L. split.
  { by destruct (client_spec st W) as (? & ? & -> & ? & _). }
  unfold client, cached_property.
  destruct (memo_client (__dict__ (self st))) as [c|] eqn:E.
  - by exists [].
  - destruct (wsdl_url_spec st W) as (u & st1 & R1 & W1 & X1 & _ & M1).
    destruct (preserves_wsdl_url ns0 base st evs W L) as [_ [n1 L1]].
    rewrite R1 in L1. cbn [snd] in L1.
    destruct (transport_spec st1 W1) as (t & st2 & R2 & W2 & X2 & _).
    destruct (preserves_transport ns0 base st1 _ W1 L1) as [_ [n2 L2]].
    rewrite R2 in L2. cbn [snd] in L2.
    assert (memo_client (__dict__ (self st2)) = None) as E2.
    { assert (ext ["wsdl_url"; "transport"; "session"; "cache"]
                (self st) (self st2)) as X.
      { apply (ext_trans _ _ _ _ _ _ X1 X2);
          intros x; rewrite !elem_of_cons; tauto. }
      apply not_memoized_client, (ext_unset _ _ _ _ W W2 X).
      - rewrite memoized_client, E. by intros [? ?].
      - rewrite !not_elem_of_cons. split_and!; try done.
        apply not_elem_of_nil. }
    assert (u = the_wsdl_url ns0) as ->.
    { rewrite (wf_wsdl_url _ W1 u M1).
      by destruct (linked_attrs _ _ _ _ L1) as (_ & _ & _ & ->). }
    unfold _generate_client.
    rewrite (bind_ok _ _ _ _ _ R1), (bind_ok _ _ _ _ _ R2), Client_new_eq.
    cbn [snd]. eexists ([_; _] ++ n2 ++ n1). rewrite <- !(assoc_L (++)).
    apply (linked_store ns0 base _ st2); try linked_side.
    + by rewrite E2.
    + intros e c' Hin Hc. rewrite !elem_of_cons in Hin.
      destruct Hin as [->|[->|?%elem_of_nil]]; [| |done];
        cbn in Hc; by injection Hc as <-.
Qed.

Lemma preserves_factory ns0 base p : preserves ns0 base (property_get p).
Proof.
  intros st evs W L. split.
  { by destruct (factory_spec p st W) as (? & ? & -> & ? & _). }
  rewrite property_get_eq. unfold cached_factory, cached_property.
  destruct (memo_factories (__dict__ (self st)) !! property_name p)
    as [f|] eqn:E.
  - by exists [].
  - destruct (client_spec st W) as (c & st1 & R1 & W1 & _).
    destruct (preserves_client ns0 base st evs W L) as [_ [n1 L1]].
    rewrite R1 in L1. cbn [snd] in L1.
    unfold _type_factory.
    rewrite (bind_ok _ _ _ _ _ R1),
      (bind_ok _ _ _ _ _ (_get_namespace_eq _ _ st1)).
    cbn [ret snd]. exists ([] ++ n1). rewrite <- !(assoc_L (++)).
    apply linked_store; linked_side.
Qed.

Lemma preserves_generate_passport ns0 base :
  preserves ns0 base generate_passport.
Proof.
  intros st evs W L.
  destruct (client_spec st W) as (c & st1 & R1 & W1 & _ & _ & M1).
  destruct (preserves_client ns0 base st evs W L) as [_ [n1 L1]].
  rewrite R1 in L1. cbn [snd] in L1.
  destruct (linked_attrs _ _ _ _ L1) as (Hcfg & _).
  unfold generate_passport. rewrite (bind_ok _ _ _ _ _ R1).
  change ((cfg <- config;; passport_make c cfg) st1)
    with (passport_make c (__config (self st1)) st1).
  rewrite passport_make_eq. cbn [snd]. split; [done|].
  eexists ([_] ++ n1). rewrite <- !(assoc_L (++)).
  apply linked_emit; try linked_side.
  - by intros e c' ->%list_elem_of_singleton [= <-].
  - apply signed_other; [done|]. by destruct L1.
Qed.

Lemma preserves_request ns0 base name args kw :
  preserves ns0 base (request name args kw).
Proof.
  intros st evs W L.
  destruct (request_eq name args kw st W)
    as (c & st1 & R1 & W1 & _ & _ & M1 & Rq).
  destruct (preserves_client ns0 base st evs W L) as [_ [n1 L1]].
  rewrite R1 in L1. cbn [snd] in L1.
  destruct (linked_attrs _ _ _ _ L1) as (Hcfg & _).
  rewrite Rq. destruct (has_operation name); [|by split; [|exists n1]].
  destruct (has_key "_soapheaders" kw); cbn [snd].
  - split; [done|]. eexists ([_] ++ n1). rewrite <- !(assoc_L (++)).
    apply linked_emit; try linked_side.
    + by intros e c' ->%list_elem_of_singleton [= <-].
    + apply signed_other; [done|]. by destruct L1.
  - split; [done|]. eexists ([_; _] ++ n1). rewrite <- !(assoc_L (++)).
    apply (linked_emit ns0 base _ st1); try linked_side.
    + intros e c' Hin Hc. rewrite !elem_of_cons in Hin.
      destruct Hin as [->|[->|?%elem_of_nil]]; [| |done];
        cbn in Hc; by injection Hc as <-.
    + apply signed_call; [|by destruct L1]. reflexivity.
Qed.

Lemma preserves_WebServiceCall {Args} ns0 base path extract
    (fn : Args -> M value) args :
  preserves ns0 base (fn args) ->
  (forall e x, extract = Some e -> preserves ns0 base (e x)) ->
  preserves ns0 base (WebServiceCall path extract fn args).
Proof.
  intros Hfn He. unfold WebServiceCall.
  apply preserves_bind; [done|]. intros r.
  apply preserves_bind.
  { destruct path; [apply preserves_lift | apply preserves_ret]. }
  intros r'. apply preserves_bind; [|intros; apply preserves_ret].
  destruct extract as [e|]; [by apply He | apply preserves_ret].
Qed.

Lemma preserves_getList ns0 base rt ii ee :
  preserves ns0 base (getList rt ii ee).
Proof.
  apply preserves_WebServiceCall.
  - unfold getList_fn.
    apply preserves_bind; [apply preserves_assert|]. intros _.
    apply preserves_bind; [apply (preserves_factory _ _ P_Messages)|].
    intros messages.
    apply preserves_bind.
    { apply preserves_for_in. intros x.
      apply preserves_bind; [apply (preserves_factory _ _ P_Core)|].
      intros core. apply preserves_ret. }
    intros by_internal.
    apply preserves_bind.
    { apply preserves_for_in. intros x.
      apply preserves_bind; [apply (preserves_factory _ _ P_Core)|].
      intros core. apply preserves_ret. }
    intros by_external. apply preserves_request.
  - intros e x [= <-]. apply preserves_lift.
Qed.

Lemma preserves_getItemAvailability ns0 base ii ee :
  preserves ns0 base (getItemAvailability ii ee).
Proof.
  apply preserves_WebServiceCall; [|done].
  unfold getItemAvailability_fn.
  apply preserves_bind; [apply preserves_assert|]. intros _.
  apply preserves_request.
Qed.

Lemma preserves_read ns0 base a : preserves ns0 base (read a).
Proof.
  destruct a as [| | | | |p]; cbn [read];
    (apply preserves_bind; [|intros; apply preserves_ret]).
  - apply preserves_wsdl_url.
  - apply preserves_cache.
  - apply preserves_session.
  - apply preserves_client.
  - apply preserves_transport.
  - apply preserves_factory.
Qed.

Lemma run_op_linked ns0 base o st evs :
  wf (self st) -> linked ns0 base evs st ->
  wf (self (run_op o st))
  /\ exists new, linked ns0 base (new ++ evs) (run_op o st).
Proof.
  destruct o as [a| |n args kw|rt ii ee|ii ee]; cbn [run_op].
  - apply preserves_read.
  - apply preserves_generate_passport.
  - apply preserves_request.
  - apply preserves_getList.
  - apply preserves_getItemAvailability.
Qed.

Lemma run_ops_linked ns0 base os : forall st evs,
  wf (self st) -> linked ns0 base evs st ->
  wf (self (run_ops os st))
  /\ exists new, linked ns0 base (new ++ evs) (run_ops os st).
Proof.
  induction os as [|o os IH]; intros st evs W L; cbn [run_ops fold_left].
  - split; [done|]. by exists [].
  - destruct (run_op_linked ns0 base o st evs W L) as [W1 [n1 L1]].
    destruct (IH _ _ W1 L1) as [W2 [n2 L2]]. split; [done|].
    exists (n2 ++ n1). by rewrite <- (assoc_L (++)).
Qed.

(** Every use of a constructed instance, from any world. *)
Lemma uses_linked cfg sb v u c se ns0 w os :
  __init__ cfg sb v u c se = Ok ns0 ->
  let st := run_ops os {| self := ns0; world := w |} in
  wf (self st) /\ exists evs, linked ns0 (trace w) evs st.
Proof.
  intros Hinit st.
  destruct (init_inv _ _ _ _ _ _ _ Hinit) as (_ & _ & _ & _ & _ & _ & _ & Hd).
  destruct (run_ops_linked ns0 (trace w) os {| self := ns0; world := w |} [])
    as [W [evs L]].
  - by apply wf_empty.
  - split; cbn [self world]; try done.
    + by destruct ns0.
    + rewrite Hd. apply sublist_nil.
    + by intros e cl ?%elem_of_nil.
    + constructor.
  - split; [done|]. exists (evs ++ []). exact L.
Qed.

Lemma filter_once (name : string) (l : list string) :
  NoDup l -> (length (filter (fun n => n = name) l) <= 1)%nat.
Proof.
  induction 1 as [|x l Hx Hl IH]; [simpl; lia|].
  destruct (decide (x = name)) as [->|Hne].
  - rewrite filter_cons_True by done. rewrite filter_absent by done.
    simpl. lia.
  - by rewrite filter_cons_False.
Qed.

Lemma constructed_none (name : string) (evs : list Event) :
  Forall (fun e => made e <> Some name) evs -> constructed name evs = 0%nat.
Proof.
  unfold constructed. induction 1 as [|e evs He _ IH]; [reflexivity|].
  change (omap made (e :: evs))
    with (match made e with
          | Some n => n :: omap made evs
          | None => omap made evs
          end).
  destruct (made e) as [n|] eqn:Hm; [|exact IH].
  rewrite filter_cons_False; [exact IH|]. by intros ->.
Qed.

(** X12: however a constructed instance is used, it constructs at most
    one client, at most one transport, at most one session and at most one
    [SqliteCache]. *)
Theorem collaborators_built_once cfg sb v u c se ns0 w os :
  __init__ cfg sb v u c se = Ok ns0 ->
  exists evs,
    trace (world (run_ops os {| self := ns0; world := w |})) = evs ++ trace w
    /\ forall name, (constructed name evs <= 1)%nat.
Proof.
  intros Hinit.
  destruct (uses_linked _ _ _ _ _ _ _ w os Hinit) as [W [evs L]].
  exists evs. split; [by destruct L|]. intros name.
  apply filter_once.
  eapply sublist_NoDup; [exact (wf_built_once _ W)|].
  exact (linked_built _ _ _ _ L).
Qed.

(** X13: an instance that was handed a cache that is true in a boolean
    context never constructs a [SqliteCache], and one that was handed a
    session that is true never constructs a session, however it is
    used. *)
Theorem supplied_objects_kept cfg sb v u (oc : option Cache)
    (se : option Session) ns0 w os :
  __init__ cfg sb v u oc se = Ok ns0 ->
  exists evs,
    trace (world (run_ops os {| self := ns0; world := w |})) = evs ++ trace w
    /\ (forall c0,
          oc = Some c0 -> cache_truthy c0 = true ->
          constructed "cache" evs = 0%nat)
    /\ (forall s0,
          se = Some s0 -> session_truthy s0 = true ->
          constructed "session" evs = 0%nat).
Proof.
  intros Hinit.
  destruct (init_inv _ _ _ _ _ _ _ Hinit) as (_ & _ & _ & _ & _ & Hc & Hs & _).
  destruct (uses_linked _ _ _ _ _ _ _ w os Hinit) as [W [evs L]].
  exists evs. split_and!; [by destruct L|..]; intros x0 Hx Ht;
    apply constructed_none;
    apply (Forall_impl _ _ _ (linked_allowed _ _ _ _ L));
    intros e Ha Hm; destruct e; try discriminate Hm; cbn [allowed] in Ha.
  - destruct Ha as [Ha _]. rewrite Hc, Hx in Ha. cbn [supplied] in Ha.
    rewrite Ht in Ha. discriminate Ha.
  - rewrite Hs, Hx in Ha. cbn [supplied] in Ha. rewrite Ht in Ha.
    discriminate Ha.
Qed.

(** X14: however a constructed instance is used, every service call it
    makes comes right after the making of a passport for the same client
    and carries that passport as [_soapheaders], and every passport is made
    for the config the constructor stored. *)
Theorem requests_signed cfg sb v u c se ns0 w os :
  __init__ cfg sb v u c se = Ok ns0 ->
  exists evs,
    trace (world (run_ops os {| self := ns0; world := w |})) = evs ++ trace w
    /\ signed evs
    /\ forall cl cfg' p, PassportMake cl cfg' p ∈ evs -> cfg' = __config ns0.
Proof.
  intros Hinit.
  destruct (uses_linked _ _ _ _ _ _ _ w os Hinit) as [W [evs L]].
  exists evs. split_and!; [by destruct L..|].
  intros cl cfg' p Hin.
  exact (proj1 (Forall_forall _ _) (linked_allowed _ _ _ _ L) _ Hin).
Qed.

(** X15: however a constructed instance is used, every client it
    constructs, sets default headers on, makes a passport for or calls a
    service of is the one client its [client] property returns, which was
    made for the WSDL URL of the instance; and the default headers are only
    ever set to the empty dictionary. *)
Theorem one_client cfg sb v u c se ns0 w os :
  __init__ cfg sb v u c se = Ok ns0 ->
  let st := run_ops os {| self := ns0; world := w |} in
  exists evs,
    trace (world st) = evs ++ trace w
    /\ (forall e cl,
          e ∈ evs -> client_of e = Some cl ->
          client st = (Ok cl, st) /\ (wsdl_url st).1 = Ok (client_wsdl cl))
    /\ (forall cl headers,
          SetDefaultSoapheaders cl headers ∈ evs -> headers = []).
Proof.
  intros Hinit st.
  destruct (uses_linked _ _ _ _ _ _ _ w os Hinit) as [W [evs L]].
  fold st in W, L. exists evs. split_and!; [by destruct L| |].
  - intros e cl Hin Hcl.
    pose proof (linked_client _ _ _ _ L e cl Hin Hcl) as Hm.
    split; [by apply client_hit|].
    destruct (wf_client _ W cl Hm) as [Hu _]. unfold wsdl_url.
    by rewrite (cached_property_hit _ _ _ _ _ _ Hu).
  - intros cl headers Hin.
    exact (proj1 (Forall_forall _ _) (linked_allowed _ _ _ _ L) _ Hin).
Qed.

(** X16: reads are lazy: reading [wsdl_url] calls no collaborator, and
    reading [cache], [session] or [transport] only constructs (it makes no
    passport and no service call) and leaves the client as it is: a client
    that is not built stays not built. *)
Theorem lazy_reads cfg sb v u c se ns0 st :
  __init__ cfg sb v u c se = Ok ns0 ->
  reachable ns0 st ->
  world (wsdl_url st).2 = world st
  /\ forall a,
       a = C_cache \/ a = C_session \/ a = C_transport ->
       quiet (world st) (world (read a st).2)
       /\ memo_client (__dict__ (self (read a st).2))
          = memo_client (__dict__ (self st)).
Proof.
  intros Hinit Hr.
  destruct (reachable_attrs _ _ _ _ _ _ _ _ Hinit Hr) as (W & _).
  split; [apply wsdl_url_world|]. intros a Ha.
  assert (exists v st',
            read a st = (Ok v, st') /\ wf (self st')
            /\ ext ["transport"; "session"; "cache"] (self st) (self st')
            /\ quiet (world st) (world st')) as (x & st' & R & W' & X & Q).
  { destruct Ha as [->|[->| ->]]; cbn [read].
    - destruct (cache_spec st W) as (x & st' & R & W' & X & Q & _).
      exists (A_cache x), st'. rewrite (bind_ok _ _ _ _ _ R).
      split_and!; try done. eapply ext_weaken; [exact X|].
      intros y; rewrite !elem_of_cons; tauto.
    - destruct (session_spec st W) as (x & st' & R & W' & X & Q & _).
      exists (A_session x), st'. rewrite (bind_ok _ _ _ _ _ R).
      split_and!; try done. eapply ext_weaken; [exact X|].
      intros y; rewrite !elem_of_cons; tauto.
    - destruct (transport_spec st W) as (x & st' & R & W' & X & Q & _).
      exists (A_transport x), st'. rewrite (bind_ok _ _ _ _ _ R).
      by split_and!. }
  rewrite R. cbn [snd]. split; [done|].
  destruct (memo_client (__dict__ (self st))) as [cl|] eqn:E.
  - by apply (ext_client _ _ _ X).
  - apply not_memoized_client, (ext_unset _ _ _ _ W W' X).
    + rewrite memoized_client, E. by intros [? ?].
    + rewrite !not_elem_of_cons. split_and!; try done. apply not_elem_of_nil.
Qed.

(** X17: on a new instance without a cache and a session of its own
    choosing, the first read of [client] constructs, in this order, a
    session, a [SqliteCache] of one year, the transport of the two, and the
    client of the WSDL URL and that transport, and then sets the empty
    default headers on the client. *)
Theorem client_construction cfg sb v u ns0 w :
  __init__ cfg sb v u None None = Ok ns0 ->
  exists s ca t cl st',
    client {| self := ns0; world := w |} = (Ok cl, st')
    /\ trace (world st')
       = [SetDefaultSoapheaders cl []; NewClient cl; NewTransport t;
          NewSqliteCache ca; NewSession s] ++ trace w
    /\ client_transport cl = t
    /\ transport_session t = s
    /\ transport_cache t = ca
    /\ (exists id, ca = SqliteCache id one_year)
    /\ (wsdl_url st').1 = Ok (client_wsdl cl).
Proof.
  intros Hinit.
  destruct (init_inv _ _ _ _ _ _ _ Hinit)
    as (_ & _ & _ & _ & _ & Hc & Hs & Hd).
  set (st0 := {| self := ns0; world := w |}).
  set (U := the_wsdl_url ns0).
  set (st1 := {| self := store "wsdl_url" (set_wsdl_url U) ns0;
                 world := w |}).
  assert (wsdl_url st0 = (Ok U, st1)) as R1.
  { unfold wsdl_url.
    rewrite (cached_property_miss _ _ _ _ st0 U st0); [done| |].
    - change (memo_wsdl_url (__dict__ ns0) = None). by rewrite Hd.
    - apply wsdl_url_builder. }
  set (s := {| session_id := next_id w; session_truthy := true |}).
  set (st2 := {| self := store "session" (set_session s) (self st1);
                 world := world (after (NewSession s) st1) |}).
  assert (session st1 = (Ok s, st2)) as R2.
  { unfold session.
    rewrite (cached_property_miss _ _ _ _ st1 s (after (NewSession s) st1));
      [done| |].
    - change (memo_session (__dict__ ns0) = None). by rewrite Hd.
    - unfold bind, get_self. change (__session (self st1)) with (__session ns0).
      by rewrite Hs. }
  set (ca := SqliteCache (S (next_id w)) (60 * 60 * 24 * 365)).
  set (st3 := {| self := store "cache" (set_cache ca) (self st2);
                 world := world (after (NewSqliteCache ca) st2) |}).
  assert (cache st2 = (Ok ca, st3)) as R3.
  { unfold cache.
    rewrite (cached_property_miss _ _ _ _ st2 ca
               (after (NewSqliteCache ca) st2)); [done| |].
    - change (memo_cache (__dict__ ns0) = None). by rewrite Hd.
    - unfold bind, get_self. change (__cache (self st2)) with (__cache ns0).
      by rewrite Hc. }
  set (t := {| transport_id := S (S (next_id w)); transport_session := s;
               transport_cache := ca |}).
  set (st4 := {| self := store "transport" (set_transport t) (self st3);
                 world := world (after (NewTransport t) st3) |}).
  assert (transport st1 = (Ok t, st4)) as R4.
  { unfold transport.
    rewrite (cached_property_miss _ _ _ _ st1 t (after (NewTransport t) st3));
      [done| |].
    - change (memo_transport (__dict__ ns0) = None). by rewrite Hd.
    - unfold _generate_transport.
      by rewrite (bind_ok _ _ _ _ _ R2), (bind_ok _ _ _ _ _ R3). }
  set (cl := {| client_id := S (S (S (next_id w))); client_wsdl := U;
                client_transport := t |}).
  exists s, ca, t, cl. eexists. split_and!.
  - unfold client. apply cached_property_miss.
    + change (memo_client (__dict__ ns0) = None). by rewrite Hd.
    + unfold _generate_client.
      rewrite (bind_ok _ _ _ _ _ R1), (bind_ok _ _ _ _ _ R4).
      apply Client_new_eq.
  - reflexivity.
  - reflexivity.
  - reflexivity.
  - reflexivity.
  - by eexists.
  - reflexivity.
Qed.

(** ** The table of namespaces *)

Lemma property_pair_inj p q : property_pair p = property_pair q -> p = q.
Proof.
  assert (exists find : string * string -> option factory_property,
            forall r, find (property_pair r) = Some r) as [find Hfind].
  { exists (fun pair =>
      (fix find (l : list factory_property) : option factory_property :=
         match l with
         | [] => None
         | x :: l' =>
             if String.eqb (property_pair x).1 pair.1
                && String.eqb (property_pair x).2 pair.2
             then Some x else find l'
         end)
      [P_Core; P_CoreTypes; P_FaultsTypes; P_Faults; P_Messages; P_Common;
       P_CommonTypes; P_Scheduling; P_SchedulingTypes; P_Communication;
       P_CommunicationTypes; P_Filecabinet; P_FilecabinetTypes;
       P_Relationships; P_RelationshipsTypes; P_Support; P_SupportTypes;
       P_Accounting; P_AccountingTypes; P_Sales; P_SalesTypes; P_Purchases;
       P_PurchasesTypes; P_Customers; P_CustomersTypes; P_Financial;
       P_FinancialTypes; P_Bank; P_BankTypes; P_Inventory; P_InventoryTypes;
       P_General; P_Customization; P_CustomizationTypes; P_Employees;
       P_EmployeesTypes; P_Website; P_WebsiteTypes; P_EmployeesTransactions;
       P_EmployeesTransactionsTypes; P_Marketing; P_MarketingTypes;
       P_DemandPlanning; P_DemandPlanningTypes; P_SupplyChain;
       P_SupplyChainTypes]).
    intros r. by destruct r. }
  intros H. pose proof (Hfind p) as Hp. rewrite H, Hfind in Hp.
  by injection Hp.
Qed.

Lemma property_pair_chars p :
  has_char "_" (property_pair p).1 = false
  /\ has_char "." (property_pair p).2 = false.
Proof. by destruct p. Qed.

Lemma str_app_inv_l (s a b : string) : s +:+ a = s +:+ b -> a = b.
Proof.
  induction s as [|c s IH]; [done|]. rewrite !str_app_cons.
  intros [= H]. by apply IH.
Qed.

(** The URN determines the name and the sub-namespace it was made of. *)
Lemma expected_urn_inj (n1 s1 n2 s2 V : string) :
  has_char "_" n1 = false -> has_char "_" n2 = false ->
  has_char "." s1 = false -> has_char "." s2 = false ->
  expected_urn n1 V s1 = expected_urn n2 V s2 -> n1 = n2 /\ s1 = s2.
Proof.
  intros Hn1 Hn2 Hs1 Hs2 H. unfold expected_urn in H.
  apply (str_app_inv_l "urn:") in H.
  change ("_" +:+ ?x) with (String "_" x) in H.
  apply (f_equal (split1 "_")) in H.
  rewrite !split1_first in H by done. injection H as -> H. split; [done|].
  apply str_app_inv_l in H.
  change ("." +:+ ?x) with (String "." x) in H. injection H as H.
  change (?x +:+ ".webservices.netsuite.com")
    with (x +:+ String "." "webservices.netsuite.com") in H.
  apply (f_equal (split1 ".")) in H.
  rewrite !split1_first in H by done. by injection H as ->.
Qed.

(** X18: no two of the namespace accessors are bound to the same
    namespace: in every state of an instance, different accessors return
    different type factories. *)
Theorem namespaces_distinct cfg sb v u c se ns0 st (p q : factory_property) :
  __init__ cfg sb v u c se = Ok ns0 ->
  reachable ns0 st ->
  p <> q ->
  (property_get p st).1 <> (property_get q st).1.
Proof.
  intros Hinit Hr Hpq Heq.
  destruct (reachable_attrs _ _ _ _ _ _ _ _ Hinit Hr) as (W & _).
  destruct (factory_spec p st W) as (c1 & st1 & R1 & _).
  destruct (factory_spec q st W) as (c2 & st2 & R2 & _).
  rewrite R1, R2 in Heq. cbn [fst] in Heq. unfold type_factory in Heq.
  assert (namespace_of (self st) p = namespace_of (self st) q) as Hns
    by congruence.
  destruct (property_pair_chars p) as [Hp1 Hp2].
  destruct (property_pair_chars q) as [Hq1 Hq2].
  destruct (expected_urn_inj _ _ _ _ _ Hp1 Hq1 Hp2 Hq2 Hns) as [H1 H2].
  apply Hpq, property_pair_inj.
  destruct (property_pair p), (property_pair q). cbn in H1, H2. congruence.
Qed.

(** ** The reserved keyword *)

(** X19: [_soapheaders] is reserved: a [request] for an operation of the
    service proxy whose keywords hold [_soapheaders] raises [TypeError] and
    calls no service, after the client has been built if it was not and a
    passport has been made. *)
Theorem request_reserved_keyword cfg sb v u c se ns0 st name args kw :
  __init__ cfg sb v u c se = Ok ns0 ->
  reachable ns0 st ->
  has_operation name = true ->
  has_key "_soapheaders" kw = true ->
  let st' := (request name args kw st).2 in
  (request name args kw st).1 = Err TypeError
  /\ exists cl p pre,
       trace (world st')
       = PassportMake cl (__config ns0) p :: pre ++ trace (world st)
       /\ Forall construction pre
       /\ client st' = (Ok cl, st').
Proof.
  intros Hinit Hr Hop Hkw st'.
  destruct (reachable_attrs _ _ _ _ _ _ _ _ Hinit Hr)
    as (W & _ & _ & Hcfg & _).
  destruct (request_eq name args kw st W)
    as (cl & st1 & R & W1 & X1 & (Hid & pre & Htr & Hpre) & Hm & Rq).
  rewrite Hop, Hkw in Rq. unfold st'. rewrite Rq. split; [reflexivity|].
  assert (__config (self st1) = __config ns0) as Hcfg1.
  { rewrite (ext_attrs _ _ _ X1). simpl. exact Hcfg. }
  exists cl, (VOpaque (next_id (world st1))), pre. split_and!.
  - simpl. by rewrite Htr, Hcfg1.
  - done.
  - by apply client_hit.
Qed.


End NetSuite.

(** * Examples *)

Lemma sample_init :
  __init__ sample_Config_new (ConfigDict []) None None None None None
  = Ok sample_instance.
Proof. reflexivity. Qed.

Lemma wsdl_url_resolved_witness :
  __init__ sample_Config_new (ConfigDict []) (Some false) (Some "2020.1.0")
    None None None
  = Ok production_instance
  /\ (wsdl_url {| self := production_instance; world := sample_world |}).1
     = Ok "https://webservices.netsuite.com/wsdl/v2020_1_0/netsuite.wsdl".
Proof.
  split; [reflexivity|].
  refine (proj1 (wsdl_url_resolved sample_Config_new sample_respond sample_ops
                   (ConfigDict []) false "2020.1.0" None None None
                   production_instance _ _ _) eq_refl).
  - reflexivity.
  - apply reach_init.
Defined.

Lemma sandbox_default_witness :
  (wsdl_url sample_state).1
  = Ok "https://webservices.sandbox.netsuite.com/wsdl/v2017_2_0/netsuite.wsdl".
Proof.
  refine (proj1 (sandbox_default sample_Config_new sample_respond sample_ops
                   (ConfigDict []) None None None sample_instance
                   sample_state _ _)).
  - reflexivity.
  - apply reach_init.
Defined.

Lemma version_validation_witness :
  __init__ sample_Config_new (ConfigDict []) None (Some "2017.2") None None
    None = Err AssertionError
  /\ (exists ns,
        __init__ sample_Config_new (ConfigDict []) None (Some "1.2.3-beta")
          None None None = Ok ns
        /\ version ns = "1.2.3-beta")
  /\ exists ns,
       __init__ sample_Config_new (ConfigDict []) None
         (Some (encode [1633; 46; 1634; 46; 1635]%N)) None None None = Ok ns.
Proof.
  pose proof (version_validation sample_Config_new (ConfigDict []) None None
                None None) as (Hrej & Hacc & Hshape & _ & Hbeta).
  split_and!.
  - apply Hrej. intros Hs.
    apply (re_match_version "2017.2") in Hs. discriminate Hs.
  - apply (Hacc "1.2.3-beta" {| config_values := [] |} Hbeta). reflexivity.
  - assert (version_shape (encode [1633; 46; 1634; 46; 1635]%N)) as Hv.
    { apply re_match_version. by vm_compute. }
    destruct (Hacc _ {| config_values := [] |} Hv eq_refl) as (ns & Hns & _).
    by exists ns.
Defined.

Lemma cached_accessors_build_once_witness :
  exists x st1,
    read (C_factory P_Core) sample_state = (Ok x, st1)
    /\ read (C_factory P_Core)
         (run_ops sample_respond sample_ops
            [GetList "customer" [1] []; Read C_cache] st1)
       = (Ok x,
          run_ops sample_respond sample_ops
            [GetList "customer" [1] []; Read C_cache] st1).
Proof.
  destruct (cached_accessors_build_once sample_Config_new sample_respond
    sample_ops
              (ConfigDict []) None None None None None sample_instance
              sample_state (C_factory P_Core) sample_init
              (reach_init sample_respond sample_ops sample_instance
                sample_world))
    as (_ & x & st1 & R & Hstable).
  exists x, st1. split; [exact R|].
  exact (proj1 (Hstable [GetList "customer" [1] []; Read C_cache])).
Defined.

Lemma namespace_factories_witness :
  exists cl st',
    property_get P_Sales sample_state
    = (Ok (type_factory cl
             "urn:sales_2017_2.transactions.webservices.netsuite.com"), st').
Proof.
  destruct (proj1 (namespace_factories sample_Config_new sample_respond
    sample_ops
                     (ConfigDict []) None None None None None sample_instance
                     sample_state P_Sales sample_init
                     (reach_init sample_respond sample_ops sample_instance
                       sample_world)))
    as (cl & st' & R & _).
  exists cl, st'. exact R.
Defined.

Lemma cache_and_transport_witness :
  exists c st',
    cache sample_state = (Ok c, st')
    /\ exists id, c = SqliteCache id 31536000.
Proof.
  exact (proj1 (cache_and_transport sample_Config_new sample_respond sample_ops
                  (ConfigDict []) None None None None None sample_instance
                  sample_state sample_init
                  (reach_init sample_respond sample_ops sample_instance
                    sample_world))).
Defined.

(** The claim C7 as stated fails for a supplied cache that is false in a
    boolean context (a cache class that defines [__len__] and holds no
    entry, say): [self.__cache or self._generate_cache()] then builds a
    [SqliteCache], and the [cache] property is not the object supplied. *)
Lemma false_cache_replaced :
  exists ns,
    __init__ sample_Config_new (ConfigDict []) None None None
      (Some (OtherCache 7 false)) None = Ok ns
    /\ (cache {| self := ns; world := sample_world |}).1
       = Ok (SqliteCache 0 31536000)
    /\ (cache {| self := ns; world := sample_world |}).1
       <> Ok (OtherCache 7 false).
Proof.
  eexists. split; [reflexivity|]. split; [reflexivity|]. discriminate.
Qed.

Lemma WebServiceCall_spec_witness :
  WebServiceCall (Some "body.readResponseList") None
    (fun _ : unit => ret sample_response) tt sample_state
  = (Ok (VCompound "" "ReadResponseList"
           [("readResponse",
             VList [VCompound "" "ReadResponse"
                      [("record", VStr "record-1")]])]),
     sample_state).
Proof.
  refine (proj1 (WebServiceCall_spec (fun _ : unit => ret sample_response)
                   (Some "body.readResponseList") None tt sample_state
                   sample_state sample_response _
                   [sample_response;
                    VCompound "" "Body"
                      [("readResponseList",
                        VCompound "" "ReadResponseList"
                          [("readResponse",
                            VList [VCompound "" "ReadResponse"
                                     [("record", VStr "record-1")]])])];
                    VCompound "" "ReadResponseList"
                      [("readResponse",
                        VList [VCompound "" "ReadResponse"
                                 [("record", VStr "record-1")]])]]
                   eq_refl eq_refl _ eq_refl)).
  intros [|[|i]] part Hp; vm_compute in Hp.
  - injection Hp as <-. by eexists _, _.
  - injection Hp as <-. by eexists _, _.
  - destruct i; discriminate Hp.
Defined.



Lemma getList_dispatch_witness :
  (getList sample_respond sample_ops "customer" [1; 2] ["x"] sample_state).1
  = Ok (VList [VStr "record-1"]).
Proof.
  destruct (getList_dispatch sample_Config_new sample_respond sample_ops
              (ConfigDict []) None None None None None sample_instance
              sample_state "customer" [1; 2] ["x"] sample_init
              (reach_init sample_respond sample_ops sample_instance
                sample_world)
              (or_introl (fun H => eq_ind [1; 2]
                            (fun l => match l with [] => False | _ => True end)
                            I [] H)))
    as (cl & p & pre & _ & _ & Hres).
  apply (Hres sample_response
           (VCompound "" "Body"
              [("readResponseList",
                VCompound "" "ReadResponseList"
                  [("readResponse",
                    VList [VCompound "" "ReadResponse"
                             [("record", VStr "record-1")]])])])
           (VCompound "" "ReadResponseList"
              [("readResponse",
                VList [VCompound "" "ReadResponse"
                         [("record", VStr "record-1")]])])
           [VCompound "" "ReadResponse" [("record", VStr "record-1")]]
           [VStr "record-1"]); try reflexivity.
  repeat constructor.
Defined.

Lemma empty_ids_rejected_witness :
  getList sample_respond sample_ops "customer" [] [] sample_state
  = (Err AssertionError, sample_state)
  /\ exists cl args kw rest,
       trace (world (getItemAvailability sample_respond sample_ops [] ["sku"]
                       sample_state).2)
       = ServiceCall cl "getItemAvailability" args kw :: rest.
Proof.
  destruct (empty_ids_rejected sample_Config_new sample_respond sample_ops
              (ConfigDict []) None None None None None sample_instance
              sample_state "customer" [] ["sku"] sample_init
              (reach_init sample_respond sample_ops sample_instance
                sample_world))
    as (Hempty & _ & Hsome).
  split; [exact Hempty|].
  destruct Hsome as (_ & _ & Hcall & _); [|exact Hcall].
  right. discriminate.
Defined.

Lemma override_init (url : string) :
  __init__ sample_Config_new (ConfigDict []) None None (Some url) None None
  = Ok (override_instance url).
Proof. reflexivity. Qed.

Lemma hostname_generated_witness :
  (hostname sample_state).1 = Ok "webservices.sandbox.netsuite.com".
Proof.
  exact (hostname_generated sample_Config_new sample_respond sample_ops
    (ConfigDict [])
           None None None None None sample_instance sample_state sample_init
           (reach_init sample_respond sample_ops sample_instance sample_world)
           (or_introl eq_refl)).
Defined.

Lemma hostname_https_override_witness :
  (hostname
     {| self := override_instance
                  ("https://" +:+ "tstdrv.suitetalk.api.netsuite.com:443"
                   +:+ "/wsdl/v2017_2_0/netsuite.wsdl");
        world := sample_world |}).1
  = Ok "tstdrv.suitetalk.api.netsuite.com:443".
Proof.
  refine (hostname_https_override sample_Config_new sample_respond sample_ops
            (ConfigDict []) None None None None _ _
            "tstdrv.suitetalk.api.netsuite.com:443"
            "/wsdl/v2017_2_0/netsuite.wsdl"
            (override_init _) (reach_init _ _ _ _) _ _ _).
  - reflexivity.
  - reflexivity.
  - right. by exists "wsdl/v2017_2_0/netsuite.wsdl".
Defined.

Lemma hostname_http_override_witness :
  (hostname {| self := override_instance "http://localhost:8080/netsuite.wsdl";
               world := sample_world |}).1
  = Ok "http:".
Proof.
  exact (hostname_http_override sample_Config_new sample_respond sample_ops
           (ConfigDict []) None None None None _ _
           "localhost:8080/netsuite.wsdl" (override_init _)
           (reach_init _ _ _ _)).
Defined.

Lemma hostname_stable_witness :
  exists h st1,
    hostname sample_state = (Ok h, st1)
    /\ hostname (run_ops sample_respond sample_ops [GetList "customer" [1] []]
      st1)
       = (Ok h, run_ops sample_respond sample_ops [GetList "customer" [1] []]
         st1).
Proof.
  destruct (hostname_stable sample_Config_new sample_respond sample_ops
    (ConfigDict [])
              None None None None None sample_instance sample_state
              sample_init
              (reach_init sample_respond sample_ops sample_instance
                sample_world))
    as (h & st1 & R & _ & _ & Hstable).
  exists h, st1. split; [exact R|]. apply Hstable.
Defined.

Lemma repr_spec_witness :
  exists st1,
    __repr__ sample_state
    = (Ok "<NetSuite webservices.sandbox.netsuite.com(2017.2.0)>", st1).
Proof.
  destruct (repr_spec sample_Config_new sample_respond sample_ops (ConfigDict
    [])
              None None None None None sample_instance sample_state
              sample_init
              (reach_init sample_respond sample_ops sample_instance
                sample_world))
    as (h & st1 & Hh & R & _).
  exists st1. rewrite R. injection Hh as <-. reflexivity.
Defined.

Lemma getItemAvailability_dispatch_witness :
  exists cl p pre,
    trace (world (getItemAvailability sample_respond sample_ops [7] ["sku"]
                    sample_state).2)
    = ServiceCall cl "getItemAvailability" []
        [("_soapheaders", p);
         ("itemAvailabilityFilter",
          VDict
            [("item",
              VList
                [VDict [("recordRef",
                         VDict [("type", VStr "inventoryItem");
                                ("internalId", VInt 7)])];
                 VDict [("recordRef",
                         VDict [("type", VStr "inventoryItem");
                                ("externalId", VStr "sku")])]])])]
      :: PassportMake cl {| config_values := [] |} p :: pre ++ [].
Proof.
  destruct (getItemAvailability_dispatch sample_Config_new sample_respond
    sample_ops
              (ConfigDict []) None None None None None sample_instance
              sample_state [7] ["sku"] sample_init
              (reach_init sample_respond sample_ops sample_instance
                sample_world)
              (or_intror (fun H => eq_ind ["sku"]
                            (fun l => match l with [] => False | _ => True end)
                            I [] H)))
    as (cl & p & pre & H & _).
  exists cl, p, pre. exact H.
Defined.

Lemma session_resolved_witness :
  let ns :=
    {| sandbox := true; version := "2017.2.0";
       __config := {| config_values := [] |};
       __wsdl_url := None; __cache := None;
       __session := Some {| session_id := 42; session_truthy := true |};
       __dict__ := empty_memo |} in
  exists st',
    session {| self := ns; world := sample_world |}
    = (Ok {| session_id := 42; session_truthy := true |}, st')
    /\ world st' = sample_world.
Proof.
  intros ns.
  destruct (session_resolved sample_Config_new sample_respond sample_ops
    (ConfigDict [])
              None None None None (Some {| session_id := 42; session_truthy :=
                true |}) ns
              {| self := ns; world := sample_world |} eq_refl
              (reach_init _ _ _ _))
    as (s & st' & R & Hs & _).
  destruct (Hs _ eq_refl eq_refl) as [-> Hw]. by exists st'.
Defined.

Lemma config_stored_witness :
  __init__ (fun _ => Err ValueError) (ConfigDict []) None (Some "2017.2")
    None None None = Err AssertionError
  /\ __init__ (fun _ => Err ValueError) (ConfigDict []) None (Some "2017.2.0")
       None None None = Err ValueError
  /\ exists ns0,
       __init__ (fun _ => Err ValueError)
         (ConfigObj {| config_values := [] |}) None None None None None
       = Ok ns0.
Proof.
  split_and!.
  - exact (proj1 (proj2 (config_stored (fun _ => Err ValueError)
                           sample_respond sample_ops (ConfigDict []) None (Some
                             "2017.2")
                           None None None))
             [] ValueError eq_refl eq_refl).
  - exact (proj1 (proj2 (config_stored (fun _ => Err ValueError)
                           sample_respond sample_ops (ConfigDict []) None
                           (Some "2017.2.0") None None None))
             [] ValueError eq_refl eq_refl).
  - apply (proj2 (proj2 (config_stored (fun _ => Err ValueError)
                           sample_respond sample_ops
                           (ConfigObj {| config_values := [] |}) None None
                           None None None))
             {| config_values := [] |} eq_refl).
    intros v' H. discriminate H.
Defined.

Lemma namespace_version_witness :
  exists ns0,
    __init__ sample_Config_new (ConfigDict []) None (Some "2017.2.0.1") None
      None None = Ok ns0
    /\ underscored_version_no_micro ns0 = "2017_2_0".
Proof.
  eexists. split; [reflexivity|].
  exact (proj2 (namespace_version sample_Config_new (ConfigDict []) None None
                  None None _ "2017.2.0" "1" "." eq_refl (or_introl eq_refl)
                  eq_refl eq_refl)).
Defined.

Lemma getList_failures_witness :
  (getList (fun _ => Ok VNone) sample_ops "customer" [1] [] sample_state).1
  = Err AttributeError.
Proof.
  destruct (getList_failures sample_Config_new (fun _ => Ok VNone)
              sample_ops
              (ConfigDict []) None None None None None sample_instance
              sample_state "customer" [1] [] sample_init
              (reach_init _ _ sample_instance sample_world)
              (or_introl (fun H => eq_ind [1]
                            (fun l => match l with [] => False | _ => True end)
                            I [] H)))
    as (_ & _ & H & _).
  exact (H VNone AttributeError eq_refl eq_refl).
Defined.

Lemma collaborators_built_once_witness :
  exists evs,
    trace (world (run_ops sample_respond sample_ops
                    [GetList "customer" [1] []; Read C_transport;
                     Request "get" [] []]
                    sample_state))
    = evs ++ []
    /\ (constructed "client" evs <= 1)%nat
    /\ (constructed "transport" evs <= 1)%nat.
Proof.
  destruct (collaborators_built_once sample_Config_new sample_respond sample_ops
              (ConfigDict []) None None None None None sample_instance
              sample_world
              [GetList "customer" [1] []; Read C_transport; Request "get" [] []]
              sample_init) as (evs & H & Hc).
  exists evs. split_and!; [exact H|apply Hc..].
Defined.

Lemma supplied_objects_kept_witness :
  let ns :=
    {| sandbox := true; version := "2017.2.0";
       __config := {| config_values := [] |};
       __wsdl_url := None; __cache := Some (OtherCache 7 true);
       __session := Some {| session_id := 42; session_truthy := true |};
       __dict__ := empty_memo |} in
  exists evs,
    trace (world (run_ops sample_respond sample_ops [Read C_client; Request
      "get" [] []]
                    {| self := ns; world := sample_world |}))
    = evs ++ []
    /\ constructed "cache" evs = 0%nat
    /\ constructed "session" evs = 0%nat.
Proof.
  intros ns.
  destruct (supplied_objects_kept sample_Config_new sample_respond sample_ops
              (ConfigDict []) None None None (Some (OtherCache 7 true))
              (Some {| session_id := 42; session_truthy := true |}) ns
                sample_world
              [Read C_client; Request "get" [] []] eq_refl)
    as (evs & H & Hc & Hs).
  exists evs. split_and!; [exact H|exact (Hc _ eq_refl eq_refl)|].
  exact (Hs _ eq_refl eq_refl).
Defined.

Lemma requests_signed_witness :
  exists evs,
    trace (world (run_ops sample_respond sample_ops
                    [GetList "customer" [1] []; GeneratePassport;
                     GetItemAvailability [] ["sku"]]
                    sample_state))
    = evs ++ []
    /\ signed evs.
Proof.
  destruct (requests_signed sample_Config_new sample_respond sample_ops
              (ConfigDict []) None None None None None sample_instance
              sample_world
              [GetList "customer" [1] []; GeneratePassport;
               GetItemAvailability [] ["sku"]]
              sample_init) as (evs & H & Hs & _).
  exists evs. split; [exact H|exact Hs].
Defined.

Lemma one_client_witness :
  exists evs,
    trace (world (run_ops sample_respond sample_ops
                    [Read (C_factory P_Sales); Request "get" [] []]
                    sample_state))
    = evs ++ []
    /\ forall cl headers,
         SetDefaultSoapheaders cl headers ∈ evs -> headers = [].
Proof.
  destruct (one_client sample_Config_new sample_respond sample_ops
              (ConfigDict []) None None None None None sample_instance
              sample_world [Read (C_factory P_Sales); Request "get" [] []]
              sample_init) as (evs & H & _ & Hh).
  exists evs. split; [exact H|exact Hh].
Defined.

Lemma lazy_reads_witness :
  memo_client (__dict__ (self (read C_transport sample_state).2)) = None.
Proof.
  exact (proj2 (proj2 (lazy_reads sample_Config_new sample_respond sample_ops
                         (ConfigDict []) None None None None None
                         sample_instance sample_state sample_init
                         (reach_init sample_respond sample_ops sample_instance
                            sample_world))
                  C_transport (or_intror (or_intror eq_refl)))).
Defined.

Lemma client_construction_witness :
  exists s ca t cl st',
    client sample_state = (Ok cl, st')
    /\ trace (world st')
       = [SetDefaultSoapheaders cl []; NewClient cl; NewTransport t;
          NewSqliteCache ca; NewSession s].
Proof.
  destruct (client_construction sample_Config_new (ConfigDict []) None None
              None sample_instance sample_world sample_init)
    as (s & ca & t & cl & st' & R & Ht & _).
  exists s, ca, t, cl, st'. split; [exact R|]. rewrite Ht. reflexivity.
Defined.

Lemma namespaces_distinct_witness :
  (property_get P_Employees sample_state).1
  <> (property_get P_EmployeesTransactions sample_state).1.
Proof.
  apply (namespaces_distinct sample_Config_new sample_respond sample_ops
    (ConfigDict [])
           None None None None None sample_instance sample_state
           P_Employees P_EmployeesTransactions sample_init
           (reach_init sample_respond sample_ops sample_instance sample_world)).
  discriminate.
Defined.

Lemma request_reserved_keyword_witness :
  (request sample_respond sample_ops "get" [VInt 7] [("x", VNone);
    ("_soapheaders", VNone)]
     sample_state).1
  = Err TypeError.
Proof.
  exact (proj1 (request_reserved_keyword sample_Config_new sample_respond
    sample_ops
                  (ConfigDict []) None None None None None sample_instance
                  sample_state "get" [VInt 7]
                  [("x", VNone); ("_soapheaders", VNone)] sample_init
                  (reach_init sample_respond sample_ops sample_instance
                     sample_world)
                  eq_refl eq_refl)).
Defined.

